(** * klusta.traces.waveform: waveform extraction and loading

    A shallow embedding of [klusta/traces/waveform.py] and the properties
    of it that the specification states.

    Conventions of the embedding.
    - Sample and channel indices are Python integers: [Z].  Indexing a
      numpy axis follows numpy: a negative index counts from the end, an
      index outside [-n, n) raises [IndexError].
    - Trace values are finite numbers and arithmetic on them is exact:
      amplitudes are rationals ([Q]), compared with [Qeq].  Rounding,
      overflow and non-finite trace values are outside the model.  The one
      non-finite value the code can produce from finite data, the [0/0] of
      [spike_sample_aligned], is modelled ([np_float]).
    - A two-dimensional array is its number of columns and its list of
      rows; [rect] says that every row has that many columns.
    - Python exceptions are the constructors of [exn]; a function that can
      raise returns in [result]. *)

From Stdlib Require Import ZArith QArith Qminmax Qround Qpower Lia Lqa List Bool.
From stdpp Require Import gmap list sorting strings.
Import ListNotations.

#[local] Set Warnings "-clear-no-such-hyp".
Local Open Scope Z_scope.

(** ** Exceptions and the result monad *)

Inductive exn : Type :=
| RuntimeError                      (* [raise RuntimeError()] of [_get_padded] *)
| DeadChannel (channel : Z)         (* [RuntimeError("Channel `{}` appears to be dead ...")] *)
| AssertionError
| IndexError
| ValueError
| InvalidTime (time_o ns : Z)       (* [ValueError("Invalid time {0:d}/{1:d}.")] *)
| AttributeError
| KeyError
| TypeError
| OverflowError
| NotImplementedError.

Inductive result (A : Type) : Type :=
| OK (a : A)
| Raise (e : exn).
Arguments OK {A} a.
Arguments Raise {A} e.

#[global] Instance result_ret : MRet result := fun A a => OK a.
#[global] Instance result_bind : MBind result := fun A B f m =>
  match m with
  | OK a => f a
  | Raise e => Raise e
  end.

Definition assert (b : bool) : result unit :=
  if b then OK tt else Raise AssertionError.

(** ** numpy and Python list primitives *)

(** [a[i]] on an axis of length [n]. *)
Definition np_index (n : nat) (i : Z) : result nat :=
  if (0 <=? i) && (i <? Z.of_nat n) then OK (Z.to_nat i)
  else if (- Z.of_nat n <=? i) && (i <? 0) then OK (Z.to_nat (i + Z.of_nat n))
  else Raise IndexError.

(** A slice bound [i] of [a[i:j]] on an axis of length [n]: negative bounds
    count from the end, and every bound is clamped to the axis. *)
Definition slice_bound (n : nat) (i : Z) : nat :=
  if i <? 0 then Z.to_nat (Z.max (i + Z.of_nat n) 0)
  else Z.to_nat (Z.min i (Z.of_nat n)).

(** [l[start:stop]]; [None] is an omitted bound. *)
Definition py_slice {A : Type} (l : list A) (start stop : option Z) : list A :=
  let n := length l in
  let a := from_option (slice_bound n) 0%nat start in
  let b := from_option (slice_bound n) n stop in
  take (b - a) (drop a l).

Record ndarray2 : Type := Array2 { shape1 : nat; rows : list (list Q) }.

Definition shape0 (a : ndarray2) : nat := length (rows a).

Definition rect (a : ndarray2) : Prop :=
  Forall (fun r => length r = shape1 a) (rows a).

(** [np.zeros((r, c))]; a negative dimension is a [ValueError]. *)
Definition np_zeros2 (r : Z) (c : nat) : result ndarray2 :=
  if r <? 0 then Raise ValueError
  else OK (Array2 c (replicate (Z.to_nat r) (replicate c 0%Q))).

(** [np.vstack((a, b))] of two arrays of the same width. *)
Definition np_vstack (a b : ndarray2) : ndarray2 :=
  Array2 (shape1 a) (rows a ++ rows b).

(** [a[start:stop]] along the first axis. *)
Definition slice_rows (a : ndarray2) (start stop : option Z) : ndarray2 :=
  Array2 (shape1 a) (py_slice (rows a) start stop).

(** ** Padding utility *)

Definition _get_padded (data : ndarray2) (start end_ : Z) : result ndarray2 :=
  let n := Z.of_nat (shape0 data) in
  if (start <? 0) && (end_ >=? n) then Raise RuntimeError
  else if start <? 0 then
    start_zeros ← np_zeros2 (- start) (shape1 data);
    mret (np_vstack start_zeros (slice_rows data None (Some end_)))
  else if end_ >? n then
    end_zeros ← np_zeros2 (end_ - n) (shape1 data);
    mret (np_vstack (slice_rows data (Some start) None) end_zeros)
  else mret (slice_rows data (Some start) (Some end_)).

(** The contract of the docstring: row [i] of [data] for an index inside the
    array, a row of zeros for an index outside, for [i] from [start] up to
    [end_]. *)
Definition padded_row (data : ndarray2) (i : Z) : list Q :=
  if (0 <=? i) && (i <? Z.of_nat (shape0 data))
  then default (replicate (shape1 data) 0%Q) (rows data !! Z.to_nat i)
  else replicate (shape1 data) 0%Q.

Definition padded_contract (data : ndarray2) (start end_ : Z) : ndarray2 :=
  Array2 (shape1 data)
         (map (fun k => padded_row data (start + Z.of_nat k))
              (seq 0 (Z.to_nat (end_ - start)))).

(** ** More numpy primitives *)

Fixpoint Qsum (l : list Q) : Q :=
  match l with
  | [] => 0%Q
  | x :: l' => (x + Qsum l')%Q
  end.

(** [np.sum(a)] of a two-dimensional array: the sum of all its entries. *)
Definition np_sum2 (a : list (list Q)) : Q := Qsum (map Qsum a).

(** [np.clip(x, lo, hi)], that is [minimum(maximum(x, lo), hi)]. *)
Definition np_clip (x lo hi : Q) : Q := Qmin (Qmax x lo) hi.

(** [l.min()] and [l.max()] of a one-dimensional integer array; numpy
    raises [ValueError] on an empty one. *)
Definition np_min (l : list Z) : result Z :=
  match l with
  | [] => Raise ValueError
  | x :: l' => OK (foldl Z.min x l')
  end.

Definition np_max (l : list Z) : result Z :=
  match l with
  | [] => Raise ValueError
  | x :: l' => OK (foldl Z.max x l')
  end.

(** [l[i]] for one integer index. *)
Definition np_getitem {A : Type} (l : list A) (i : Z) : result A :=
  k ← np_index (length l) i;
  match l !! k with
  | Some x => OK x
  | None => Raise IndexError
  end.

(** [l[idx]] for a list of integer indices (fancy indexing). *)
Fixpoint np_take {A : Type} (l : list A) (idx : list Z) : result (list A) :=
  match idx with
  | [] => OK []
  | i :: idx' =>
      x ← np_getitem l i;
      xs ← np_take l idx';
      mret (x :: xs)
  end.

(** [a[i, j]]. *)
Definition np_get2 (a : ndarray2) (i j : Z) : result Q :=
  r ← np_index (shape0 a) i;
  c ← np_index (shape1 a) j;
  match rows a !! r ≫= (fun row => row !! c) with
  | Some v => OK v
  | None => Raise IndexError
  end.

(** [a[ii, jj]] for two index arrays of the same length. *)
Fixpoint np_gather2 (a : ndarray2) (ij : list (Z * Z)) : result (list Q) :=
  match ij with
  | [] => OK []
  | (i, j) :: ij' =>
      v ← np_get2 a i j;
      vs ← np_gather2 a ij';
      mret (v :: vs)
  end.

(** [a[i, j] = v]. *)
Definition np_set2 (a : ndarray2) (i j : Z) (v : Q) : result ndarray2 :=
  r ← np_index (shape0 a) i;
  c ← np_index (shape1 a) j;
  mret (Array2 (shape1 a) (alter (fun row => <[c := v]> row) r (rows a))).

(** [a[ii, jj] = vs]: the assignments are made in order, so that the last
    value written to a position stays. *)
Fixpoint np_scatter2 (a : ndarray2) (ij : list (Z * Z)) (vs : list Q)
  : result ndarray2 :=
  match ij, vs with
  | (i, j) :: ij', v :: vs' =>
      a' ← np_set2 a i j v;
      np_scatter2 a' ij' vs'
  | _, _ => OK a
  end.

(** [np.unique(l)]: the sorted distinct elements. *)
Definition np_unique (l : list Z) : list Z := merge_sort Z.le (remove_dups l).

(** [b[idx] = 1] on a boolean vector. *)
Fixpoint np_set_true (b : list bool) (idx : list Z) : result (list bool) :=
  match idx with
  | [] => OK b
  | i :: idx' =>
      k ← np_index (length b) i;
      np_set_true (<[k := true]> b) idx'
  end.

Definition Qltb (x y : Q) : bool := negb (Qle_bool y x).

(** [np.argmax(l)]: the index of the first occurrence of the maximum.
    [argmax_from l i best besti] scans [l], whose head has index [i]. *)
Fixpoint argmax_from (l : list Q) (i : nat) (best : Q) (besti : nat) : nat :=
  match l with
  | [] => besti
  | x :: l' =>
      if Qltb best x then argmax_from l' (S i) x i
      else argmax_from l' (S i) best besti
  end.

Definition np_argmax (l : list Q) : result nat :=
  match l with
  | [] => Raise ValueError
  | x :: l' => OK (argmax_from l' 1 x 0)
  end.

(** Column [j] of an array. *)
Definition column (a : ndarray2) (j : nat) : list Q :=
  map (fun row => default 0%Q (row !! j)) (rows a).

(** [np.argmax(a, axis=0)]: one index per column. *)
Fixpoint np_argmax0_cols (a : ndarray2) (js : list nat) : result (list nat) :=
  match js with
  | [] => OK []
  | j :: js' =>
      p ← np_argmax (column a j);
      ps ← np_argmax0_cols a js';
      mret (p :: ps)
  end.

Definition np_argmax0 (a : ndarray2) : result (list nat) :=
  np_argmax0_cols a (seq 0 (shape1 a)).

(** The value of a floating-point division and what is added to it: a
    finite number, an infinity, or not a number. *)
Inductive np_float : Type :=
| Finite (q : Q)
| PInf
| NInf
| NaN.

(** [a / b] for two finite numpy scalars: a zero divisor gives [nan] for
    [0/0] and a signed infinity otherwise (with a warning, not an error). *)
Definition np_div (a b : Q) : np_float :=
  if Qeq_bool b 0 then
    if Qeq_bool a 0 then NaN else if Qle_bool 0 a then PInf else NInf
  else Finite (a / b).

Definition np_add_int (x : np_float) (k : Z) : np_float :=
  match x with
  | Finite q => Finite (q + inject_Z k)
  | other => other
  end.

(** [int(x)]: truncation toward zero. *)
Definition Qtruncate (q : Q) : Z :=
  if Qle_bool 0 q then Qfloor q else Qceiling q.

Definition py_int (x : np_float) : result Z :=
  match x with
  | Finite q => OK (Qtruncate q)
  | NaN => Raise ValueError
  | PInf | NInf => Raise OverflowError
  end.

(** ** Waveform extractor from a connected component *)

(** The [thresholds] dictionary with both of its keys set (a missing key is
    a [KeyError] in [_normalize], which this record leaves out). *)
Record thresholds : Type := Thresholds { weak : Q; strong : Q }.

(** [{i: channels for channels in channels_per_group.values()
        for i in channels}]: a later group overwrites an earlier one. *)
Definition dep_channels_of (channels_per_group : list (Z * list Z))
  : gmap Z (list Z) :=
  foldl (fun d gc =>
           foldl (fun d' i => <[i := gc.2]> d') d gc.2)
        ∅ channels_per_group.

(** [{i: g for g, channels in channels_per_group.items()
        for i in channels}]. *)
Definition channel_groups_of (channels_per_group : list (Z * list Z))
  : gmap Z Z :=
  foldl (fun d gc =>
           foldl (fun d' i => <[i := gc.1]> d') d gc.2)
        ∅ channels_per_group.

Record WaveformExtractor : Type := {
  _extract_before : Z;
  _extract_after : Z;
  _weight_power : nat;
  _thresholds : thresholds;
  _channels_per_group : list (Z * list Z);
  _dep_channels : gmap Z (list Z);
  _channel_groups : gmap Z Z
}.

(** [WaveformExtractor.__init__].  The power is a non-negative integer
    here; [None] selects the default 1. *)
Definition WaveformExtractor_init (extract_before extract_after : Z)
    (weight_power : option nat) (th : thresholds)
    (channels_per_group : list (Z * list Z)) : WaveformExtractor :=
  {| _extract_before := extract_before;
     _extract_after := extract_after;
     _weight_power := default 1%nat weight_power;
     _thresholds := th;
     _channels_per_group := channels_per_group;
     _dep_channels := dep_channels_of channels_per_group;
     _channel_groups := channel_groups_of channels_per_group |}.

(** The [Bunch] that [_component] returns. *)
Record Bunch : Type := {
  comp_s : list Z;
  comp_ch : list Z;
  s_min : Z;
  s_max : Z;
  channels : list Z;
  group : Z
}.

(** The samples of a component are 64-bit integers, numpy's default
    integer type, and [comp_s.min() - 3] and [comp_s.max() + 4] are computed
    in that type.  [_component] computes them as integers without a bound,
    which is what the code does as long as the two values fit; a statement
    about samples that no trace length bounds assumes that they do. *)
Definition int64_min : Z := - 2 ^ 63.

Definition int64_max : Z := 2 ^ 63 - 1.

Definition fits_int64 (z : Z) : Prop := int64_min <= z <= int64_max.

Definition _component (self : WaveformExtractor) (component : list (Z * Z))
    (n_samples : Z) : result Bunch :=
  let comp_s := component.*1 in
  let comp_ch := component.*2 in
  channel ← np_getitem comp_ch 0;
  match _dep_channels self !! channel with
  | None => Raise (DeadChannel channel)
  | Some channels =>
      match _channel_groups self !! channel with
      | None => Raise KeyError
      | Some group =>
          lo ← np_min comp_s;
          hi ← np_max comp_s;
          let s_min := Z.max (lo - 3) 0 in
          let s_max := Z.min (hi + 4) n_samples in
          _ ← assert (s_min <? s_max);
          mret {| comp_s := comp_s; comp_ch := comp_ch;
                  s_min := s_min; s_max := s_max;
                  channels := channels; group := group |}
      end
  end.

(** The [thresholds] dictionary is an object that the extractor shares
    with whoever holds a reference to it.  A store maps references to
    dictionaries; every reference of the program points into the store,
    and a reference outside it reads as an empty dictionary. *)
Abbreviation py_dict := (gmap string Q) (only parsing).

Abbreviation ref := nat (only parsing).

Abbreviation store := (gmap nat (gmap string Q)) (only parsing).

Definition deref (h : store) (r : ref) : py_dict := default ∅ (h !! r).

(** [{}]: a new, empty dictionary. *)
Definition new_dict (h : store) : store * ref :=
  let r := fresh (dom h) in (<[r := ∅]> h, r).

(** [self._thresholds = thresholds or {}] of [__init__]: [None] and an
    empty dictionary are false, and a new dictionary is made; any other
    dictionary is kept, the object itself and not a copy of it. *)
Definition init_thresholds (h : store) (thresholds : option ref)
  : store * ref :=
  match thresholds with
  | None => new_dict h
  | Some r => if bool_decide (deref h r = ∅) then new_dict h else (h, r)
  end.

(** [d.update(kwargs)]: the keys are set in order. *)
Definition dict_update (d : py_dict) (kwargs : list (string * Q)) : py_dict :=
  foldl (fun d' kv => <[kv.1 := kv.2]> d') d kwargs.

(** [set_thresholds] with keyword arguments updates the dictionary of the
    extractor in place. *)
Definition set_thresholds (h : store) (self_thresholds : ref)
    (kwargs : list (string * Q)) : store :=
  <[self_thresholds := dict_update (deref h self_thresholds) kwargs]> h.

(** The two lookups of [_normalize], [self._thresholds['weak']] and then
    [self._thresholds['strong']]: a missing key is a [KeyError]. *)
Definition read_thresholds (h : store) (self_thresholds : ref)
  : result thresholds :=
  let d := deref h self_thresholds in
  match d !! "weak"%string with
  | None => Raise KeyError
  | Some tw =>
      match d !! "strong"%string with
      | None => Raise KeyError
      | Some ts => OK (Thresholds tw ts)
      end
  end.

(** [_normalize] on one entry, and on one- and two-dimensional arrays.  The
    division is that of the rationals.  It is the division of numpy, up to
    rounding, whenever the two thresholds differ; with [weak = strong]
    numpy divides by zero, to an infinity or to not a number, and every
    property stated below that goes through the normalization excludes
    that case. *)
Definition normalize_entry (th : thresholds) (x : Q) : Q :=
  np_clip ((x - weak th) / (strong th - weak th)) 0 1.

Definition _normalize (self : WaveformExtractor) (x : list Q) : list Q :=
  map (normalize_entry (_thresholds self)) x.

Definition _normalize2 (self : WaveformExtractor) (x : list (list Q))
  : list (list Q) :=
  map (_normalize self) x.

Definition _comp_wave (data_t : ndarray2) (comp : Bunch) : result ndarray2 :=
  let nc := shape1 data_t in
  wave ← np_zeros2 (s_max comp - s_min comp) nc;
  vals ← np_gather2 data_t (zip (comp_s comp) (comp_ch comp));
  np_scatter2 wave
    (zip (map (fun s => s - s_min comp) (comp_s comp)) (comp_ch comp)) vals.

Definition bool_to_Q (b : bool) : Q := if b then 1%Q else 0%Q.

(** [peaks_values] of [masks]: the filtered value at the peak sample of each
    channel, zeroed on the channels that the component does not touch.  The
    peaks and [np.arange(0, nc)] index [data_t] together and must have the
    same length (an index array of length one, which numpy would stretch,
    is refused here). *)
Definition peaks_values (data_t wave : ndarray2) (comp : Bunch)
  : result (list Q) :=
  let nc := shape1 data_t in
  masks_bin ← np_set_true (replicate nc false) (np_unique (comp_ch comp));
  am ← np_argmax0 wave;
  let peaks := map (fun p => Z.of_nat p + s_min comp) am in
  if negb (length peaks =? nc)%nat then Raise IndexError
  else
    vals ← np_gather2 data_t (zip peaks (map Z.of_nat (seq 0 nc)));
    mret (zip_with (fun v b => (v * bool_to_Q b)%Q) vals masks_bin).

Definition masks (self : WaveformExtractor) (data_t wave : ndarray2)
    (comp : Bunch) : result (list Q) :=
  pv ← peaks_values data_t wave comp;
  let masks_float := _normalize self pv in
  np_take masks_float (channels comp).

(** [wave_n_p * u]: row [i] is multiplied by [i]. *)
Definition times_row_index (w : list (list Q)) : list (list Q) :=
  imap (fun i row => map (fun x => (x * inject_Z (Z.of_nat i))%Q) row) w.

Definition np_power (w : list (list Q)) (p : nat) : list (list Q) :=
  map (map (fun x => (x ^ Z.of_nat p)%Q)) w.

(** [wave_n_p * u] needs as many rows in [wave] as [u = arange(s_max -
    s_min)] has entries (a one-row operand, which numpy would stretch, is
    not what [_comp_wave] builds and is refused here). *)
Definition spike_sample_aligned (self : WaveformExtractor) (wave : ndarray2)
    (comp : Bunch) : result np_float :=
  let wave_n := _normalize2 self (rows wave) in
  let wave_n_p := np_power wave_n (_weight_power self) in
  if negb (shape0 wave =? Z.to_nat (s_max comp - s_min comp))%nat
  then Raise ValueError
  else
    mret (np_add_int
            (np_div (np_sum2 (times_row_index wave_n_p)) (np_sum2 wave_n_p))
            (s_min comp)).

(** [a[:, idx]]: the indices are checked against the width of [a], then
    every row is restricted to them. *)
Fixpoint np_indices (n : nat) (idx : list Z) : result (list nat) :=
  match idx with
  | [] => OK []
  | i :: idx' =>
      k ← np_index n i;
      ks ← np_indices n idx';
      mret (k :: ks)
  end.

Definition np_take_columns (a : ndarray2) (idx : list Z) : result ndarray2 :=
  ks ← np_indices (shape1 a) idx;
  mret (Array2 (length idx)
               (map (fun row => map (fun k => default 0%Q (row !! k)) ks)
                    (rows a))).

Definition extract (self : WaveformExtractor) (data : ndarray2)
    (s_aligned : np_float) (channels : list Z) : result ndarray2 :=
  s ← py_int s_aligned;
  waveform ← _get_padded data (s - _extract_before self - 1)
                              (s + _extract_after self + 2);
  np_take_columns waveform channels.

(** What [logger.warn] records. *)
Inductive log_record : Type :=
| InterpolationErrorAt (s : Z)     (* "Interpolation error at time {0:d}" *)
| LoadError (e : exn).             (* "Error while loading waveform: {0}" *)

(** [except ValueError] catches the invalid-time error as well. *)
Definition is_ValueError (e : exn) : bool :=
  match e with
  | ValueError | InvalidTime _ _ => true
  | _ => false
  end.

(** [scipy.interpolate.interp1d(x, y, kind='cubic', axis=0)] is a library
    outside the repository: building the interpolant either raises or gives
    a function from a sample position to a row of values. *)
Class Interp1d : Type :=
  interp1d : list Z -> ndarray2 -> result (Q -> list Q).

(** [np.arange(a, b)] for integers. *)
Definition np_arange (a b : Z) : list Z := seqZ a (b - a).

(** [f(new_s)] with [bounds_error=True]: a position outside the range of
    the knots is a [ValueError]. *)
Definition in_bounds (x : list Z) (xn : Q) : bool :=
  match x, last x with
  | a :: _, Some b => Qle_bool (inject_Z a) xn && Qle_bool xn (inject_Z b)
  | _, _ => false
  end.

Definition interp_call (x : list Z) (width : nat) (f : Q -> list Q)
    (new_x : list Q) : result ndarray2 :=
  if forallb (in_bounds x) new_x then OK (Array2 width (map f new_x))
  else Raise ValueError.

Definition align `{Interp1d} (self : WaveformExtractor) (waveform : ndarray2)
    (s_aligned : np_float) : result (ndarray2 * list log_record) :=
  s ← py_int s_aligned;
  match s_aligned with
  | Finite q =>
      let sb := _extract_before self in
      let sa := _extract_after self in
      let old_s := np_arange (s - sb - 1) (s + sa + 2) in
      let new_s := map (fun k => (inject_Z k + (q - inject_Z s))%Q)
                       (np_arange (s - sb + 0) (s + sa + 0)) in
      match interp1d old_s waveform with
      | Raise e =>
          if is_ValueError e
          then OK (waveform, [InterpolationErrorAt s])
          else Raise e
      | OK f =>
          out ← interp_call old_s (shape1 waveform) f new_s;
          mret (out, [])
      end
  | _ => Raise ValueError
  end.

(** [WaveformExtractor.__call__].  Of its assertions, the ones on the number
    of dimensions hold by the types of the arrays. *)
Definition call `{Interp1d} (self : WaveformExtractor)
    (component : list (Z * Z)) (data data_t : ndarray2)
  : result ((Z * np_float * ndarray2 * list Q) * list log_record) :=
  _ ← assert (bool_decide (shape0 data = shape0 data_t
                           ∧ shape1 data = shape1 data_t));
  comp ← _component self component (Z.of_nat (shape0 data_t));
  let channels := channels comp in
  wave ← _comp_wave data_t comp;
  masks ← masks self data_t wave comp;
  s_aligned ← spike_sample_aligned self wave comp;
  waveform_unaligned ← extract self data s_aligned channels;
  al ← align self waveform_unaligned s_aligned;
  let waveform_aligned := al.1 in
  _ ← assert (shape1 waveform_aligned =? length masks)%nat;
  mret ((group comp, s_aligned, waveform_aligned, masks), al.2).

(** ** Waveform loader from traces *)

(** The [n_samples] argument: one count, or a tuple or list. *)
Inductive n_samples_arg : Type :=
| Count (n : Z)
| BeforeAfter (l : list Z).

Definition _before_after (n_samples : n_samples_arg) : result (Z * Z) :=
  match n_samples with
  | Count n =>
      let before := n `div` 2 in
      let after := n - before in
      _ ← assert (before >=? 0);
      _ ← assert (after >=? 0);
      _ ← assert (before + after =? n);
      mret (before, after)
  | BeforeAfter l =>
      _ ← assert (length l =? 2)%nat;
      match l with
      | [before; after] =>
          let n := before + after in
          _ ← assert (before >=? 0);
          _ ← assert (after >=? 0);
          _ ← assert (before + after =? n);
          mret (before, after)
      | _ => Raise ValueError
      end
  end.

(** A Python [slice(start, stop, None)]. *)
Record slice : Type := Slice { start : Z; stop : Z }.

Definition _slice (index : Z) (n_samples : Z * Z) (margin : option (Z * Z))
  : slice :=
  let margin := default (0, 0) margin in
  let '(before, after) := n_samples in
  let '(margin_before, margin_after) := margin in
  let before := before + margin_before in
  let after := after + margin_after in
  Slice (Z.max 0 (index - before)) (index + after).

Inductive direction : Type := left | right.

(** Modelled from the spec: [_pad] of [klusta.utils], which is imported by
    this module and not part of the sources at hand.  The specification has
    the loader "zero-pad on that side" a chunk that touches a boundary of
    the buffer, up to the length of the extracted chunk: rows of zeros are
    added before ([left]) or after ([right]) the rows of [arr] until there
    are [n] rows.  An array that already has [n] rows is unchanged. *)
Definition _pad (arr : ndarray2) (n : Z) (dir : direction) : ndarray2 :=
  let missing := (Z.to_nat n - shape0 arr)%nat in
  let zeros := replicate missing (replicate (shape1 arr) 0%Q) in
  match dir with
  | left => Array2 (shape1 arr) (zeros ++ rows arr)
  | right => Array2 (shape1 arr) (rows arr ++ zeros)
  end.

Record WaveformLoader : Type := {
  n_samples_trace : Z;
  n_channels_traces : option nat;   (* [None]: the attribute was never set *)
  _traces : option ndarray2;
  _scale_factor : option Q;
  _dc_offset : option Q;
  _offset : Z;
  _channels : option (list Z);
  _filter : option (ndarray2 -> result ndarray2);
  n_samples_before_after : Z * Z;
  n_samples_waveforms : Z;
  _filter_margin : Z * Z;
  _n_samples_extract : Z
}.

(** [WaveformLoader.__init__]; the [traces] setter stores the shape of the
    buffer, and nothing sets [n_channels_traces] when there is no buffer. *)
Definition WaveformLoader_init (traces : option ndarray2) (offset : Z)
    (filter : option (ndarray2 -> result ndarray2))
    (filter_margin : n_samples_arg) (n_samples : option n_samples_arg)
    (channels : option (list Z)) (scale_factor dc_offset : option Q)
  : result WaveformLoader :=
  match n_samples with
  | None => Raise ValueError
  | Some n_samples =>
      ba ← _before_after n_samples;
      fm ← _before_after filter_margin;
      mret {| n_samples_trace :=
                match traces with
                | Some value => Z.of_nat (shape0 value)
                | None => 0
                end;
              n_channels_traces := shape1 <$> traces;
              _traces := traces;
              _scale_factor := scale_factor;
              _dc_offset := dc_offset;
              _offset := offset;
              _channels := channels;
              _filter := filter;
              n_samples_before_after := ba;
              n_samples_waveforms := ba.1 + ba.2;
              _filter_margin := fm;
              _n_samples_extract := ba.1 + ba.2 + (fm.1 + fm.2) |}
  end.

Definition n_channels_waveforms (self : WaveformLoader) : result nat :=
  match _channels self with
  | Some channels => OK (length channels)
  | None =>
      match n_channels_traces self with
      | Some n => OK n
      | None => Raise AttributeError
      end
  end.

Definition _load_at (self : WaveformLoader) (time : Z) : result ndarray2 :=
  let time_o := time - _offset self in
  let ns := n_samples_trace self in
  if negb ((0 <=? time_o) && (time_o <? ns)) then Raise (InvalidTime time_o ns)
  else
    let slice_extract :=
      _slice time_o (n_samples_before_after self) (Some (_filter_margin self)) in
    match _traces self with
    | None => Raise TypeError
    | Some traces =>
        let extract :=
          slice_rows traces (Some (start slice_extract))
                     (Some (stop slice_extract)) in
        let extract :=
          if start slice_extract <=? 0
          then _pad extract (_n_samples_extract self) left
          else if stop slice_extract >=? ns - 1
          then _pad extract (_n_samples_extract self) right
          else extract in
        _ ← assert (Z.of_nat (shape0 extract) =? _n_samples_extract self);
        waveforms ← match _filter self with
                    | Some filter => filter extract
                    | None => OK extract
                    end;
        let '(margin_before, margin_after) := _filter_margin self in
        waveforms ←
          (if margin_after >? 0 then
             _ ← assert (margin_before >=? 0);
             mret (slice_rows waveforms (Some margin_before)
                              (Some (- margin_after)))
           else mret waveforms);
        out ← match _channels self with
              | Some channels => np_take_columns waveforms channels
              | None => OK waveforms
              end;
        ncw ← n_channels_waveforms self;
        _ ← assert ((Z.of_nat (shape0 out) =? n_samples_waveforms self)
                    && (shape1 out =? ncw)%nat);
        mret out
    end.

(** A batch of waveforms: a three-dimensional array of shape
    [(length slots, dim1, dim2)]. *)
Record ndarray3 : Type :=
  Array3 { dim1 : nat; dim2 : nat; slots : list (list (list Q)) }.

Definition np_zeros3 (n s c : nat) : ndarray3 :=
  Array3 s c (replicate n (replicate s (replicate c 0%Q))).

(** [np.empty((n, s, c))]: an array of that shape whose entries are
    whatever the memory holds, [garbage i j k] at position [(i, j, k)]. *)
Definition np_empty3 (garbage : nat -> nat -> nat -> Q) (n s c : nat)
  : ndarray3 :=
  Array3 s c
    (map (fun i => map (fun j => map (fun k => garbage i j k) (seq 0 c))
                       (seq 0 s))
         (seq 0 n)).

(** What can be passed to [loader[item]]. *)
Inductive item : Type :=
| ItemSlice
| ItemScalar (time : Z)
| ItemList (times : list Z).

(** The loop of [__getitem__]: slot [i] receives the waveform at [time]; a
    [ValueError] is logged and the slot is left as it is; any other
    exception leaves the loop. *)
Fixpoint load_all (self : WaveformLoader) (i : nat) (spikes : list Z)
    (waveforms : list (list (list Q))) (log : list log_record)
  : result (list (list (list Q))) * list log_record :=
  match spikes with
  | [] => (OK waveforms, log)
  | time :: spikes' =>
      match _load_at self time with
      | OK w => load_all self (S i) spikes' (<[i := rows w]> waveforms) log
      | Raise e =>
          if is_ValueError e
          then load_all self (S i) spikes' waveforms (log ++ [LoadError e])
          else (Raise e, log)
      end
  end.

(** [if x:] for an optional number: set and not zero. *)
Definition truthy (x : option Q) : bool :=
  match x with
  | Some q => negb (Qeq_bool q 0)
  | None => false
  end.

Definition map3 (f : Q -> Q) (w : list (list (list Q)))
  : list (list (list Q)) :=
  map (map (map f)) w.

Definition getitem (self : WaveformLoader)
    (garbage : nat -> nat -> nat -> Q) (item : item)
  : result ndarray3 * list log_record :=
  match item with
  | ItemSlice => (Raise NotImplementedError, [])
  | ItemScalar _ | ItemList _ =>
      let spikes := match item with
                    | ItemList times => times
                    | ItemScalar time => [time]
                    | ItemSlice => []
                    end in
      let n_spikes := length spikes in
      match n_channels_waveforms self with
      | Raise e => (Raise e, [])
      | OK ncw =>
          if n_samples_waveforms self <? 0 then (Raise ValueError, [])
          else
            let nsw := Z.to_nat (n_samples_waveforms self) in
            if n_samples_trace self =? 0
            then (OK (np_zeros3 n_spikes nsw ncw), [])
            else
              let waveforms := np_empty3 garbage n_spikes nsw ncw in
              match load_all self 0 spikes (slots waveforms) [] with
              | (Raise e, log) => (Raise e, log)
              | (OK w, log) =>
                  let w :=
                    if truthy (_dc_offset self)
                    then map3 (fun x => (x - default 0 (_dc_offset self))%Q) w
                    else w in
                  let w :=
                    if truthy (_scale_factor self)
                    then map3 (fun x => (x * default 0 (_scale_factor self))%Q) w
                    else w in
                  (OK (Array3 nsw ncw w), log)
              end
      end
  end.

(** ** Selection with spike ids

    [SpikeLoader]: [spike_samples] is a one-dimensional array of times and
    [waveforms] a [WaveformLoader]; [shape] reads [n_channels_waveforms],
    which raises when it was never set.  The [dtype] of the loader is
    always set and plays no part here. *)
Record SpikeLoader : Type := {
  _spike_samples : list Z;
  _waveforms : WaveformLoader;
  shape : nat * Z * nat
}.

Definition SpikeLoader_init (waveforms : WaveformLoader)
    (spike_samples : list Z) : result SpikeLoader :=
  ncw ← n_channels_waveforms waveforms;
  mret {| _spike_samples := spike_samples;
          _waveforms := waveforms;
          shape := (length spike_samples, n_samples_waveforms waveforms,
                    ncw) |}.

(** What can select spikes: one id, an array of ids, or a slice
    without a step. *)
Inductive spike_item : Type :=
| SpikeIndex (i : Z)
| SpikeIds (ids : list Z)
| SpikeSlice (start stop : option Z).

(** [SpikeLoader.__getitem__]: the ids select times, and the times are
    handed to the waveform loader; one id gives one time, which the
    loader wraps in a list. *)
Definition SpikeLoader_getitem (self : SpikeLoader)
    (garbage : nat -> nat -> nat -> Q) (item : spike_item)
  : result ndarray3 * list log_record :=
  match item with
  | SpikeIndex i =>
      match np_getitem (_spike_samples self) i with
      | OK time => getitem (_waveforms self) garbage (ItemScalar time)
      | Raise e => (Raise e, [])
      end
  | SpikeIds ids =>
      match np_take (_spike_samples self) ids with
      | OK times => getitem (_waveforms self) garbage (ItemList times)
      | Raise e => (Raise e, [])
      end
  | SpikeSlice start stop =>
      getitem (_waveforms self) garbage
              (ItemList (py_slice (_spike_samples self) start stop))
  end.

(** [SpikeLoader.__len__]. *)
Definition SpikeLoader_len (self : SpikeLoader) : nat :=
  length (_spike_samples self).

(** An interpolator with the failure condition of scipy's cubic
    [interp1d]: building raises [ValueError] when [x] and [y] differ in
    length along the axis and when there are fewer than four knots.  Between
    two knots it interpolates linearly; no statement below depends on the
    interpolated values. *)
Definition knot_interp : Interp1d := fun x y =>
  if negb (length x =? shape0 y)%nat then Raise ValueError
  else if (length x <? 4)%nat then Raise ValueError
  else
    OK (fun xn =>
          let x0 := default 0 (head x) in
          let k := Z.to_nat (Qfloor xn - x0) in
          let t := (xn - inject_Z (Qfloor xn))%Q in
          let lo := default [] (rows y !! k) in
          let hi := default lo (rows y !! S k) in
          zip_with (fun a b => (a + t * (b - a))%Q) lo hi).

(** ** The centroid of the specification

    The weight of the entry at relative sample [i] and channel [c] of the
    sparse waveform, and the sums over all samples of the window and all
    channels, as the specification writes them.  These definitions use
    the arithmetic of the rationals only, and none of the array operations
    of the code above. *)
Definition entry (a : ndarray2) (i c : nat) : Q :=
  default 0%Q (rows a !! i ≫= (fun row => row !! c)).

(** [w = clip((wave - weak) / (strong - weak), 0, 1) ** weight_power]. *)
Definition weight (self : WaveformExtractor) (wave : ndarray2) (i c : nat)
  : Q :=
  let tw := weak (_thresholds self) in
  let ts := strong (_thresholds self) in
  (Qmin (Qmax ((entry wave i c - tw) / (ts - tw)) 0) 1
   ^ Z.of_nat (_weight_power self))%Q.

(** The sum of [f a], [f (a + 1)], ..., [n] terms in all. *)
Fixpoint sum_from (a n : nat) (f : nat -> Q) : Q :=
  match n with
  | O => 0%Q
  | S n' => (f a + sum_from (S a) n' f)%Q
  end.

Definition sum_upto (n : nat) (f : nat -> Q) : Q := sum_from 0 n f.

Definition weighted_index_sum (self : WaveformExtractor) (wave : ndarray2)
    (n_rows : nat) : Q :=
  sum_upto n_rows (fun i =>
    sum_upto (shape1 wave) (fun c =>
      (weight self wave i c * inject_Z (Z.of_nat i))%Q)).

Definition weight_sum (self : WaveformExtractor) (wave : ndarray2)
    (n_rows : nat) : Q :=
  sum_upto n_rows (fun i => sum_upto (shape1 wave) (weight self wave i)).

(** The centroid: the sum of [w] times the relative sample index, divided
    by the sum of [w], plus the start of the window. *)
Definition centroid (self : WaveformExtractor) (wave : ndarray2)
    (comp : Bunch) : Q :=
  let n_rows := Z.to_nat (s_max comp - s_min comp) in
  (weighted_index_sum self wave n_rows / weight_sum self wave n_rows
   + inject_Z (s_min comp))%Q.

(** Equality of two values up to equality of rationals. *)
Definition np_float_eq (x y : np_float) : Prop :=
  match x, y with
  | Finite p, Finite q => p == q
  | PInf, PInf | NInf, NInf | NaN, NaN => True
  | _, _ => False
  end.

(** A component inside a trace: every sample and every channel of it is
    an index of the array. *)
Definition inside (data_t : ndarray2) (component : list (Z * Z)) : Prop :=
  Forall (fun sc => 0 <= sc.1 < Z.of_nat (shape0 data_t)
                    /\ 0 <= sc.2 < Z.of_nat (shape1 data_t)) component.

(** The peak amplitude of channel [c]: entry [c] of [peaks_values]. *)
Definition peak_amplitude (data_t wave : ndarray2) (comp : Bunch) (c : Z)
  : Q :=
  match peaks_values data_t wave comp with
  | OK pv => default 0%Q (pv !! Z.to_nat c)
  | Raise _ => 0%Q
  end.

(** The amplitude of the filtered trace on channel [c] of a component, as
    the specification speaks of it.  It is read off the trace and the
    component alone, not off what [masks] computes: the greatest filtered
    value among the crossings of the component on that channel, and zero on
    a channel where the component has no crossing. *)
Definition crossing_values (data_t : ndarray2) (component : list (Z * Z))
    (c : Z) : list Q :=
  map (fun sc => entry data_t (Z.to_nat sc.1) (Z.to_nat sc.2))
      (List.filter (fun sc => sc.2 =? c) component).

Definition trace_amplitude (data_t : ndarray2) (component : list (Z * Z))
    (c : Z) : Q :=
  match crossing_values data_t component c with
  | [] => 0%Q
  | x :: l => foldl Qmax x l
  end.

Definition in_unit_interval (v : Q) : Prop := (0 <= v /\ v <= 1)%Q.

(** A time inside the buffer, as [_load_at] tests it. *)
Definition in_range (self : WaveformLoader) (time : Z) : bool :=
  (0 <=? time - _offset self) && (time - _offset self <? n_samples_trace self).

(** What the two passes at the end of [__getitem__] do to one entry. *)
Definition post_entry (self : WaveformLoader) (x : Q) : Q :=
  let x := if truthy (_dc_offset self)
           then (x - default 0 (_dc_offset self))%Q else x in
  if truthy (_scale_factor self)
  then (x * default 0 (_scale_factor self))%Q else x.

(** The content of slot [i] of [np.empty((n, s, c))]. *)
Definition garbage_slot (garbage : nat -> nat -> nat -> Q) (s c i : nat)
  : list (list Q) :=
  map (fun j => map (fun k => garbage i j k) (seq 0 c)) (seq 0 s).

(** ** Example inputs

    A trace of eight samples on two channels of one group, and a component
    with three crossings. *)
Definition ex_extractor : WaveformExtractor :=
  WaveformExtractor_init 2 3 None (Thresholds 2 10) [(0, [0; 1])].

Definition ex_data_t : ndarray2 :=
  Array2 2 [[0; 0]; [0; 0]; [1; 0]; [12; 3]; [15; 11]; [4; 1]; [0; 0]; [0; 0]]%Q.

Definition ex_component : list (Z * Z) := [(3, 0); (4, 0); (4, 1)].

Definition ex_comp : Bunch :=
  {| comp_s := [3; 4; 4]; comp_ch := [0; 0; 1]; s_min := 0; s_max := 8;
     channels := [0; 1]; group := 0 |}.

Definition ex_wave : ndarray2 :=
  Array2 2 [[0; 0]; [0; 0]; [0; 0]; [12; 0]; [15; 11]; [0; 0]; [0; 0]; [0; 0]]%Q.

(** A loader on a buffer of three samples and one channel, with one
    sample before and one after. *)
Definition ex_loader : WaveformLoader :=
  {| n_samples_trace := 3;
     n_channels_traces := Some 1%nat;
     _traces := Some (Array2 1 [[1]; [2]; [3]]%Q);
     _scale_factor := None;
     _dc_offset := None;
     _offset := 0;
     _channels := None;
     _filter := None;
     n_samples_before_after := (1, 1);
     n_samples_waveforms := 2;
     _filter_margin := (0, 0);
     _n_samples_extract := 2 |}.

(** An extractor with two samples before and three after, and a raw
    trace of ten samples on one channel. *)
Definition ex_aligner : WaveformExtractor :=
  WaveformExtractor_init 2 3 None (Thresholds 2 10) [(0, [0])].

Definition ex_data : ndarray2 :=
  Array2 1 (map (fun k => [inject_Z k]) (seqZ 0 10)).

Definition ex_window : ndarray2 :=
  Array2 1 (map (fun k => [inject_Z k]) (seqZ 1 8)).

(** A component with one crossing, on channel 0 only. *)
Definition ex_comp_single : Bunch :=
  {| comp_s := [3]; comp_ch := [0]; s_min := 0; s_max := 7;
     channels := [0; 1]; group := 0 |}.

Definition ex_wave_single : ndarray2 :=
  Array2 2 [[0; 0]; [0; 0]; [0; 0]; [12; 0]; [0; 0]; [0; 0]; [0; 0]]%Q.

(** A component whose only crossing does not exceed the weak threshold. *)
Definition ex_comp_weak : Bunch :=
  {| comp_s := [2]; comp_ch := [0]; s_min := 0; s_max := 6;
     channels := [0; 1]; group := 0 |}.


(** The warnings of the loop of [__getitem__] on [times]: one for each
    time whose load raises, in order. *)
Definition load_errors (self : WaveformLoader) (times : list Z)
  : list log_record :=
  omap (fun t => match _load_at self t with
                 | Raise e => Some (LoadError e)
                 | OK _ => None
                 end) times.

(** A longer buffer for the loader: ten samples on one channel, with a
    window of one sample before and one after and a filter margin of one
    sample on each side. *)
Definition ex_margin_loader : WaveformLoader :=
  {| n_samples_trace := 10;
     n_channels_traces := Some 1%nat;
     _traces := Some ex_data;
     _scale_factor := None;
     _dc_offset := None;
     _offset := 0;
     _channels := None;
     _filter := None;
     n_samples_before_after := (1, 1);
     n_samples_waveforms := 2;
     _filter_margin := (1, 1);
     _n_samples_extract := 4 |}.

(** A loader whose channel subset names a channel that the buffer does
    not have. *)
Definition ex_subset_loader : WaveformLoader :=
  {| n_samples_trace := 10;
     n_channels_traces := Some 1%nat;
     _traces := Some ex_data;
     _scale_factor := None;
     _dc_offset := None;
     _offset := 0;
     _channels := Some [5];
     _filter := None;
     n_samples_before_after := (1, 1);
     n_samples_waveforms := 2;
     _filter_margin := (0, 0);
     _n_samples_extract := 2 |}.

(** The spikes of the example loader: one time inside the buffer and
    one outside. *)
Definition ex_spike_loader : SpikeLoader :=
  {| _spike_samples := [1; -5];
     _waveforms := ex_loader;
     shape := (2%nat, 2, 1%nat) |}.

(** A store with one dictionary that holds the weak threshold, and a store
    with one empty dictionary. *)
Definition ex_store : store := {[ 0%nat := {[ "weak"%string := 2%Q ]} ]}.

Definition ex_empty_store : store := {[ 0%nat := ∅ ]}.

(** ** Properties *)

Lemma bind_OK {A B : Type} (m : result A) (f : A -> result B) (b : B) :
  m ≫= f = OK b -> exists a, m = OK a /\ f a = OK b.
Proof. destruct m as [a|e]; [eauto | discriminate]. Qed.

Lemma np_index_inside (n : nat) (i : Z) :
  0 <= i < Z.of_nat n -> np_index n i = OK (Z.to_nat i).
Proof.
  intros [H0 H1]. unfold np_index.
  destruct (Z.leb_spec 0 i); [|lia].
  destruct (Z.ltb_spec i (Z.of_nat n)); [|lia]. reflexivity.
Qed.

Lemma np_index_OK (n : nat) (i : Z) (k : nat) :
  np_index n i = OK k -> (k < n)%nat.
Proof.
  unfold np_index.
  destruct (Z.leb_spec 0 i), (Z.ltb_spec i (Z.of_nat n)); simpl;
    try (intros [= <-]; lia);
    destruct (Z.leb_spec (- Z.of_nat n) i), (Z.ltb_spec i 0); simpl;
    try discriminate; intros [= <-]; lia.
Qed.

Lemma np_getitem_head {A : Type} (x : A) (l : list A) :
  np_getitem (x :: l) 0 = OK x.
Proof. reflexivity. Qed.

(** *** The padding utility *)

Lemma py_slice_inside {A : Type} (l : list A) (a b : Z) :
  0 <= a <= b -> b <= Z.of_nat (length l) ->
  py_slice l (Some a) (Some b)
  = take (Z.to_nat (b - a)) (drop (Z.to_nat a) l).
Proof.
  intros Ha Hb. unfold py_slice, slice_bound. simpl.
  destruct (Z.ltb_spec a 0); [lia|]. destruct (Z.ltb_spec b 0); [lia|].
  f_equal; [lia | f_equal; lia].
Qed.

Lemma lookup_map_seq_Z {A : Type} (f : Z -> A) (a : Z) (n k : nat) :
  (k < n)%nat ->
  map (fun j => f (a + Z.of_nat j)) (seq 0 n) !! k = Some (f (a + Z.of_nat k)).
Proof.
  intros Hk. rewrite list_lookup_fmap, lookup_seq_lt by done. reflexivity.
Qed.

(** Whenever the guard lets the call through, the bounds are ordered, the
    end is not negative and the start is not past the array, the result is
    the zero-padded range of the docstring. *)
Lemma get_padded_contract (data : ndarray2) (start end_ : Z) :
  let n := Z.of_nat (shape0 data) in
  ~ (start < 0 /\ n <= end_) ->
  start <= end_ -> 0 <= end_ -> start <= n ->
  _get_padded data start end_ = OK (padded_contract data start end_).
Proof.
  intros n Hg Hse He Hs. unfold _get_padded. fold n.
  destruct (Z.ltb_spec start 0) as [Hneg|Hpos]; simpl.
  - destruct (Z.geb_spec end_ n) as [Hge|Hlt]; [lia|]. simpl.
    unfold np_zeros2. destruct (Z.ltb_spec (- start) 0); [lia|]. simpl.
    unfold mret, result_ret, padded_contract, np_vstack, slice_rows. simpl.
    f_equal. f_equal. apply list_eq. intros k.
    destruct (decide (k < Z.to_nat (end_ - start))%nat) as [Hk|Hk].
    + rewrite (lookup_map_seq_Z (padded_row data)) by done.
      unfold padded_row. fold n.
      destruct (decide (k < Z.to_nat (- start))%nat) as [Hz|Hz].
      * rewrite lookup_app_l by (rewrite length_replicate; lia).
        rewrite lookup_replicate_2 by lia.
        destruct (Z.leb_spec 0 (start + Z.of_nat k)); [lia|]. reflexivity.
      * rewrite lookup_app_r by (rewrite length_replicate; lia).
        rewrite length_replicate.
        destruct (Z.leb_spec 0 (start + Z.of_nat k)); [|lia].
        destruct (Z.ltb_spec (start + Z.of_nat k) n); [|lia]. simpl.
        unfold py_slice, slice_bound. simpl.
        destruct (Z.ltb_spec end_ 0); [lia|].
        rewrite drop_0, lookup_take_lt by (unfold shape0 in n; lia).
        replace (Z.to_nat (start + Z.of_nat k))
          with (k - Z.to_nat (- start))%nat by lia.
        destruct (rows data !! (k - Z.to_nat (- start))%nat) eqn:E; [done|].
        apply lookup_ge_None in E. unfold shape0 in n. lia.
    + rewrite !lookup_ge_None_2; [done| |].
      * rewrite length_map, length_seq. lia.
      * rewrite length_app, length_replicate. unfold py_slice, slice_bound.
        simpl. destruct (Z.ltb_spec end_ 0); [lia|].
        rewrite length_take, length_drop. unfold shape0 in n. lia.
  - destruct (Z.gtb_spec end_ n) as [Hgt|Hle]; simpl.
    + unfold np_zeros2. destruct (Z.ltb_spec (end_ - n) 0); [lia|]. simpl.
      unfold mret, result_ret, padded_contract, np_vstack, slice_rows. simpl.
      f_equal. f_equal. apply list_eq. intros k.
      unfold py_slice, slice_bound. simpl.
      destruct (Z.ltb_spec start 0); [lia|].
      rewrite Nat.sub_0_r || idtac.
      destruct (decide (k < Z.to_nat (end_ - start))%nat) as [Hk|Hk].
      * rewrite (lookup_map_seq_Z (padded_row data)) by done.
        unfold padded_row. fold n.
        destruct (Z.leb_spec 0 (start + Z.of_nat k)); [|lia].
        destruct (Z.ltb_spec (start + Z.of_nat k) n) as [Hin|Hout]; simpl.
        -- rewrite lookup_app_l
             by (rewrite length_take, length_drop; unfold shape0 in n; lia).
           rewrite lookup_take_lt by (unfold shape0 in n; lia).
           rewrite lookup_drop.
           replace (Z.to_nat (Z.min start (Z.of_nat (length (rows data)))) + k)%nat
             with (Z.to_nat (start + Z.of_nat k)) by (unfold shape0 in n; lia).
           destruct (rows data !! Z.to_nat (start + Z.of_nat k)) eqn:E; [done|].
           apply lookup_ge_None in E. unfold shape0 in n. lia.
        -- rewrite lookup_app_r
             by (rewrite length_take, length_drop; unfold shape0 in n; lia).
           rewrite lookup_replicate_2; [done|].
           rewrite length_take, length_drop. unfold shape0 in n. lia.
      * rewrite !lookup_ge_None_2; [done| |].
        -- rewrite length_map, length_seq. lia.
        -- rewrite length_app, length_replicate, length_take, length_drop.
           unfold shape0 in n. lia.
    + unfold mret, result_ret, padded_contract, slice_rows. simpl.
      f_equal. f_equal. rewrite py_slice_inside by (unfold shape0 in n; lia).
      apply list_eq. intros k.
      destruct (decide (k < Z.to_nat (end_ - start))%nat) as [Hk|Hk].
      * rewrite (lookup_map_seq_Z (padded_row data)) by done.
        unfold padded_row. fold n.
        destruct (Z.leb_spec 0 (start + Z.of_nat k)); [|lia].
        destruct (Z.ltb_spec (start + Z.of_nat k) n); [|lia]. simpl.
        rewrite lookup_take_lt by lia. rewrite lookup_drop.
        replace (Z.to_nat start + k)%nat
          with (Z.to_nat (start + Z.of_nat k)) by lia.
        destruct (rows data !! Z.to_nat (start + Z.of_nat k)) eqn:E; [done|].
        apply lookup_ge_None in E. unfold shape0 in n. lia.
      * rewrite !lookup_ge_None_2; [done| |].
        -- rewrite length_map, length_seq. lia.
        -- rewrite length_take. lia.
Qed.

(** C6.  The padding utility is meant to return [data[start:end]] filled in
    with zeros whenever at most one of the two bounds is outside the array.
    With a negative start and an end equal to the length of the array only
    the start is outside, and the zero-padded range is well defined, yet the
    guard [end >= data.shape[0]] raises the internal consistency error. *)
Theorem get_padded_raises_at_end_of_array :
  let data := Array2 1 [[1]; [2]; [3]]%Q in
  (-1 < 0 /\ ~ (3 > Z.of_nat (shape0 data)))
  /\ _get_padded data (-1) 3 = Raise RuntimeError
  /\ rows (padded_contract data (-1) 3) = [[0]; [1]; [2]; [3]]%Q.
Proof. repeat split; vm_compute; congruence. Qed.

(** The same holds for every array and every negative start: an end equal
    to the length of the array is refused. *)
Lemma get_padded_guard_at_length (data : ndarray2) (start : Z) :
  start < 0 ->
  _get_padded data start (Z.of_nat (shape0 data)) = Raise RuntimeError.
Proof.
  intros Hs. unfold _get_padded.
  destruct (Z.ltb_spec start 0); [|lia].
  destruct (Z.geb_spec (Z.of_nat (shape0 data)) (Z.of_nat (shape0 data)));
    [reflexivity | lia].
Qed.

(** *** Resolving a component *)

Lemma foldl_min_spec (x : Z) (l : list Z) :
  foldl Z.min x l ∈ x :: l /\ forall y, y ∈ x :: l -> foldl Z.min x l <= y.
Proof.
  revert x. induction l as [|a l IH]; intros x; simpl.
  - split; [set_solver|]. intros y Hy. apply list_elem_of_singleton in Hy. lia.
  - destruct (IH (Z.min x a)) as [Hin Hle]. split.
    + apply elem_of_cons in Hin as [Hin|Hin]; [|set_solver].
      rewrite Hin. destruct (Z.min_spec x a) as [[_ ->]|[_ ->]]; set_solver.
    + intros y Hy.
      assert (foldl Z.min (Z.min x a) l <= Z.min x a) by (apply Hle; set_solver).
      apply elem_of_cons in Hy as [->|Hy]; [lia|].
      apply elem_of_cons in Hy as [->|Hy]; [lia|].
      apply Hle. set_solver.
Qed.

Lemma foldl_max_spec (x : Z) (l : list Z) :
  foldl Z.max x l ∈ x :: l /\ forall y, y ∈ x :: l -> y <= foldl Z.max x l.
Proof.
  revert x. induction l as [|a l IH]; intros x; simpl.
  - split; [set_solver|]. intros y Hy. apply list_elem_of_singleton in Hy. lia.
  - destruct (IH (Z.max x a)) as [Hin Hle]. split.
    + apply elem_of_cons in Hin as [Hin|Hin]; [|set_solver].
      rewrite Hin. destruct (Z.max_spec x a) as [[_ ->]|[_ ->]]; set_solver.
    + intros y Hy.
      assert (Z.max x a <= foldl Z.max (Z.max x a) l) by (apply Hle; set_solver).
      apply elem_of_cons in Hy as [->|Hy]; [lia|].
      apply elem_of_cons in Hy as [->|Hy]; [lia|].
      apply Hle. set_solver.
Qed.

(** The dictionaries built by the constructor. *)
Lemma insert_all_lookup {V : Type} (v : V) (chs : list Z) (d : gmap Z V)
    (ch : Z) :
  foldl (fun d' i => <[i := v]> d') d chs !! ch
  = if decide (ch ∈ chs) then Some v else d !! ch.
Proof.
  revert d. induction chs as [|i chs IH]; intros d; simpl.
  - destruct (decide (ch ∈ [])) as [H|H]; [inversion H | done].
  - rewrite IH. destruct (decide (ch ∈ chs)) as [H|H].
    + rewrite decide_True by set_solver. done.
    + destruct (decide (ch = i)) as [->|Hne].
      * rewrite lookup_insert_eq, decide_True by set_solver. done.
      * rewrite lookup_insert_ne by done.
        rewrite decide_False by set_solver. done.
Qed.

Lemma dep_channels_lookup_None (cpg : list (Z * list Z)) (d : gmap Z (list Z))
    (ch : Z) :
  foldl (fun d gc => foldl (fun d' i => <[i := gc.2]> d') d gc.2) d cpg !! ch
  = None
  <-> d !! ch = None /\ forall gc, gc ∈ cpg -> ch ∉ gc.2.
Proof.
  revert d. induction cpg as [|gc cpg IH]; intros d; simpl.
  - split; [intros H; split; [done | set_solver] | tauto].
  - rewrite IH, insert_all_lookup. destruct (decide (ch ∈ gc.2)) as [H|H].
    + split; [intros [? _]; discriminate|].
      intros [_ Hn]. exfalso. apply (Hn gc); set_solver.
    + split; intros [Hd Hn]; (split; [done|]).
      * intros gc' Hin. apply elem_of_cons in Hin as [->|Hin]; auto.
      * intros gc' Hin. apply Hn. set_solver.
Qed.

Lemma channel_groups_lookup_None (cpg : list (Z * list Z)) (d : gmap Z Z)
    (ch : Z) :
  foldl (fun d gc => foldl (fun d' i => <[i := gc.1]> d') d gc.2) d cpg !! ch
  = None
  <-> d !! ch = None /\ forall gc, gc ∈ cpg -> ch ∉ gc.2.
Proof.
  revert d. induction cpg as [|gc cpg IH]; intros d; simpl.
  - split; [intros H; split; [done | set_solver] | tauto].
  - rewrite IH, insert_all_lookup. destruct (decide (ch ∈ gc.2)) as [H|H].
    + split; [intros [? _]; discriminate|].
      intros [_ Hn]. exfalso. apply (Hn gc); set_solver.
    + split; intros [Hd Hn]; (split; [done|]).
      * intros gc' Hin. apply elem_of_cons in Hin as [->|Hin]; auto.
      * intros gc' Hin. apply Hn. set_solver.
Qed.

Lemma dead_channel_iff (cpg : list (Z * list Z)) (ch : Z) :
  dep_channels_of cpg !! ch = None <-> forall gc, gc ∈ cpg -> ch ∉ gc.2.
Proof.
  unfold dep_channels_of. rewrite dep_channels_lookup_None.
  rewrite lookup_empty. tauto.
Qed.

Lemma no_group_iff (cpg : list (Z * list Z)) (ch : Z) :
  channel_groups_of cpg !! ch = None <-> forall gc, gc ∈ cpg -> ch ∉ gc.2.
Proof.
  unfold channel_groups_of. rewrite channel_groups_lookup_None.
  rewrite lookup_empty. tauto.
Qed.

#[local] Ltac unfold_ret := unfold mret, result_ret in *.

(** C5.  For a component whose samples lie in [[0, n_samples)] (and whose
    first channel belongs to a group, so that resolving reaches the window),
    the window is [s_min = max(lo - 3, 0)] and [s_max = min(hi + 4,
    n_samples)] for the least and the greatest sample [lo] and [hi] of the
    component, and [s_min < s_max]: the assertion does not fail. *)
Theorem component_window (eb ea : Z) (wp : option nat) (th : thresholds)
    (cpg : list (Z * list Z)) (component : list (Z * Z)) (n_samples : Z)
    (s0 ch0 : Z) (rest : list (Z * Z)) :
  component = (s0, ch0) :: rest ->
  (forall s, s ∈ component.*1 -> 0 <= s < n_samples) ->
  (exists gc, gc ∈ cpg /\ ch0 ∈ gc.2) ->
  exists comp lo hi,
    _component (WaveformExtractor_init eb ea wp th cpg) component n_samples
    = OK comp
    /\ (lo ∈ component.*1 /\ forall s, s ∈ component.*1 -> lo <= s)
    /\ (hi ∈ component.*1 /\ forall s, s ∈ component.*1 -> s <= hi)
    /\ s_min comp = Z.max (lo - 3) 0
    /\ s_max comp = Z.min (hi + 4) n_samples
    /\ s_min comp < s_max comp.
Proof.
  intros -> Hin [gc [Hgc Hch]].
  destruct (dep_channels_of cpg !! ch0) as [chs|] eqn:Edep.
  2:{ exfalso. exact (proj1 (dead_channel_iff cpg ch0) Edep gc Hgc Hch). }
  destruct (channel_groups_of cpg !! ch0) as [g|] eqn:Egrp.
  2:{ exfalso. exact (proj1 (no_group_iff cpg ch0) Egrp gc Hgc Hch). }
  simpl in Hin.
  destruct (foldl_min_spec s0 rest.*1) as [Hlo1 Hlo2].
  destruct (foldl_max_spec s0 rest.*1) as [Hhi1 Hhi2].
  assert (Hlohi : foldl Z.min s0 rest.*1 <= foldl Z.max s0 rest.*1)
    by (apply Hlo2, Hhi1).
  pose proof (Hin _ Hlo1) as Hlo. pose proof (Hin _ Hhi1) as Hhi.
  assert (Hlt : Z.max (foldl Z.min s0 rest.*1 - 3) 0
                < Z.min (foldl Z.max s0 rest.*1 + 4) n_samples) by lia.
  eexists _, (foldl Z.min s0 rest.*1), (foldl Z.max s0 rest.*1).
  split; [|split; [|split; [|split; [|split]]]].
  - unfold _component. cbv zeta. rewrite !fmap_cons. cbn [fst snd].
    rewrite np_getitem_head.
    cbn [mbind result_bind _dep_channels _channel_groups
         WaveformExtractor_init].
    rewrite Edep, Egrp. cbn [np_min np_max mbind result_bind].
    apply Z.ltb_lt in Hlt. rewrite Hlt. reflexivity.
  - split; [exact Hlo1 | exact Hlo2].
  - split; [exact Hhi1 | exact Hhi2].
  - reflexivity.
  - reflexivity.
  - cbn [s_min s_max]. lia.
Qed.

Lemma component_window_witness :
  exists comp lo hi,
    _component (WaveformExtractor_init 2 3 None (Thresholds 2 10) [(0, [0; 1])])
               [(100, 0); (101, 0); (102, 1)] 1000
    = OK comp
    /\ (lo ∈ [(100, 0); (101, 0); (102, 1)].*1
        /\ forall s, s ∈ [(100, 0); (101, 0); (102, 1)].*1 -> lo <= s)
    /\ (hi ∈ [(100, 0); (101, 0); (102, 1)].*1
        /\ forall s, s ∈ [(100, 0); (101, 0); (102, 1)].*1 -> s <= hi)
    /\ s_min comp = Z.max (lo - 3) 0
    /\ s_max comp = Z.min (hi + 4) 1000
    /\ s_min comp < s_max comp.
Proof.
  apply (component_window 2 3 None (Thresholds 2 10) [(0, [0; 1])]
           [(100, 0); (101, 0); (102, 1)] 1000 100 0 [(101, 0); (102, 1)]).
  - reflexivity.
  - simpl. intros s Hs. repeat (apply elem_of_cons in Hs as [->|Hs]; [lia|]).
    inversion Hs.
  - exists (0, [0; 1]). split; [left | left].
Defined.

(** C4, as the code has it.  Resolving a component whose first pair has a
    channel that belongs to no group fails with the dead-channel error. *)
Theorem dead_first_channel (eb ea : Z) (wp : option nat) (th : thresholds)
    (cpg : list (Z * list Z)) (s0 ch0 : Z) (rest : list (Z * Z))
    (n_samples : Z) :
  (forall gc, gc ∈ cpg -> ch0 ∉ gc.2) ->
  _component (WaveformExtractor_init eb ea wp th cpg) ((s0, ch0) :: rest)
             n_samples
  = Raise (DeadChannel ch0).
Proof.
  intros Hdead. apply dead_channel_iff in Hdead.
  unfold _component. cbv zeta. rewrite !fmap_cons. cbn [fst snd].
  rewrite np_getitem_head.
  cbn [mbind result_bind _dep_channels WaveformExtractor_init].
  rewrite Hdead. reflexivity.
Qed.

Lemma dead_first_channel_witness :
  _component (WaveformExtractor_init 2 3 None (Thresholds 2 10) [(0, [0; 1])])
             [(5, 7); (5, 0)] 10
  = Raise (DeadChannel 7).
Proof.
  apply dead_first_channel. intros gc Hgc.
  apply list_elem_of_singleton in Hgc as ->. simpl.
  intros H. repeat (apply elem_of_cons in H as [H|H]; [discriminate|]).
  inversion H.
Defined.

(** A dead channel that is not the first of the component goes unnoticed:
    channel 7 belongs to no group, and the component is resolved. *)
Lemma dead_later_channel_resolved :
  let cpg := [(0, [0; 1])] in
  let component := [(5, 0); (5, 7)] in
  (5, 7) ∈ component
  /\ (forall gc, gc ∈ cpg -> 7 ∉ gc.2)
  /\ _component (WaveformExtractor_init 2 3 None (Thresholds 2 10) cpg)
                component 10
     = OK {| comp_s := [5; 5]; comp_ch := [0; 7]; s_min := 2; s_max := 9;
             channels := [0; 1]; group := 0 |}.
Proof.
  split; [right; left|]. split.
  - intros gc Hgc. apply list_elem_of_singleton in Hgc as ->. simpl.
    intros H. repeat (apply elem_of_cons in H as [H|H]; [discriminate|]).
    inversion H.
  - vm_compute. reflexivity.
Qed.

(** *** Arrays *)

Lemma rect_lookup (a : ndarray2) (i : nat) (row : list Q) :
  rect a -> rows a !! i = Some row -> length row = shape1 a.
Proof.
  intros Hr Hi. unfold rect in Hr. rewrite Forall_forall in Hr.
  apply Hr. eapply list_elem_of_lookup_2. exact Hi.
Qed.

Lemma np_get2_inside (a : ndarray2) (i j : Z) :
  rect a -> 0 <= i < Z.of_nat (shape0 a) -> 0 <= j < Z.of_nat (shape1 a) ->
  np_get2 a i j = OK (entry a (Z.to_nat i) (Z.to_nat j)).
Proof.
  intros Hr Hi Hj. unfold np_get2, entry.
  rewrite !np_index_inside by done. cbn [mbind result_bind].
  destruct (rows a !! Z.to_nat i) as [row|] eqn:Erow.
  2:{ apply lookup_ge_None in Erow. unfold shape0 in Hi. lia. }
  cbn [mbind option_bind].
  destruct (row !! Z.to_nat j) as [v|] eqn:Ev; [reflexivity|].
  apply lookup_ge_None in Ev. rewrite (rect_lookup a _ _ Hr Erow) in Ev. lia.
Qed.

Lemma np_gather2_inside (a : ndarray2) (ij : list (Z * Z)) :
  rect a -> inside a ij ->
  np_gather2 a ij
  = OK (map (fun sc => entry a (Z.to_nat sc.1) (Z.to_nat sc.2)) ij).
Proof.
  intros Hr Hin. induction Hin as [|[i j] ij [Hi Hj] _ IH]; [reflexivity|].
  cbn [np_gather2]. rewrite np_get2_inside by done.
  cbn [mbind result_bind]. rewrite IH. reflexivity.
Qed.

Lemma np_set2_shape (a a' : ndarray2) (i j : Z) (v : Q) :
  np_set2 a i j v = OK a' ->
  shape1 a' = shape1 a /\ shape0 a' = shape0 a /\ (rect a -> rect a').
Proof.
  unfold np_set2. intros H.
  apply bind_OK in H as [r [Hr H]]. apply bind_OK in H as [c [Hc H]].
  injection H as <-. cbn [shape1 rows shape0].
  split; [reflexivity|]. split; [unfold shape0; cbn; apply length_alter|].
  unfold rect. cbn [shape1 rows]. intros Hrect.
  rewrite Forall_forall in *. intros row Hrow.
  apply list_elem_of_lookup in Hrow as [k Hk].
  destruct (decide (k = r)) as [->|Hne].
  - rewrite list_lookup_alter_eq in Hk.
    destruct (rows a !! r) as [row0|] eqn:E; [|discriminate].
    injection Hk as <-. rewrite length_insert.
    apply Hrect. eapply list_elem_of_lookup_2. exact E.
  - rewrite list_lookup_alter_ne in Hk by done.
    apply Hrect. eapply list_elem_of_lookup_2. exact Hk.
Qed.

Lemma np_scatter2_shape (ij : list (Z * Z)) (vs : list Q) (a a' : ndarray2) :
  np_scatter2 a ij vs = OK a' ->
  shape1 a' = shape1 a /\ shape0 a' = shape0 a /\ (rect a -> rect a').
Proof.
  revert vs a. induction ij as [|[i j] ij IH]; intros vs a H.
  - cbn in H. injection H as <-. tauto.
  - destruct vs as [|v vs]; [cbn in H; injection H as <-; tauto|].
    cbn [np_scatter2] in H. apply bind_OK in H as [a1 [H1 H]].
    apply np_set2_shape in H1 as (Hs1 & Hs0 & Hr).
    apply IH in H as (Hs1' & Hs0' & Hr').
    split; [congruence|]. split; [congruence|]. auto.
Qed.

Lemma np_scatter2_inside (ij : list (Z * Z)) (vs : list Q) (a : ndarray2) :
  inside a ij -> exists a', np_scatter2 a ij vs = OK a'.
Proof.
  revert vs a. induction ij as [|[i j] ij IH]; intros vs a Hin.
  - eexists. reflexivity.
  - destruct vs as [|v vs]; [eexists; reflexivity|].
    inversion Hin as [|? ? [Hi Hj] Hin']; subst. cbn [fst snd] in *.
    cbn [np_scatter2]. unfold np_set2 at 1.
    rewrite !np_index_inside by done. cbn [mbind result_bind].
    unfold_ret. apply IH. unfold inside, shape0 in *. cbn [rows shape1].
    rewrite length_alter. exact Hin'.
Qed.

(** *** What a resolved component looks like *)

Lemma component_inv (self : WaveformExtractor) (component : list (Z * Z))
    (n_samples : Z) (comp : Bunch) :
  _component self component n_samples = OK comp ->
  comp_s comp = component.*1
  /\ comp_ch comp = component.*2
  /\ 0 <= s_min comp /\ s_min comp < s_max comp /\ s_max comp <= n_samples
  /\ (forall s, s ∈ component.*1 -> 0 <= s < n_samples ->
                s_min comp <= s < s_max comp)
  /\ (exists ch, head component.*2 = Some ch
                 /\ _dep_channels self !! ch = Some (channels comp)).
Proof.
  destruct component as [|[s0 ch0] rest]; [discriminate|].
  unfold _component. cbv zeta. rewrite !fmap_cons. cbn [fst snd].
  rewrite np_getitem_head. cbn [mbind result_bind].
  destruct (_dep_channels self !! ch0) as [chs|] eqn:Edep; [|discriminate].
  destruct (_channel_groups self !! ch0) as [g|]; [|discriminate].
  cbn [np_min np_max mbind result_bind].
  destruct (foldl_min_spec s0 rest.*1) as [Hlo1 Hlo2].
  destruct (foldl_max_spec s0 rest.*1) as [Hhi1 Hhi2].
  destruct (Z.ltb_spec (Z.max (foldl Z.min s0 rest.*1 - 3) 0)
                       (Z.min (foldl Z.max s0 rest.*1 + 4) n_samples))
    as [Hlt|Hge]; [|discriminate].
  cbn [assert mbind result_bind]. unfold_ret. intros [= <-].
  cbn [comp_s comp_ch s_min s_max channels].
  repeat split; try reflexivity; try lia.
  - specialize (Hlo2 s H). lia.
  - specialize (Hhi2 s H). lia.
  - exists ch0. split; [reflexivity | exact Edep].
Qed.

Lemma inside_window (self : WaveformExtractor) (component : list (Z * Z))
    (data_t : ndarray2) (comp : Bunch) :
  _component self component (Z.of_nat (shape0 data_t)) = OK comp ->
  inside data_t component ->
  Forall (fun sc => 0 <= sc.1 - s_min comp < s_max comp - s_min comp
                    /\ 0 <= sc.2 < Z.of_nat (shape1 data_t)) component.
Proof.
  intros Hc Hin. apply component_inv in Hc as (_ & _ & _ & _ & _ & Hw & _).
  unfold inside in Hin. rewrite Forall_forall in *. intros [s c] Hsc.
  destruct (Hin _ Hsc) as [Hs Hch]. cbn [fst snd] in *.
  assert (s ∈ component.*1) as Hs1.
  { apply list_elem_of_fmap. exists (s, c). split; [reflexivity | exact Hsc]. }
  specialize (Hw s Hs1 Hs). lia.
Qed.

(** A resolved component inside the trace has a sparse waveform: one row
    for each sample of the window, one column for each channel. *)
Lemma comp_wave_returns (self : WaveformExtractor) (component : list (Z * Z))
    (data_t : ndarray2) (comp : Bunch) :
  rect data_t ->
  _component self component (Z.of_nat (shape0 data_t)) = OK comp ->
  inside data_t component ->
  exists wave,
    _comp_wave data_t comp = OK wave
    /\ shape1 wave = shape1 data_t
    /\ shape0 wave = Z.to_nat (s_max comp - s_min comp)
    /\ rect wave.
Proof.
  intros Hr Hc Hin. pose proof (inside_window _ _ _ _ Hc Hin) as Hwin.
  pose proof (component_inv _ _ _ _ Hc) as (Hs & Hch & H0 & Hlt & Hmax & _).
  unfold _comp_wave. unfold np_zeros2.
  destruct (Z.ltb_spec (s_max comp - s_min comp) 0); [lia|].
  cbn [mbind result_bind]. rewrite Hs, Hch, zip_fst_snd.
  rewrite np_gather2_inside by done. cbn [mbind result_bind].
  set (zeros := Array2 (shape1 data_t)
                  (replicate (Z.to_nat (s_max comp - s_min comp))
                             (replicate (shape1 data_t) 0%Q))).
  set (idx := zip _ _).
  assert (Hz0 : shape0 zeros = Z.to_nat (s_max comp - s_min comp))
    by (unfold shape0, zeros; cbn; apply length_replicate).
  assert (Hzr : rect zeros).
  { unfold rect, zeros. cbn. apply Forall_replicate, length_replicate. }
  assert (Hidx : inside zeros idx).
  { unfold inside, idx. rewrite Hz0. cbn [shape1 zeros].
    rewrite Forall_forall in *. intros [s c] Hsc.
    apply list_elem_of_lookup in Hsc as [k Hk].
    apply lookup_zip_with_Some in Hk as (s' & c' & Heq & Hs' & Hc').
    injection Heq as -> ->.
    rewrite list_lookup_fmap in Hs'.
    destruct (component.*1 !! k) as [s0|] eqn:Es0; [|discriminate].
    injection Hs' as <-. cbn [fst snd].
    assert ((s0, c') ∈ component) as Hmem.
    { apply list_elem_of_lookup. exists k.
      rewrite list_lookup_fmap in Es0, Hc'.
      destruct (component !! k) as [[a b]|]; [|discriminate].
      cbn in Es0, Hc'. congruence. }
    specialize (Hwin _ Hmem). cbn [fst snd] in Hwin. lia. }
  destruct (np_scatter2_inside idx
              (map (fun sc => entry data_t (Z.to_nat sc.1) (Z.to_nat sc.2))
                   component) zeros Hidx) as [wave Hwave].
  exists wave. split; [exact Hwave|].
  apply np_scatter2_shape in Hwave as (H1 & H2 & H3).
  split; [rewrite H1; reflexivity|]. split; [congruence | auto].
Qed.

(** *** Normalization *)

Lemma np_clip_unit (x : Q) : in_unit_interval (np_clip x 0 1).
Proof.
  unfold in_unit_interval, np_clip. split.
  - apply Q.min_glb; [apply Q.le_max_r | lra].
  - apply Q.le_min_r.
Qed.

Lemma normalize_entry_unit (th : thresholds) (x : Q) :
  in_unit_interval (normalize_entry th x).
Proof. apply np_clip_unit. Qed.

Lemma np_clip_above (x : Q) : (1 <= x)%Q -> np_clip x 0 1 == 1.
Proof.
  intros Hx. unfold np_clip.
  rewrite (Q.max_l x 0) by lra. apply Q.min_r. exact Hx.
Qed.

Lemma np_clip_below (x : Q) : (x <= 0)%Q -> np_clip x 0 1 == 0.
Proof.
  intros Hx. unfold np_clip.
  rewrite (Q.max_r x 0) by lra. apply Q.min_l. lra.
Qed.

Lemma np_clip_pos (x : Q) : (0 < x)%Q -> (0 < np_clip x 0 1)%Q.
Proof.
  intros Hx. unfold np_clip.
  destruct (Q.min_spec (Qmax x 0) 1) as [[_ ->]|[_ ->]]; [|lra].
  pose proof (Q.le_max_l x 0). lra.
Qed.

Lemma ratio_ge_1 (x tw ts : Q) :
  (tw < ts)%Q -> (ts <= x)%Q -> (1 <= (x - tw) / (ts - tw))%Q.
Proof.
  intros Hth Hx. apply Qle_shift_div_l; lra.
Qed.

Lemma ratio_le_0 (x tw ts : Q) :
  (tw < ts)%Q -> (x <= tw)%Q -> ((x - tw) / (ts - tw) <= 0)%Q.
Proof.
  intros Hth Hx. apply Qle_shift_div_r; lra.
Qed.

Lemma ratio_pos (x tw ts : Q) :
  (tw < ts)%Q -> (tw < x)%Q -> (0 < (x - tw) / (ts - tw))%Q.
Proof.
  intros Hth Hx. apply Qlt_shift_div_l; lra.
Qed.

(** At or above the strong threshold the normalized amplitude is one; at or
    below the weak threshold it is zero. *)
Lemma normalize_entry_strong (th : thresholds) (x : Q) :
  (weak th < strong th)%Q -> (strong th <= x)%Q -> normalize_entry th x == 1.
Proof. intros Hth Hx. apply np_clip_above, ratio_ge_1; assumption. Qed.

Lemma normalize_entry_weak (th : thresholds) (x : Q) :
  (weak th < strong th)%Q -> (x <= weak th)%Q -> normalize_entry th x == 0.
Proof. intros Hth Hx. apply np_clip_below, ratio_le_0; assumption. Qed.

Lemma normalize_entry_pos (th : thresholds) (x : Q) :
  (weak th < strong th)%Q -> (weak th < x)%Q -> (0 < normalize_entry th x)%Q.
Proof. intros Hth Hx. apply np_clip_pos, ratio_pos; assumption. Qed.

(** *** Indexing with a list of indices *)

Lemma np_take_inside {A : Type} (d : A) (l : list A) (idx : list Z) :
  Forall (fun i => 0 <= i < Z.of_nat (length l)) idx ->
  np_take l idx = OK (map (fun i => default d (l !! Z.to_nat i)) idx).
Proof.
  induction 1 as [|i idx Hi _ IH]; [reflexivity|].
  cbn [np_take]. unfold np_getitem. rewrite np_index_inside by done.
  cbn [mbind result_bind].
  destruct (l !! Z.to_nat i) as [x|] eqn:E.
  2:{ apply lookup_ge_None in E. lia. }
  cbn [mbind result_bind]. rewrite IH. cbn [mbind result_bind map].
  rewrite E. reflexivity.
Qed.

Lemma np_take_elements {A : Type} (l : list A) (idx : list Z) (xs : list A) :
  np_take l idx = OK xs -> length xs = length idx /\ Forall (fun x => x ∈ l) xs.
Proof.
  revert xs. induction idx as [|i idx IH]; intros xs H.
  - injection H as <-. split; [reflexivity | constructor].
  - cbn [np_take] in H. apply bind_OK in H as [x [Hx H]].
    apply bind_OK in H as [xs' [Hxs H]]. injection H as <-.
    destruct (IH _ Hxs) as [Hlen Hall]. split; [cbn; lia|].
    constructor; [|exact Hall].
    unfold np_getitem in Hx. apply bind_OK in Hx as [k [_ Hk]].
    destruct (l !! k) eqn:E; [|discriminate]. injection Hk as <-.
    eapply list_elem_of_lookup_2. exact E.
Qed.

(** *** The binary mask and the peaks *)

Lemma np_set_true_spec (idx : list Z) (b : list bool) :
  Forall (fun i => 0 <= i < Z.of_nat (length b)) idx ->
  exists b',
    np_set_true b idx = OK b'
    /\ length b' = length b
    /\ forall k, b' !! k = Some true
                 <-> b !! k = Some true
                     \/ ((k < length b)%nat /\ Z.of_nat k ∈ idx).
Proof.
  revert b. induction idx as [|i idx IH]; intros b Hall.
  - exists b. split; [reflexivity|]. split; [reflexivity|].
    intros k. split; [auto|]. intros [H|[_ H]]; [exact H | inversion H].
  - inversion Hall as [|? ? Hi Hall']; subst.
    cbn [np_set_true]. rewrite np_index_inside by done.
    cbn [mbind result_bind].
    destruct (IH (<[Z.to_nat i := true]> b)) as (b' & Hb' & Hlen & Hspec).
    { rewrite length_insert. exact Hall'. }
    exists b'. split; [exact Hb'|]. rewrite length_insert in Hlen.
    split; [exact Hlen|]. intros k. rewrite Hspec, length_insert.
    destruct (decide (k = Z.to_nat i)) as [->|Hne].
    + rewrite list_lookup_insert_eq by lia. split.
      * intros _. right. split; [lia|]. rewrite Z2Nat.id by lia. left.
      * intros _. left. reflexivity.
    + rewrite list_lookup_insert_ne by done. split.
      * intros [H|[Hk H]]; [left; exact H | right; split; [exact Hk|]].
        right. exact H.
      * intros [H|[Hk H]]; [left; exact H | right; split; [exact Hk|]].
        apply elem_of_cons in H as [H|H]; [lia | exact H].
Qed.

Lemma elem_of_np_unique (l : list Z) (x : Z) : x ∈ np_unique l <-> x ∈ l.
Proof.
  unfold np_unique. rewrite merge_sort_Permutation. apply elem_of_remove_dups.
Qed.

Lemma argmax_from_bound (l : list Q) (i : nat) (best : Q) (besti : nat) :
  (besti < i)%nat -> (argmax_from l i best besti < i + length l)%nat.
Proof.
  revert i best besti. induction l as [|x l IH]; intros i best besti Hlt.
  - cbn. lia.
  - cbn [argmax_from length]. destruct (Qltb best x).
    + specialize (IH (S i) x i). lia.
    + specialize (IH (S i) best besti). lia.
Qed.

Lemma np_argmax_bound (l : list Q) :
  l <> [] -> exists p, np_argmax l = OK p /\ (p < length l)%nat.
Proof.
  destruct l as [|x l]; [congruence|]. intros _. eexists. split; [reflexivity|].
  pose proof (argmax_from_bound l 1 x 0). cbn [length]. lia.
Qed.

Lemma np_argmax0_cols_bound (a : ndarray2) (js : list nat) :
  (0 < shape0 a)%nat ->
  exists ps,
    np_argmax0_cols a js = OK ps
    /\ length ps = length js
    /\ Forall (fun p => (p < shape0 a)%nat) ps.
Proof.
  intros Hpos. induction js as [|j js (ps & Hps & Hlen & Hall)].
  - exists []. split; [reflexivity|]. split; [reflexivity | constructor].
  - destruct (np_argmax_bound (column a j)) as (p & Hp & Hlt).
    { unfold column, shape0 in *. destruct (rows a); [cbn in Hpos; lia|].
      discriminate. }
    exists (p :: ps). cbn [np_argmax0_cols]. rewrite Hp.
    cbn [mbind result_bind]. rewrite Hps. split; [reflexivity|].
    split; [cbn; lia|]. constructor; [|exact Hall].
    unfold column in Hlt. rewrite length_map in Hlt. exact Hlt.
Qed.

Lemma peaks_values_returns (data_t wave : ndarray2) (comp : Bunch) :
  rect data_t ->
  (0 < shape0 wave)%nat ->
  shape1 wave = shape1 data_t ->
  0 <= s_min comp ->
  s_min comp + Z.of_nat (shape0 wave) <= Z.of_nat (shape0 data_t) ->
  Forall (fun c => 0 <= c < Z.of_nat (shape1 data_t)) (comp_ch comp) ->
  exists pv bin ps,
    peaks_values data_t wave comp = OK pv
    /\ length pv = shape1 data_t
    /\ np_set_true (replicate (shape1 data_t) false) (np_unique (comp_ch comp))
       = OK bin
    /\ length bin = shape1 data_t
    /\ np_argmax0 wave = OK ps
    /\ length ps = shape1 data_t
    /\ Forall (fun p => (p < shape0 wave)%nat) ps
    /\ forall c p b,
         ps !! c = Some p -> bin !! c = Some b ->
         pv !! c
         = Some (entry data_t (Z.to_nat (Z.of_nat p + s_min comp)) c
                 * bool_to_Q b)%Q.
Proof.
  intros Hr Hpos Hw Hs0 Hs1 Hch.
  destruct (np_set_true_spec (np_unique (comp_ch comp))
              (replicate (shape1 data_t) false)) as (bin & Hbin & Hblen & _).
  { rewrite length_replicate. rewrite Forall_forall in *. intros c Hc.
    apply Hch, elem_of_np_unique, Hc. }
  rewrite length_replicate in Hblen.
  destruct (np_argmax0_cols_bound wave (seq 0 (shape1 wave)) Hpos)
    as (ps & Hps & Hplen & Hpall).
  rewrite length_seq, Hw in Hplen.
  set (peaks := map (fun p => Z.of_nat p + s_min comp) ps).
  set (ij := zip peaks (map Z.of_nat (seq 0 (shape1 data_t)))).
  assert (Hij : inside data_t ij).
  { unfold inside, ij. rewrite Forall_forall. intros [i j] Hin.
    apply list_elem_of_lookup in Hin as [k Hk].
    apply lookup_zip_with_Some in Hk as (i' & j' & Heq & Hi & Hj).
    injection Heq as -> ->. unfold peaks in Hi.
    rewrite list_lookup_fmap in Hi, Hj.
    destruct (ps !! k) as [p|] eqn:Ep; [|discriminate]. injection Hi as <-.
    destruct (seq 0 (shape1 data_t) !! k) as [c|] eqn:Ec; [|discriminate].
    injection Hj as <-. apply lookup_seq in Ec as [-> Hk].
    rewrite Forall_forall in Hpall.
    assert (p < shape0 wave)%nat
      by (apply Hpall; eapply list_elem_of_lookup_2; exact Ep).
    cbn [fst snd]. lia. }
  eexists _, bin, ps. split.
  - unfold peaks_values. rewrite Hbin. cbn [mbind result_bind].
    unfold np_argmax0. rewrite Hps. cbn [mbind result_bind].
    rewrite length_map, Hplen, Nat.eqb_refl. cbn [negb].
    fold peaks. fold ij. rewrite (np_gather2_inside data_t ij Hr Hij).
    cbn [mbind result_bind]. reflexivity.
  - split.
    { rewrite length_zip_with, length_map. unfold ij.
      rewrite length_zip_with. unfold peaks.
      rewrite !length_map, length_seq. lia. }
    split; [exact Hbin|]. split; [exact Hblen|].
    split; [unfold np_argmax0; exact Hps|]. split; [exact Hplen|].
    split; [exact Hpall|].
    intros c p b Hp Hb. apply lookup_zip_with_Some.
    exists (entry data_t (Z.to_nat (Z.of_nat p + s_min comp)) c), b.
    split; [reflexivity|]. split; [|exact Hb].
    rewrite list_lookup_fmap. unfold ij.
    assert (Hc : (c < shape1 data_t)%nat)
      by (apply lookup_lt_Some in Hb; lia).
    assert (Hz : zip peaks (map Z.of_nat (seq 0 (shape1 data_t))) !! c
                 = Some (Z.of_nat p + s_min comp, Z.of_nat c)).
    { apply lookup_zip_with_Some. eexists _, _. split; [reflexivity|].
      unfold peaks. rewrite !list_lookup_fmap, Hp.
      rewrite lookup_seq_lt by done. split; reflexivity. }
    rewrite Hz. cbn [fmap option_fmap option_map fst snd].
    rewrite Nat2Z.id. reflexivity.
Qed.

Lemma masks_partial (self : WaveformExtractor) (data_t wave : ndarray2)
    (comp : Bunch) (m : list Q) :
  masks self data_t wave comp = OK m ->
  length m = length (channels comp) /\ Forall in_unit_interval m.
Proof.
  unfold masks. intros H. apply bind_OK in H as [pv [_ H]].
  apply np_take_elements in H as [Hlen Hall]. split; [exact Hlen|].
  eapply Forall_impl; [exact Hall|]. intros v Hv. cbn beta in Hv.
  unfold _normalize in Hv. apply list_elem_of_fmap in Hv as [x [-> _]].
  apply normalize_entry_unit.
Qed.


(** *** Sums *)

(** The sums of the specification are the sums of the lists that the array
    operations go through. *)
Lemma sum_from_Qsum (a n : nat) (f : nat -> Q) :
  sum_from a n f = Qsum (map f (seq a n)).
Proof.
  revert a. induction n as [|n IH]; intros a; [reflexivity|].
  cbn [sum_from seq map Qsum]. rewrite IH. reflexivity.
Qed.

Lemma sum_upto_Qsum (n : nat) (f : nat -> Q) :
  sum_upto n f = Qsum (map f (seq 0 n)).
Proof. apply sum_from_Qsum. Qed.

Lemma Qsum_app (l1 l2 : list Q) : (Qsum (l1 ++ l2) == Qsum l1 + Qsum l2)%Q.
Proof.
  induction l1 as [|x l1 IH]; cbn [Qsum app]; [lra | rewrite IH; lra].
Qed.

Lemma sum_upto_S (n : nat) (f : nat -> Q) :
  (sum_upto (S n) f == sum_upto n f + f n)%Q.
Proof.
  rewrite !sum_upto_Qsum. rewrite seq_S, map_app, Qsum_app. cbn. lra.
Qed.

Lemma sum_upto_nonneg (n : nat) (f : nat -> Q) :
  (forall i, (i < n)%nat -> 0 <= f i)%Q -> (0 <= sum_upto n f)%Q.
Proof.
  induction n as [|n IH]; intros H; [cbn; lra|].
  rewrite sum_upto_S. specialize (H n (Nat.lt_succ_diag_r n)) as Hn.
  assert (0 <= sum_upto n f)%Q by (apply IH; intros i Hi; apply H; lia). lra.
Qed.

Lemma sum_upto_le (n : nat) (f g : nat -> Q) :
  (forall i, (i < n)%nat -> f i <= g i)%Q -> (sum_upto n f <= sum_upto n g)%Q.
Proof.
  induction n as [|n IH]; intros H; [cbn; lra|].
  rewrite !sum_upto_S. specialize (H n (Nat.lt_succ_diag_r n)) as Hn.
  assert (sum_upto n f <= sum_upto n g)%Q
    by (apply IH; intros i Hi; apply H; lia).
  lra.
Qed.


Lemma sum_upto_zero (n : nat) (f : nat -> Q) :
  (forall i, (i < n)%nat -> f i == 0) -> sum_upto n f == 0.
Proof.
  induction n as [|n IH]; intros H; [reflexivity|].
  rewrite sum_upto_S, IH, (H n) by (try lia; intros i Hi; apply H; lia). lra.
Qed.

Lemma sum_upto_scale (n : nat) (f : nat -> Q) (k : Q) :
  (sum_upto n (fun i => f i * k) == sum_upto n f * k)%Q.
Proof.
  induction n as [|n IH]; [cbn; lra|]. rewrite !sum_upto_S, IH. lra.
Qed.

Lemma sum_upto_ext (n : nat) (f g : nat -> Q) :
  (forall i, (i < n)%nat -> f i = g i) -> sum_upto n f = sum_upto n g.
Proof.
  intros H. rewrite !sum_upto_Qsum. f_equal. apply map_ext_in. intros i Hi.
  apply in_seq in Hi. apply H. lia.
Qed.

(** *** The weights of the centroid *)

Lemma weight_nonneg (self : WaveformExtractor) (wave : ndarray2) (i c : nat) :
  (0 <= weight self wave i c)%Q.
Proof. unfold weight. apply Qpower_0_le, np_clip_unit. Qed.


Lemma weight_zero (self : WaveformExtractor) (wave : ndarray2) (i c : nat) :
  (weak (_thresholds self) < strong (_thresholds self))%Q ->
  (0 < _weight_power self)%nat ->
  (entry wave i c <= weak (_thresholds self))%Q ->
  weight self wave i c == 0.
Proof.
  intros Hth Hp Hx. unfold weight.
  rewrite (np_clip_below _ (ratio_le_0 _ _ _ Hth Hx)).
  apply Qpower_0. lia.
Qed.

Lemma row_as_entries (wave : ndarray2) (i : nat) (row : list Q) :
  rect wave -> rows wave !! i = Some row ->
  row = map (entry wave i) (seq 0 (shape1 wave)).
Proof.
  intros Hr Hrow. pose proof (rect_lookup _ _ _ Hr Hrow) as Hlen.
  apply list_eq. intros k. rewrite list_lookup_fmap. unfold entry.
  rewrite Hrow. cbn [mbind option_bind].
  destruct (decide (k < shape1 wave)%nat) as [Hk|Hk].
  - rewrite lookup_seq_lt by done. cbn.
    destruct (row !! k) eqn:E; [reflexivity|].
    apply lookup_ge_None in E. lia.
  - rewrite lookup_seq_ge by lia. cbn. apply lookup_ge_None. lia.
Qed.

(** The two sums that [spike_sample_aligned] computes with array operations
    are the sums over all samples and channels of the specification. *)
Lemma np_sum2_weights (self : WaveformExtractor) (wave : ndarray2) :
  rect wave ->
  np_sum2 (np_power (_normalize2 self (rows wave)) (_weight_power self))
  = weight_sum self wave (shape0 wave).
Proof.
  intros Hr. unfold np_sum2, weight_sum. rewrite sum_upto_Qsum. f_equal.
  apply list_eq. intros i. unfold np_power, _normalize2, _normalize.
  rewrite !list_lookup_fmap.
  destruct (rows wave !! i) as [row|] eqn:Erow.
  - rewrite lookup_seq_lt by (apply lookup_lt_Some in Erow; exact Erow).
    cbn. rewrite sum_upto_Qsum. f_equal.
    rewrite (row_as_entries wave i row Hr Erow) at 1.
    rewrite !map_map. reflexivity.
  - rewrite lookup_seq_ge by (apply lookup_ge_None in Erow; exact Erow).
    reflexivity.
Qed.

Lemma np_sum2_weighted_indices (self : WaveformExtractor) (wave : ndarray2) :
  rect wave ->
  np_sum2 (times_row_index
             (np_power (_normalize2 self (rows wave)) (_weight_power self)))
  = weighted_index_sum self wave (shape0 wave).
Proof.
  intros Hr. unfold np_sum2, weighted_index_sum. rewrite sum_upto_Qsum.
  f_equal. apply list_eq. intros i.
  unfold times_row_index, np_power, _normalize2, _normalize.
  rewrite list_lookup_fmap, list_lookup_imap, !list_lookup_fmap.
  destruct (rows wave !! i) as [row|] eqn:Erow.
  - rewrite lookup_seq_lt by (apply lookup_lt_Some in Erow; exact Erow).
    cbn. rewrite sum_upto_Qsum. f_equal.
    rewrite (row_as_entries wave i row Hr Erow) at 1.
    rewrite !map_map. reflexivity.
  - rewrite lookup_seq_ge by (apply lookup_ge_None in Erow; exact Erow).
    reflexivity.
Qed.


Lemma weighted_index_sum_nonneg (self : WaveformExtractor) (wave : ndarray2)
    (n : nat) :
  (0 <= weighted_index_sum self wave n)%Q.
Proof.
  apply sum_upto_nonneg. intros i _. apply sum_upto_nonneg. intros c _.
  pose proof (weight_nonneg self wave i c).
  assert (0 <= inject_Z (Z.of_nat i))%Q
    by (change 0%Q with (inject_Z 0); rewrite <- Zle_Qle; lia).
  nra.
Qed.

Lemma weighted_index_sum_le (self : WaveformExtractor) (wave : ndarray2)
    (n : nat) :
  (weighted_index_sum self wave n
   <= weight_sum self wave n * inject_Z (Z.of_nat n - 1))%Q.
Proof.
  unfold weighted_index_sum, weight_sum.
  rewrite <- sum_upto_scale. apply sum_upto_le. intros i Hi.
  rewrite <- sum_upto_scale. apply sum_upto_le. intros c _.
  pose proof (weight_nonneg self wave i c).
  assert (inject_Z (Z.of_nat i) <= inject_Z (Z.of_nat n - 1))%Q
    by (rewrite <- Zle_Qle; lia).
  nra.
Qed.

Section Pipeline.

Variable self : WaveformExtractor.
Variable component : list (Z * Z).
Variables data_t wave : ndarray2.
Variable comp : Bunch.

Hypothesis Hrect : rect data_t.
Hypothesis Hcomp :
  _component self component (Z.of_nat (shape0 data_t)) = OK comp.
Hypothesis Hinside : inside data_t component.
Hypothesis Hwave : _comp_wave data_t comp = OK wave.

Lemma wave_shape :
  shape1 wave = shape1 data_t
  /\ shape0 wave = Z.to_nat (s_max comp - s_min comp)
  /\ rect wave.
Proof using Hrect Hcomp Hinside Hwave.
  destruct (comp_wave_returns _ _ _ _ Hrect Hcomp Hinside)
    as (wave' & Hw' & H).
  rewrite Hwave in Hw'. injection Hw' as <-. exact H.
Qed.

Lemma peaks_values_pipeline :
  exists pv, peaks_values data_t wave comp = OK pv
             /\ length pv = shape1 data_t.
Proof using Hrect Hcomp Hinside Hwave.
  destruct wave_shape as (Hw1 & Hw0 & _).
  pose proof (component_inv _ _ _ _ Hcomp) as (_ & Hch & H0 & Hlt & Hmax & _).
  destruct (peaks_values_returns data_t wave comp) as (pv & _ & _ & H & Hl & _);
    try assumption; try lia.
  - rewrite Hch. pose proof Hinside as Hin. unfold inside in Hin.
    rewrite Forall_forall in Hin. rewrite Forall_forall.
    intros c Hc. apply list_elem_of_fmap in Hc as [[s c'] [-> Hsc]].
    apply (Hin _ Hsc).
  - exists pv. split; assumption.
Qed.

Lemma spike_sample_aligned_eq :
  spike_sample_aligned self wave comp
  = OK (np_add_int
          (np_div (weighted_index_sum self wave (shape0 wave))
                  (weight_sum self wave (shape0 wave)))
          (s_min comp)).
Proof using Hrect Hcomp Hinside Hwave.
  destruct wave_shape as (_ & Hw0 & Hwr).
  unfold spike_sample_aligned. rewrite <- Hw0, Nat.eqb_refl. cbn [negb].
  rewrite np_sum2_weights, np_sum2_weighted_indices by exact Hwr.
  reflexivity.
Qed.

(** C1.  Let the two thresholds differ, so that the normalization divides
    by a number that is not zero (on a zero divisor numpy's floating-point
    division and the division of the rationals differ).  The aligned time
    that [spike_sample_aligned] computes for the sparse waveform of a
    component is the centroid of the specification: with [w] the
    normalized and clipped waveform raised to [weight_power], the sum over
    all samples and channels of [w] times the relative sample index,
    divided by the sum of [w], plus [s_min].  When the sum of [w] is zero
    the quotient is [0/0] and the result is not a number. *)
Theorem spike_sample_aligned_centroid :
  ~ weak (_thresholds self) == strong (_thresholds self) ->
  let W := weight_sum self wave (Z.to_nat (s_max comp - s_min comp)) in
  (~ W == 0 ->
   spike_sample_aligned self wave comp
   = OK (Finite (centroid self wave comp)))
  /\ (W == 0 -> spike_sample_aligned self wave comp = OK NaN).
Proof using Hrect Hcomp Hinside Hwave.
  intros _ W. rewrite spike_sample_aligned_eq.
  destruct wave_shape as (_ & Hw0 & _). unfold W, centroid. rewrite <- Hw0.
  split; intros HW; unfold np_div.
  - destruct (Qeq_bool (weight_sum self wave (shape0 wave)) 0) eqn:E;
      [apply Qeq_bool_eq in E; contradiction|].
    reflexivity.
  - pose proof (weighted_index_sum_nonneg self wave (shape0 wave)) as HN0.
    pose proof (weighted_index_sum_le self wave (shape0 wave)) as HN1.
    assert (HN : weighted_index_sum self wave (shape0 wave) == 0)
      by (rewrite HW in HN1; lra).
    rewrite (Qeq_eq_bool _ _ HW), (Qeq_eq_bool _ _ HN). reflexivity.
Qed.


(** The member channels of the group are channels of the trace. *)
Hypothesis Hchannels :
  Forall (fun c => 0 <= c < Z.of_nat (shape1 data_t)) (channels comp).

Lemma masks_pipeline :
  exists m,
    masks self data_t wave comp = OK m
    /\ m = map (fun c => normalize_entry (_thresholds self)
                           (peak_amplitude data_t wave comp c))
               (channels comp).
Proof using Hrect Hcomp Hinside Hwave Hchannels.
  destruct peaks_values_pipeline as (pv & Hpv & Hlen).
  eexists. unfold masks, peak_amplitude. rewrite Hpv.
  cbn [mbind result_bind].
  rewrite (np_take_inside 0%Q)
    by (unfold _normalize; rewrite length_map, Hlen; exact Hchannels).
  split; [reflexivity|]. apply map_ext_Forall.
  eapply Forall_impl; [exact Hchannels|]. intros c Hc. cbn beta in *.
  unfold _normalize. rewrite list_lookup_fmap.
  destruct (pv !! Z.to_nat c) as [v|] eqn:E; [reflexivity|].
  apply lookup_ge_None in E. lia.
Qed.

(** C9.  With [weak < strong], the mask of a resolved component inside
    the trace is returned and each of its values, one for each member
    channel, lies in the closed interval from 0 to 1: every value is the
    result of the clip of [_normalize]. *)
Theorem masks_in_unit_interval :
  (weak (_thresholds self) < strong (_thresholds self))%Q ->
  exists m,
    masks self data_t wave comp = OK m
    /\ length m = length (channels comp)
    /\ Forall in_unit_interval m.
Proof using Hrect Hcomp Hinside Hwave Hchannels.
  intros _. destruct masks_pipeline as (m & Hm & _).
  exists m. split; [exact Hm|]. exact (masks_partial _ _ _ _ _ Hm).
Qed.

End Pipeline.

(** *** The example *)

Lemma ex_rect : rect ex_data_t.
Proof. unfold rect. repeat constructor. Defined.

Lemma ex_resolved :
  _component ex_extractor ex_component (Z.of_nat (shape0 ex_data_t))
  = OK ex_comp.
Proof. vm_compute. reflexivity. Defined.

Lemma ex_inside : inside ex_data_t ex_component.
Proof. unfold inside. repeat constructor; cbn; lia. Defined.

Lemma ex_comp_wave : _comp_wave ex_data_t ex_comp = OK ex_wave.
Proof. vm_compute. reflexivity. Defined.

Lemma ex_channels :
  Forall (fun c => 0 <= c < Z.of_nat (shape1 ex_data_t)) (channels ex_comp).
Proof. repeat constructor; cbn; lia. Defined.

Lemma ex_thresholds :
  (weak (_thresholds ex_extractor) < strong (_thresholds ex_extractor))%Q.
Proof. reflexivity. Defined.

Lemma spike_sample_aligned_centroid_witness :
  spike_sample_aligned ex_extractor ex_wave ex_comp
  = OK (Finite (centroid ex_extractor ex_wave ex_comp))
  /\ centroid ex_extractor ex_wave ex_comp == 11 # 3.
Proof.
  pose proof (spike_sample_aligned_centroid ex_extractor ex_component
                ex_data_t ex_wave ex_comp ex_rect ex_resolved ex_inside
                ex_comp_wave) as H.
  cbv zeta in H. destruct H as [H _].
  - intros E. vm_compute in E. discriminate.
  - split; [|vm_compute; reflexivity].
    apply H. intros E. vm_compute in E. discriminate.
Defined.

Lemma masks_in_unit_interval_witness :
  exists m,
    masks ex_extractor ex_data_t ex_wave ex_comp = OK m
    /\ length m = length (channels ex_comp)
    /\ Forall in_unit_interval m.
Proof.
  exact (masks_in_unit_interval ex_extractor ex_component ex_data_t ex_wave
           ex_comp ex_rect ex_resolved ex_inside ex_comp_wave ex_channels
           ex_thresholds).
Defined.



(** *** The batch loader *)

Lemma load_at_out_of_range (self : WaveformLoader) (time : Z) :
  in_range self time = false ->
  _load_at self time
  = Raise (InvalidTime (time - _offset self) (n_samples_trace self)).
Proof.
  intros H. unfold _load_at. cbv zeta. unfold in_range in H. rewrite H.
  reflexivity.
Qed.

Lemma load_all_spec (self : WaveformLoader) (spikes : list Z) :
  (forall t, t ∈ spikes -> in_range self t = true ->
             exists wv, _load_at self t = OK wv) ->
  forall (i : nat) (w : list (list (list Q))) (log : list log_record),
    (i + length spikes <= length w)%nat ->
    exists w',
      load_all self i spikes w log
      = (OK w',
         log ++ map (fun t => LoadError (InvalidTime (t - _offset self)
                                                     (n_samples_trace self)))
                    (List.filter (fun t => negb (in_range self t)) spikes))
      /\ length w' = length w
      /\ (forall k, (k < i)%nat -> w' !! k = w !! k)
      /\ (forall j t, spikes !! j = Some t ->
            (in_range self t = false -> w' !! (i + j)%nat = w !! (i + j)%nat)
            /\ (forall wv, _load_at self t = OK wv ->
                           w' !! (i + j)%nat = Some (rows wv))).
Proof.
  induction spikes as [|t spikes IH]; intros Hload i w log Hlen.
  - exists w. cbn. rewrite app_nil_r. repeat split; try reflexivity.
    all: intros; discriminate.
  - cbn [length] in Hlen. cbn [load_all List.filter].
    assert (Hload' : forall t', t' ∈ spikes -> in_range self t' = true ->
                                exists wv, _load_at self t' = OK wv).
    { intros t' Ht'. apply Hload. right. exact Ht'. }
    destruct (in_range self t) eqn:Er.
    + destruct (Hload t) as [wv Hwv]; [left | exact Er |]. rewrite Hwv.
      cbn [negb].
      destruct (IH Hload' (S i) (<[i := rows wv]> w) log)
        as (w' & Hw' & Hl & Hbefore & Hslots).
      { rewrite length_insert. lia. }
      exists w'. split; [exact Hw'|]. rewrite length_insert in Hl.
      split; [exact Hl|]. split.
      * intros k Hk. rewrite Hbefore by lia.
        apply list_lookup_insert_ne. lia.
      * intros j t' Hj. destruct j as [|j].
        -- injection Hj as <-. rewrite Nat.add_0_r. split; [congruence|].
           intros wv' Hwv'. rewrite Hbefore by lia.
           rewrite list_lookup_insert_eq by lia. congruence.
        -- cbn in Hj. replace (i + S j)%nat with (S i + j)%nat by lia.
           destruct (Hslots j t' Hj) as [H1 H2]. split; [|exact H2].
           intros Hr. rewrite H1 by exact Hr.
           apply list_lookup_insert_ne. lia.
    + rewrite (load_at_out_of_range _ _ Er). cbn [is_ValueError negb map].
      destruct (IH Hload' (S i) w
                  (log ++ [LoadError (InvalidTime (t - _offset self)
                                                  (n_samples_trace self))]))
        as (w' & Hw' & Hl & Hbefore & Hslots); [lia|].
      exists w'. split; [rewrite Hw', <- app_assoc; reflexivity|].
      split; [exact Hl|]. split.
      * intros k Hk. apply Hbefore. lia.
      * intros j t' Hj. destruct j as [|j].
        -- injection Hj as <-. rewrite Nat.add_0_r. split.
           ++ intros _. apply Hbefore. lia.
           ++ intros wv Hwv. rewrite load_at_out_of_range in Hwv by exact Er.
              discriminate.
        -- cbn in Hj. replace (i + S j)%nat with (S i + j)%nat by lia.
           exact (Hslots j t' Hj).
Qed.

Lemma assert_OK (b : bool) (u : unit) : assert b = OK u -> b = true.
Proof. destruct b; [reflexivity | discriminate]. Qed.

(** A loaded waveform has the shape that the final assertion checks. *)
Lemma load_at_shape (self : WaveformLoader) (time : Z) (wv : ndarray2) :
  _load_at self time = OK wv ->
  Z.of_nat (shape0 wv) = n_samples_waveforms self
  /\ n_channels_waveforms self = OK (shape1 wv).
Proof.
  unfold _load_at. cbv zeta.
  destruct (negb _); [discriminate|].
  destruct (_traces self) as [traces|]; [|discriminate].
  intros H. apply bind_OK in H as [u1 [_ H]].
  apply bind_OK in H as [w1 [_ H]].
  destruct (_filter_margin self) as [mb ma].
  apply bind_OK in H as [w2 [_ H]].
  apply bind_OK in H as [out [_ H]].
  apply bind_OK in H as [ncw [Hncw H]].
  apply bind_OK in H as [u2 [Ha H]].
  injection H as <-. apply assert_OK in Ha.
  apply andb_true_iff in Ha as [H0 H1].
  apply Z.eqb_eq in H0. apply Nat.eqb_eq in H1. rewrite H1. auto.
Qed.

Lemma map3_map3 (f g : Q -> Q) (w : list (list (list Q))) :
  map3 f (map3 g w) = map3 (fun x => f (g x)) w.
Proof.
  unfold map3. rewrite map_map. apply map_ext. intros s.
  rewrite map_map. apply map_ext. intros r. apply map_map.
Qed.

Lemma map3_id (f : Q -> Q) (w : list (list (list Q))) :
  (forall x, f x = x) -> map3 f w = w.
Proof.
  intros Hf. unfold map3. rewrite <- (map_id w) at 2. apply map_ext.
  intros s. rewrite <- (map_id s) at 2. apply map_ext.
  intros r. rewrite <- (map_id r) at 2. apply map_ext. exact Hf.
Qed.

Lemma post_passes (self : WaveformLoader) (w : list (list (list Q))) :
  (if truthy (_scale_factor self)
   then map3 (fun x => (x * default 0 (_scale_factor self))%Q)
             (if truthy (_dc_offset self)
              then map3 (fun x => (x - default 0 (_dc_offset self))%Q) w
              else w)
   else (if truthy (_dc_offset self)
         then map3 (fun x => (x - default 0 (_dc_offset self))%Q) w
         else w))
  = map3 (post_entry self) w.
Proof.
  unfold post_entry.
  destruct (truthy (_scale_factor self)), (truthy (_dc_offset self)).
  - apply map3_map3.
  - reflexivity.
  - reflexivity.
  - symmetry. apply map3_id. reflexivity.
Qed.

(** C7, as the code has it.  On a loader with a non-empty buffer, a batch
    of times of which the ones inside the buffer load is answered without
    an exception: one warning is logged for each time outside [[0,
    buffer_length)], in order; the array has one slot for each requested
    time and the requested window length and channel count; the slot of a
    time outside the buffer holds what the uninitialized memory held (after
    the offset and the scale factor), and the slot of a time inside holds
    its waveform. *)
Theorem getitem_invalid_times (self : WaveformLoader)
    (garbage : nat -> nat -> nat -> Q) (times : list Z) (ncw : nat) :
  n_samples_trace self <> 0 ->
  0 <= n_samples_waveforms self ->
  n_channels_waveforms self = OK ncw ->
  (forall t, t ∈ times -> in_range self t = true ->
             exists wv, _load_at self t = OK wv) ->
  let nsw := Z.to_nat (n_samples_waveforms self) in
  exists arr,
    getitem self garbage (ItemList times)
    = (OK arr,
       map (fun t => LoadError (InvalidTime (t - _offset self)
                                            (n_samples_trace self)))
           (List.filter (fun t => negb (in_range self t)) times))
    /\ length (slots arr) = length times
    /\ dim1 arr = nsw /\ dim2 arr = ncw
    /\ Forall (fun slot => length slot = nsw) (slots arr)
    /\ forall j t, times !! j = Some t ->
         (in_range self t = false ->
          slots arr !! j
          = Some (map (map (post_entry self))
                      (garbage_slot garbage nsw ncw j)))
         /\ (forall wv, _load_at self t = OK wv ->
               slots arr !! j = Some (map (map (post_entry self)) (rows wv))).
Proof.
  intros Hns Hnsw Hncw Hload nsw.
  destruct (load_all_spec self times Hload 0
              (slots (np_empty3 garbage (length times) nsw ncw)) [])
    as (w' & Hw' & Hl & _ & Hslots).
  { cbn [np_empty3 slots]. rewrite length_map, length_seq. lia. }
  cbn [np_empty3 slots] in Hl. rewrite length_map, length_seq in Hl.
  assert (Hg : forall j, (j < length times)%nat ->
            slots (np_empty3 garbage (length times) nsw ncw) !! j
            = Some (garbage_slot garbage nsw ncw j)).
  { intros j Hj. cbn [np_empty3 slots]. rewrite list_lookup_fmap.
    rewrite lookup_seq_lt by exact Hj. reflexivity. }
  assert (Hsl : forall j t, times !! j = Some t ->
            (in_range self t = false ->
             map3 (post_entry self) w' !! j
             = Some (map (map (post_entry self))
                         (garbage_slot garbage nsw ncw j)))
            /\ (forall wv, _load_at self t = OK wv ->
                  map3 (post_entry self) w' !! j
                  = Some (map (map (post_entry self)) (rows wv)))).
  { intros j t Hj. destruct (Hslots j t Hj) as [H1 H2].
    cbn [Nat.add] in H1, H2.
    unfold map3. rewrite list_lookup_fmap. split.
    - intros Hr. rewrite (H1 Hr).
      rewrite Hg by (apply lookup_lt_Some in Hj; exact Hj). reflexivity.
    - intros wv Hwv. rewrite (H2 wv Hwv). reflexivity. }
  exists (Array3 nsw ncw (map3 (post_entry self) w')). split.
  - unfold getitem. rewrite Hncw.
    destruct (Z.ltb_spec (n_samples_waveforms self) 0); [lia|].
    destruct (Z.eqb_spec (n_samples_trace self) 0); [contradiction|].
    cbv zeta. fold nsw. rewrite Hw'. cbn [app]. rewrite post_passes.
    reflexivity.
  - cbn [slots dim1 dim2]. split; [unfold map3; rewrite length_map; exact Hl|].
    split; [reflexivity|]. split; [reflexivity|]. split; [|exact Hsl].
    rewrite Forall_forall. intros slot Hslot.
    apply list_elem_of_lookup in Hslot as [j Hj].
    assert (Hjl : (j < length times)%nat).
    { apply lookup_lt_Some in Hj. unfold map3 in Hj.
      rewrite length_map in Hj. lia. }
    destruct (times !! j) as [t|] eqn:Et.
    2:{ apply lookup_ge_None in Et. lia. }
    destruct (Hsl j t Et) as [H1 H2].
    destruct (in_range self t) eqn:Er.
    + destruct (Hload t) as [wv Hwv];
        [eapply list_elem_of_lookup_2; exact Et | exact Er |].
      rewrite (H2 wv Hwv) in Hj. injection Hj as <-. rewrite length_map.
      destruct (load_at_shape _ _ _ Hwv) as [Hs _]. unfold shape0 in Hs.
      unfold nsw. lia.
    + rewrite (H1 eq_refl) in Hj. injection Hj as <-.
      unfold garbage_slot. rewrite !length_map, length_seq. reflexivity.
Qed.

Lemma ex_loader_init :
  WaveformLoader_init (Some (Array2 1 [[1]; [2]; [3]]%Q)) 0 None (Count 0)
                      (Some (BeforeAfter [1; 1])) None None None
  = OK ex_loader.
Proof. reflexivity. Qed.

Lemma getitem_invalid_times_witness :
  exists arr,
    getitem ex_loader (fun _ _ _ => 7%Q) (ItemList [-5; 1])
    = (OK arr, [LoadError (InvalidTime (-5) 3)])
    /\ length (slots arr) = 2%nat
    /\ dim1 arr = 2%nat /\ dim2 arr = 1%nat
    /\ Forall (fun slot => length slot = 2%nat) (slots arr)
    /\ forall j t, [-5; 1] !! j = Some t ->
         (in_range ex_loader t = false ->
          slots arr !! j
          = Some (map (map (post_entry ex_loader))
                      (garbage_slot (fun _ _ _ => 7%Q) 2 1 j)))
         /\ (forall wv, _load_at ex_loader t = OK wv ->
               slots arr !! j
               = Some (map (map (post_entry ex_loader)) (rows wv))).
Proof.
  apply (getitem_invalid_times ex_loader (fun _ _ _ => 7%Q) [-5; 1] 1).
  - cbn. lia.
  - cbn. lia.
  - reflexivity.
  - intros t Ht Hr.
    apply elem_of_cons in Ht as [->|Ht]; [vm_compute in Hr; discriminate|].
    apply elem_of_cons in Ht as [->|Ht]; [|inversion Ht].
    eexists. vm_compute. reflexivity.
Defined.

(** A batch on a loader whose buffer is empty, or was never set while a
    channel subset is configured, is answered with zeros. *)
Lemma getitem_empty_buffer (self : WaveformLoader)
    (garbage : nat -> nat -> nat -> Q) (times : list Z) (ncw : nat) :
  n_samples_trace self = 0 ->
  0 <= n_samples_waveforms self ->
  n_channels_waveforms self = OK ncw ->
  getitem self garbage (ItemList times)
  = (OK (np_zeros3 (length times) (Z.to_nat (n_samples_waveforms self)) ncw),
     []).
Proof.
  intros Hns Hnsw Hncw. unfold getitem. rewrite Hncw, Hns.
  destruct (Z.ltb_spec (n_samples_waveforms self) 0); [lia|]. reflexivity.
Qed.

(** C8.  A loader built without traces and without a channel subset never
    received [n_channels_traces]: the batch call reads it to compute the
    shape, before it tests for an empty buffer, and raises
    [AttributeError] where an all-zero batch is meant. *)
Theorem getitem_unset_traces_raises :
  exists loader,
    WaveformLoader_init None 0 None (Count 0) (Some (Count 4)) None None None
    = OK loader
    /\ n_samples_trace loader = 0
    /\ forall garbage times,
         getitem loader garbage (ItemList times) = (Raise AttributeError, []).
Proof.
  eexists. split; [reflexivity|]. split; [reflexivity|].
  intros garbage times. reflexivity.
Qed.

(** *** Extraction and alignment *)

Lemma get_padded_length (data w : ndarray2) (start end_ : Z) :
  _get_padded data start end_ = OK w ->
  start <= end_ -> 0 <= end_ -> start <= Z.of_nat (shape0 data) ->
  Z.of_nat (shape0 w) = end_ - start /\ shape1 w = shape1 data.
Proof.
  intros Hw Hse He Hs.
  assert (Hg : ~ (start < 0 /\ Z.of_nat (shape0 data) <= end_)).
  { intros [H1 H2]. unfold _get_padded in Hw.
    destruct (Z.ltb_spec start 0); [|lia].
    destruct (Z.geb_spec end_ (Z.of_nat (shape0 data))); [|lia].
    discriminate. }
  rewrite (get_padded_contract data start end_ Hg Hse He Hs) in Hw.
  injection Hw as <-. unfold padded_contract, shape0. cbn [rows shape1].
  rewrite length_map, length_seq. split; [lia | reflexivity].
Qed.

Lemma np_take_columns_shape (a out : ndarray2) (idx : list Z) :
  np_take_columns a idx = OK out -> shape0 out = shape0 a.
Proof.
  unfold np_take_columns. intros H. apply bind_OK in H as [ks [_ H]].
  injection H as <-. unfold shape0. cbn [rows]. apply length_map.
Qed.

Lemma Qtruncate_fraction (q : Q) :
  (-1 < q - inject_Z (Qtruncate q) /\ q - inject_Z (Qtruncate q) < 1)%Q.
Proof.
  unfold Qtruncate. destruct (Qle_bool 0 q).
  - pose proof (Qfloor_le q). pose proof (Qlt_floor q) as H1.
    rewrite inject_Z_plus in H1. change (inject_Z 1) with 1%Q in H1.
    split; lra.
  - pose proof (Qle_ceiling q). pose proof (Qceiling_lt q) as H1.
    unfold Z.sub in H1. rewrite inject_Z_plus in H1.
    change (inject_Z (- (1))) with (- (1))%Q in H1. split; lra.
Qed.

Lemma in_bounds_arange (a b : Z) (x : Q) :
  a < b -> (inject_Z a <= x)%Q -> (x <= inject_Z (b - 1))%Q ->
  in_bounds (np_arange a b) x = true.
Proof.
  intros Hab Hlo Hhi. unfold in_bounds, np_arange.
  assert (Hlast : last (seqZ a (b - a)) = Some (b - 1)).
  { rewrite last_lookup, length_seqZ, lookup_seqZ_lt by lia. f_equal. lia. }
  rewrite (seqZ_cons a (b - a)) in Hlast |- * by lia. rewrite Hlast.
  apply andb_true_iff. split; apply Qle_bool_iff; assumption.
Qed.

Lemma extract_length (self : WaveformExtractor) (data waveform : ndarray2)
    (chans : list Z) (q : Q) :
  0 <= _extract_before self -> 0 <= _extract_after self ->
  extract self data (Finite q) chans = OK waveform ->
  0 <= Qtruncate q <= Z.of_nat (shape0 data) ->
  Z.of_nat (shape0 waveform) = _extract_before self + _extract_after self + 3.
Proof.
  intros Hb Ha He Hs. unfold extract in He. cbn [py_int mbind result_bind] in He.
  apply bind_OK in He as [w0 [Hw0 He]].
  apply get_padded_length in Hw0 as [Hlen _]; [|lia..].
  apply np_take_columns_shape in He. rewrite He. lia.
Qed.

(** C3, as the code has it.  For a window that [extract] returns and a
    finite aligned time: when the interpolant is built, [align] returns
    exactly [extract_before + extract_after] samples and logs nothing; when
    building it raises a [ValueError], [align] logs the warning with the
    integer sample time and returns the unaligned window itself, which for
    an aligned time inside the trace has [extract_before + extract_after +
    3] samples. *)
Theorem align_length `{Interp1d} (self : WaveformExtractor)
    (data waveform : ndarray2) (chans : list Z) (q : Q) :
  0 <= _extract_before self -> 0 <= _extract_after self ->
  extract self data (Finite q) chans = OK waveform ->
  let s := Qtruncate q in
  (0 <= s <= Z.of_nat (shape0 data) ->
   Z.of_nat (shape0 waveform)
   = _extract_before self + _extract_after self + 3)
  /\ match interp1d (np_arange (s - _extract_before self - 1)
                               (s + _extract_after self + 2)) waveform with
     | OK f =>
         exists out,
           align self waveform (Finite q) = OK (out, [])
           /\ Z.of_nat (shape0 out)
              = _extract_before self + _extract_after self
     | Raise e =>
         is_ValueError e = true ->
         align self waveform (Finite q)
         = OK (waveform, [InterpolationErrorAt s])
     end.
Proof.
  intros Hb Ha He s. split.
  - intros Hs. exact (extract_length self data waveform chans q Hb Ha He Hs).
  - unfold align. cbn [py_int mbind result_bind]. fold s.
    destruct (interp1d _ waveform) as [f|e].
    + unfold interp_call.
      match goal with |- context [forallb ?g ?l] =>
        assert (Hall : forallb g l = true) end.
      { apply forallb_forall. intros x Hx. apply in_map_iff in Hx as [k [<- Hk]].
        apply list_elem_of_In in Hk. unfold np_arange in Hk.
        apply elem_of_seqZ in Hk.
        destruct (Qtruncate_fraction q) as [Hf0 Hf1]. fold s in Hf0, Hf1.
        assert (inject_Z (s - _extract_before self) <= inject_Z k)%Q
          by (rewrite <- Zle_Qle; lia).
        assert (inject_Z k <= inject_Z (s + _extract_after self - 1))%Q
          by (rewrite <- Zle_Qle; lia).
        assert (E1 : inject_Z (s - _extract_before self - 1)
                     == inject_Z (s - _extract_before self) - 1)
          by (unfold Z.sub; rewrite !inject_Z_plus; reflexivity).
        assert (E2 : inject_Z (s + _extract_after self + 2 - 1)
                     == inject_Z (s + _extract_after self - 1) + 2).
        { replace (s + _extract_after self + 2 - 1)
            with (s + _extract_after self - 1 + 2) by lia.
          rewrite inject_Z_plus. reflexivity. }
        apply in_bounds_arange; [lia | rewrite E1; lra | rewrite E2; lra]. }
      rewrite Hall. cbn [mbind result_bind]. eexists. split; [reflexivity|].
      unfold shape0. cbn [rows]. rewrite !length_map.
      unfold np_arange. rewrite length_seqZ. lia.
    + intros Hv. rewrite Hv. reflexivity.
Qed.

Lemma align_length_witness :
  Z.of_nat (shape0 ex_window) = 2 + 3 + 3
  /\ exists out,
       align (H := knot_interp) ex_aligner ex_window (Finite (9 # 2))
       = OK (out, [])
       /\ Z.of_nat (shape0 out) = 2 + 3.
Proof.
  destruct (align_length (H := knot_interp) ex_aligner ex_data ex_window [0]
              (9 # 2)) as [H1 H2].
  - cbn. lia.
  - cbn. lia.
  - vm_compute. reflexivity.
  - split; [apply H1; vm_compute; split; discriminate | exact H2].
Defined.

(** With no sample before and none after, the window has three samples,
    scipy cannot build a cubic interpolant on three knots, and [align]
    returns the three samples of the unaligned window. *)
Lemma align_failure_returns_longer_window :
  let self := WaveformExtractor_init 0 0 None (Thresholds 2 10) [(0, [0])] in
  let data := Array2 1 [[1]; [2]; [3]]%Q in
  exists waveform,
    extract self data (Finite 1) [0] = OK waveform
    /\ align (H := knot_interp) self waveform (Finite 1)
       = OK (waveform, [InterpolationErrorAt 1])
    /\ Z.of_nat (shape0 waveform) = 3
    /\ 3 <> _extract_before self + _extract_after self.
Proof.
  eexists. split; [vm_compute; reflexivity|].
  split; [vm_compute; reflexivity|]. split; [reflexivity | discriminate].
Qed.

(** *** The sparse waveform and the peaks, entry by entry *)

Lemma entry_zeros (n c : nat) (i j : nat) :
  entry (Array2 c (replicate n (replicate c 0%Q))) i j = 0%Q.
Proof.
  unfold entry. cbn [rows].
  destruct (decide (i < n)%nat) as [Hi|Hi].
  - rewrite lookup_replicate_2 by exact Hi. cbn [mbind option_bind].
    destruct (decide (j < c)%nat) as [Hj|Hj].
    + rewrite lookup_replicate_2 by exact Hj. reflexivity.
    + rewrite lookup_ge_None_2 by (rewrite length_replicate; lia). reflexivity.
  - rewrite lookup_ge_None_2 by (rewrite length_replicate; lia). reflexivity.
Qed.

Lemma np_set2_entry (a a' : ndarray2) (i j : Z) (v : Q) (r c : nat) :
  rect a ->
  0 <= i < Z.of_nat (shape0 a) -> 0 <= j < Z.of_nat (shape1 a) ->
  np_set2 a i j v = OK a' ->
  entry a' r c
  = if decide (r = Z.to_nat i /\ c = Z.to_nat j) then v else entry a r c.
Proof.
  intros Hr Hi Hj. unfold np_set2. rewrite !np_index_inside by done.
  cbn [mbind result_bind]. intros [= <-]. unfold entry. cbn [rows].
  destruct (decide (r = Z.to_nat i)) as [->|Hne].
  - rewrite list_lookup_alter_eq.
    destruct (rows a !! Z.to_nat i) as [row|] eqn:Erow.
    2:{ apply lookup_ge_None in Erow. unfold shape0 in Hi. lia. }
    cbn [fmap option_fmap option_map mbind option_bind].
    pose proof (rect_lookup a _ _ Hr Erow) as Hlen.
    destruct (decide (c = Z.to_nat j)) as [->|Hc].
    + rewrite decide_True by done.
      rewrite list_lookup_insert_eq by lia. reflexivity.
    + rewrite decide_False by tauto.
      rewrite list_lookup_insert_ne by done. reflexivity.
  - rewrite decide_False by tauto.
    rewrite list_lookup_alter_ne by done. reflexivity.
Qed.

(** Positions written by a scatter hold the value of their position, the
    others are unchanged. *)
Lemma np_scatter2_entries (g : nat -> nat -> Q) (ij : list (Z * Z))
    (a a' : ndarray2) (r c : nat) :
  rect a -> inside a ij ->
  np_scatter2 a ij (map (fun p => g (Z.to_nat p.1) (Z.to_nat p.2)) ij) = OK a' ->
  (Exists (fun p => Z.to_nat p.1 = r /\ Z.to_nat p.2 = c) ij ->
   entry a' r c = g r c)
  /\ (~ Exists (fun p => Z.to_nat p.1 = r /\ Z.to_nat p.2 = c) ij ->
      entry a' r c = entry a r c).
Proof.
  revert a. induction ij as [|[i j] ij IH]; intros a Hr Hin H.
  - cbn in H. injection H as <-. split; [intros E; inversion E | reflexivity].
  - inversion Hin as [|? ? [Hi Hj] Hin']; subst. cbn [fst snd] in *.
    cbn [map np_scatter2 fst snd] in H. apply bind_OK in H as [a1 [H1 H]].
    pose proof (np_set2_entry a a1 i j _ r c Hr Hi Hj H1) as He.
    pose proof (np_set2_shape _ _ _ _ _ H1) as (Hs1 & Hs0 & Hr1).
    assert (Hin1 : inside a1 ij) by (unfold inside; rewrite Hs0, Hs1; exact Hin').
    destruct (IH a1 (Hr1 Hr) Hin1 H) as [IH1 IH2].
    destruct (decide (Exists (fun p => Z.to_nat p.1 = r /\ Z.to_nat p.2 = c) ij))
      as [Hex|Hnex].
    + split; [intros _; exact (IH1 Hex)|].
      intros Hn. exfalso. apply Hn. right. exact Hex.
    + rewrite (IH2 Hnex), He. split.
      * intros E. inversion E as [? ? [E1 E2]|]; subst; [|contradiction].
        cbn [fst snd] in *. rewrite decide_True by (split; congruence).
        congruence.
      * intros Hn. rewrite decide_False; [reflexivity|].
        intros [-> ->]. apply Hn. left. cbn. split; reflexivity.
Qed.

(** The sparse waveform of a component: the filtered value at the
    crossings of the component, zero everywhere else. *)
Lemma comp_wave_entries (self : WaveformExtractor) (component : list (Z * Z))
    (data_t wave : ndarray2) (comp : Bunch) (r c : nat) :
  rect data_t ->
  _component self component (Z.of_nat (shape0 data_t)) = OK comp ->
  inside data_t component ->
  _comp_wave data_t comp = OK wave ->
  let touched :=
    Exists (fun sc => Z.to_nat (sc.1 - s_min comp) = r /\ Z.to_nat sc.2 = c)
           component in
  (touched -> entry wave r c = entry data_t (r + Z.to_nat (s_min comp)) c)
  /\ (~ touched -> entry wave r c = 0%Q).
Proof.
  intros Hr Hc Hin Hw touched.
  pose proof (inside_window _ _ _ _ Hc Hin) as Hwin.
  pose proof (component_inv _ _ _ _ Hc) as (Hs & Hch & H0 & Hlt & Hmax & _).
  unfold _comp_wave, np_zeros2 in Hw.
  destruct (Z.ltb_spec (s_max comp - s_min comp) 0); [lia|].
  cbn [mbind result_bind] in Hw. rewrite Hs, Hch, zip_fst_snd in Hw.
  rewrite np_gather2_inside in Hw by done. cbn [mbind result_bind] in Hw.
  set (zeros := Array2 (shape1 data_t)
                  (replicate (Z.to_nat (s_max comp - s_min comp))
                             (replicate (shape1 data_t) 0%Q))) in *.
  set (ij := map (fun sc : Z * Z => (sc.1 - s_min comp, sc.2)) component).
  assert (Hzip : zip (map (fun s => s - s_min comp) component.*1) component.*2
                 = ij).
  { unfold ij. clear. induction component as [|[s c] l IH]; [reflexivity|].
    cbn. f_equal. exact IH. }
  rewrite Hzip in Hw.
  set (g := fun r c : nat => entry data_t (r + Z.to_nat (s_min comp)) c).
  assert (Hvals : map (fun sc : Z * Z => entry data_t (Z.to_nat sc.1)
                                               (Z.to_nat sc.2)) component
                  = map (fun p : Z * Z => g (Z.to_nat p.1) (Z.to_nat p.2)) ij).
  { unfold ij. rewrite map_map. apply map_ext_Forall.
    eapply Forall_impl; [exact Hwin|]. intros [s ch] [H1 H2].
    cbn [fst snd] in *. unfold g. f_equal. lia. }
  rewrite Hvals in Hw.
  assert (Hzr : rect zeros).
  { unfold rect, zeros. cbn. apply Forall_replicate, length_replicate. }
  assert (Hidx : inside zeros ij).
  { unfold inside, ij, shape0, zeros. cbn [rows shape1].
    rewrite length_replicate, Forall_fmap.
    eapply Forall_impl; [exact Hwin|]. intros [s ch] [H1 H2].
    unfold compose. cbn [fst snd] in *. lia. }
  destruct (np_scatter2_entries g ij zeros wave r c Hzr Hidx Hw) as [E1 E2].
  assert (Hex : touched
                <-> Exists (fun p : Z * Z => Z.to_nat p.1 = r /\ Z.to_nat p.2 = c)
                           ij).
  { unfold touched, ij. rewrite Exists_fmap. reflexivity. }
  split.
  - intros Ht. apply E1, Hex, Ht.
  - intros Ht. rewrite E2 by (rewrite <- Hex; exact Ht).
    apply entry_zeros.
Qed.

Lemma Qltb_true (x y : Q) : Qltb x y = true <-> (x < y)%Q.
Proof.
  unfold Qltb. rewrite negb_true_iff. split.
  - intros H. apply Qnot_le_lt. intros Hle.
    apply Qle_bool_iff in Hle. congruence.
  - intros H. destruct (Qle_bool y x) eqn:E; [|reflexivity].
    apply Qle_bool_iff in E. lra.
Qed.

Lemma Qltb_false (x y : Q) : Qltb x y = false <-> (y <= x)%Q.
Proof.
  unfold Qltb. rewrite negb_false_iff. apply Qle_bool_iff.
Qed.

Lemma argmax_from_spec (l : list Q) (i : nat) (best : Q) (besti : nat) :
  exists v,
    ((argmax_from l i best besti = besti /\ v = best)
     \/ exists k, argmax_from l i best besti = (i + k)%nat /\ l !! k = Some v)
    /\ (best <= v)%Q
    /\ Forall (fun x => (x <= v)%Q) l.
Proof.
  revert i best besti. induction l as [|x l IH]; intros i best besti.
  - exists best. split; [left; split; reflexivity|]. split; [lra | constructor].
  - cbn [argmax_from]. destruct (Qltb best x) eqn:E.
    + apply Qltb_true in E.
      destruct (IH (S i) x i) as (v & Hp & Hle & Hall).
      exists v. split; [|split; [lra | constructor; assumption]].
      right. destruct Hp as [[Hp ->]|[k [Hp Hk]]].
      * exists 0%nat. split; [lia | reflexivity].
      * exists (S k). split; [lia | exact Hk].
    + apply Qltb_false in E.
      destruct (IH (S i) best besti) as (v & Hp & Hle & Hall).
      exists v. split; [|split; [exact Hle | constructor; [lra | exact Hall]]].
      destruct Hp as [Hp|[k [Hp Hk]]]; [left; exact Hp|].
      right. exists (S k). split; [lia | exact Hk].
Qed.

(** [np.argmax] returns the position of a greatest element. *)
Lemma np_argmax_spec (l : list Q) (p : nat) :
  np_argmax l = OK p ->
  exists v, l !! p = Some v /\ Forall (fun x => (x <= v)%Q) l.
Proof.
  destruct l as [|x l]; [discriminate|]. intros [= <-].
  destruct (argmax_from_spec l 1 x 0) as (v & Hp & Hle & Hall).
  exists v. split; [|constructor; assumption].
  destruct Hp as [[-> ->]|[k [-> Hk]]]; [reflexivity | exact Hk].
Qed.

Lemma np_argmax0_cols_lookup (a : ndarray2) (js : list nat) (ps : list nat)
    (k j p : nat) :
  np_argmax0_cols a js = OK ps ->
  js !! k = Some j -> ps !! k = Some p ->
  np_argmax (column a j) = OK p.
Proof.
  revert ps k. induction js as [|j0 js IH]; intros ps k H Hj Hp; [discriminate|].
  cbn [np_argmax0_cols] in H. apply bind_OK in H as [p0 [Hp0 H]].
  apply bind_OK in H as [ps' [Hps' H]]. injection H as <-.
  destruct k as [|k]; cbn in Hj, Hp.
  - congruence.
  - exact (IH ps' k Hps' Hj Hp).
Qed.

Lemma column_lookup (a : ndarray2) (j r : nat) :
  (r < shape0 a)%nat -> column a j !! r = Some (entry a r j).
Proof.
  intros Hr. unfold column, entry. rewrite list_lookup_fmap.
  destruct (rows a !! r) as [row|] eqn:E; [reflexivity|].
  apply lookup_ge_None in E. unfold shape0 in Hr. lia.
Qed.

(** The peak amplitude of a channel is at least the filtered value at any
    crossing of the component on that channel where that value is
    positive. *)
Lemma peak_amplitude_of_crossing (self : WaveformExtractor)
    (component : list (Z * Z)) (data_t wave : ndarray2) (comp : Bunch)
    (s c : Z) :
  rect data_t ->
  _component self component (Z.of_nat (shape0 data_t)) = OK comp ->
  inside data_t component ->
  _comp_wave data_t comp = OK wave ->
  (s, c) ∈ component ->
  (0 < entry data_t (Z.to_nat s) (Z.to_nat c))%Q ->
  (entry data_t (Z.to_nat s) (Z.to_nat c)
   <= peak_amplitude data_t wave comp c)%Q.
Proof.
  intros Hr Hc Hin Hw Hsc Hpos.
  destruct (comp_wave_returns _ _ _ _ Hr Hc Hin) as (wave' & Hw' & Hw1 & Hw0 & _).
  rewrite Hw in Hw'. injection Hw' as <-.
  pose proof (inside_window _ _ _ _ Hc Hin) as Hwin.
  pose proof (component_inv _ _ _ _ Hc) as (_ & Hch & H0 & Hlt & Hmax & _).
  pose proof Hin as Hin'. unfold inside in Hin'.
  rewrite Forall_forall in Hin', Hwin.
  destruct (Hin' _ Hsc) as [Hs1 Hc1]. destruct (Hwin _ Hsc) as [Hs2 _].
  cbn [fst snd] in *.
  assert (Hcomp_ch : Forall (fun c => 0 <= c < Z.of_nat (shape1 data_t))
                            (comp_ch comp)).
  { rewrite Hch, Forall_forall. intros c' Hc'.
    apply list_elem_of_fmap in Hc' as [[s' c''] [-> Hsc']].
    apply (Hin' _ Hsc'). }
  destruct (peaks_values_returns data_t wave comp)
    as (pv & bin & ps & Hpv & Hpvl & Hbin & Hbinl & Hps & Hpsl & Hpall & Hent);
    try assumption; try lia.
  set (k := Z.to_nat c). set (r0 := Z.to_nat (s - s_min comp)).
  assert (Hk : (k < shape1 data_t)%nat) by (unfold k; lia).
  destruct (ps !! k) as [p|] eqn:Ep.
  2:{ apply lookup_ge_None in Ep. lia. }
  destruct (bin !! k) as [b|] eqn:Eb.
  2:{ apply lookup_ge_None in Eb. lia. }
  (* the channel is touched: its flag is set *)
  assert (Hb : b = true).
  { destruct (np_set_true_spec (np_unique (comp_ch comp))
                (replicate (shape1 data_t) false)) as (bin' & Hbin' & _ & Hspec).
    { rewrite length_replicate, Forall_forall. intros c' Hc'.
      rewrite Forall_forall in Hcomp_ch. apply Hcomp_ch, elem_of_np_unique, Hc'. }
    rewrite Hbin in Hbin'. injection Hbin' as <-.
    assert (bin !! k = Some true) as Ht.
    { apply Hspec. right. rewrite length_replicate. split; [exact Hk|].
      apply elem_of_np_unique. rewrite Hch. unfold k. rewrite Z2Nat.id by lia.
      apply list_elem_of_fmap. exists (s, c). split; [reflexivity | exact Hsc]. }
    congruence. }
  subst b.
  (* the peak is a greatest entry of the column *)
  assert (Hpl : (p < shape0 wave)%nat).
  { rewrite Forall_forall in Hpall. apply Hpall.
    eapply list_elem_of_lookup_2. exact Ep. }
  assert (Ham : np_argmax (column wave k) = OK p).
  { unfold np_argmax0 in Hps.
    apply (np_argmax0_cols_lookup wave _ ps k k p Hps); [|exact Ep].
    apply lookup_seq_lt. lia. }
  apply np_argmax_spec in Ham as (v & Hv & Hall).
  rewrite column_lookup in Hv by exact Hpl. injection Hv as <-.
  assert (Hr0 : (entry wave r0 k <= entry wave p k)%Q).
  { rewrite Forall_forall in Hall. apply Hall.
    eapply list_elem_of_lookup_2. apply column_lookup. unfold r0. lia. }
  destruct (comp_wave_entries self component data_t wave comp r0 k Hr Hc Hin Hw)
    as [Ht0 _].
  rewrite Ht0 in Hr0.
  2:{ apply Exists_exists. exists (s, c). split; [exact Hsc|]. split; reflexivity. }
  replace (r0 + Z.to_nat (s_min comp))%nat with (Z.to_nat s) in Hr0
    by (unfold r0; lia).
  fold k in Hpos, Hr0 |- *.
  destruct (comp_wave_entries self component data_t wave comp p k Hr Hc Hin Hw)
    as [Ht1 Ht2].
  destruct (decide (Exists (fun sc : Z * Z =>
                              Z.to_nat (sc.1 - s_min comp) = p
                              /\ Z.to_nat sc.2 = k) component)) as [Ht|Hnt].
  2:{ rewrite (Ht2 Hnt) in Hr0. lra. }
  rewrite (Ht1 Ht) in Hr0.
  unfold peak_amplitude. rewrite Hpv. fold k.
  rewrite (Hent k p true Ep Eb). cbn [default bool_to_Q].
  replace (Z.to_nat (Z.of_nat p + s_min comp))
    with (p + Z.to_nat (s_min comp))%nat by lia.
  unfold id. lra.
Qed.

Lemma foldl_Qmax_elem (x : Q) (l : list Q) : foldl Qmax x l ∈ x :: l.
Proof.
  revert x. induction l as [|y l IH]; intros x; cbn [foldl]; [left|].
  specialize (IH (Qmax x y)). apply elem_of_cons in IH as [E|IH].
  - rewrite E. unfold Qmax, GenericMinMax.gmax.
    destruct (x ?= y)%Q; [left | right; left | left].
  - right. right. exact IH.
Qed.

(** The amplitude of a channel is zero, when the component has no crossing
    on it, or the filtered value at one of the crossings. *)
Lemma trace_amplitude_cases (data_t : ndarray2) (component : list (Z * Z))
    (c : Z) :
  trace_amplitude data_t component c = 0%Q
  \/ exists s, (s, c) ∈ component
                /\ trace_amplitude data_t component c
                   = entry data_t (Z.to_nat s) (Z.to_nat c).
Proof.
  unfold trace_amplitude.
  destruct (crossing_values data_t component c) as [|x l] eqn:E;
    [left; reflexivity | right].
  pose proof (foldl_Qmax_elem x l) as Hin. rewrite <- E in Hin.
  unfold crossing_values in Hin.
  apply list_elem_of_fmap in Hin as [[s c'] [Heq Hf]].
  apply list_elem_of_In, filter_In in Hf as [Hsc Hp]. cbn [snd] in Hp.
  apply Z.eqb_eq in Hp. subst c'. exists s.
  split; [apply list_elem_of_In; exact Hsc | exact Heq].
Qed.

(** C2, as the code has it.  Let [weak < strong] and let the strong
    threshold be positive.  For a resolved component inside the trace whose
    amplitude on the filtered trace (the greatest filtered value among its
    crossings on the channel) is at or above the strong threshold on every
    member channel of its group, the mask is one on every member channel. *)
Theorem masks_all_ones (self : WaveformExtractor)
    (component : list (Z * Z)) (data_t wave : ndarray2) (comp : Bunch) :
  rect data_t ->
  _component self component (Z.of_nat (shape0 data_t)) = OK comp ->
  inside data_t component ->
  _comp_wave data_t comp = OK wave ->
  (weak (_thresholds self) < strong (_thresholds self))%Q ->
  (0 < strong (_thresholds self))%Q ->
  (forall c, c ∈ channels comp ->
             (strong (_thresholds self)
              <= trace_amplitude data_t component c)%Q) ->
  exists m,
    masks self data_t wave comp = OK m
    /\ length m = length (channels comp)
    /\ Forall (fun v => v == 1) m.
Proof.
  intros Hr Hc Hin Hw Hth Hpos Hamp.
  (* a member channel has a crossing, and so is a channel of the trace *)
  assert (Hchs : Forall (fun c => 0 <= c < Z.of_nat (shape1 data_t))
                        (channels comp)).
  { rewrite Forall_forall. intros c Hcin. specialize (Hamp c Hcin).
    destruct (trace_amplitude_cases data_t component c) as [E0|(s & Hsc & _)];
      [rewrite E0 in Hamp; lra|].
    pose proof Hin as Hin'. unfold inside in Hin'.
    rewrite Forall_forall in Hin'. exact (proj2 (Hin' _ Hsc)). }
  destruct (masks_pipeline self component data_t wave comp Hr Hc Hin Hw Hchs)
    as (m & Hm & Heq).
  exists m. split; [exact Hm|].
  split; [exact (proj1 (masks_partial _ _ _ _ _ Hm))|].
  rewrite Heq, Forall_fmap, Forall_forall. intros c Hcin. cbn.
  apply normalize_entry_strong; [exact Hth|].
  specialize (Hamp c Hcin).
  destruct (trace_amplitude_cases data_t component c) as [E0|(s & Hsc & Es)].
  - rewrite E0 in Hamp. lra.
  - rewrite Es in Hamp.
    pose proof (peak_amplitude_of_crossing self component data_t wave comp s c
                  Hr Hc Hin Hw Hsc) as Hp.
    assert (Hv : (0 < entry data_t (Z.to_nat s) (Z.to_nat c))%Q) by lra.
    specialize (Hp Hv). lra.
Qed.

Lemma masks_all_ones_witness :
  exists m,
    masks ex_extractor ex_data_t ex_wave ex_comp = OK m
    /\ length m = length (channels ex_comp)
    /\ Forall (fun v => v == 1) m.
Proof.
  apply (masks_all_ones ex_extractor ex_component ex_data_t ex_wave
           ex_comp ex_rect ex_resolved ex_inside ex_comp_wave ex_thresholds).
  - reflexivity.
  - intros c Hc. cbn in Hc.
    apply elem_of_cons in Hc as [->|Hc]; [vm_compute; discriminate|].
    apply elem_of_cons in Hc as [->|Hc]; [vm_compute; discriminate|].
    inversion Hc.
Defined.

(** X11.  When the component has, on every member channel of its group, a
    crossing whose filtered value is at or above a positive strong
    threshold, the mask is all ones. *)
Lemma masks_all_ones_of_crossings (self : WaveformExtractor)
    (component : list (Z * Z)) (data_t wave : ndarray2) (comp : Bunch) :
  rect data_t ->
  _component self component (Z.of_nat (shape0 data_t)) = OK comp ->
  inside data_t component ->
  _comp_wave data_t comp = OK wave ->
  Forall (fun c => 0 <= c < Z.of_nat (shape1 data_t)) (channels comp) ->
  (weak (_thresholds self) < strong (_thresholds self))%Q ->
  (0 < strong (_thresholds self))%Q ->
  (forall c, c ∈ channels comp ->
     exists s, (s, c) ∈ component
               /\ (strong (_thresholds self)
                   <= entry data_t (Z.to_nat s) (Z.to_nat c))%Q) ->
  exists m,
    masks self data_t wave comp = OK m
    /\ length m = length (channels comp)
    /\ Forall (fun v => v == 1) m.
Proof.
  intros Hr Hc Hin Hw Hchs Hth Hpos Hamp.
  destruct (masks_pipeline self component data_t wave comp Hr Hc Hin Hw Hchs)
    as (m & Hm & Heq).
  exists m. split; [exact Hm|].
  split; [exact (proj1 (masks_partial _ _ _ _ _ Hm))|].
  rewrite Heq, Forall_fmap, Forall_forall. intros c Hcin. cbn.
  destruct (Hamp c Hcin) as (s & Hsc & Hs).
  apply normalize_entry_strong; [exact Hth|].
  pose proof (peak_amplitude_of_crossing self component data_t wave comp s c
                Hr Hc Hin Hw Hsc) as Hp.
  lra.
Qed.

(** With a strong threshold that is not positive, the peak of a channel can
    fall on a sample outside the component, where the sparse waveform is
    zero.  The component has one crossing, at sample 1 of channel 0, with
    the filtered value [-1/2]; it lies inside the trace and its amplitude
    on the only member channel is above the strong threshold [-1].  The
    peak is found at sample 0, where the trace has the value [-5], and the
    mask is 0, not 1. *)
Lemma masks_nonpositive_strong :
  let self :=
    WaveformExtractor_init 2 3 None (Thresholds (-2) (-1)) [(0, [0])] in
  let data_t := Array2 1 [[-5]; [-1 # 2]]%Q in
  let component := [(1, 0)] in
  exists comp wave,
    _component self component (Z.of_nat (shape0 data_t)) = OK comp
    /\ _comp_wave data_t comp = OK wave
    /\ inside data_t component
    /\ (weak (_thresholds self) < strong (_thresholds self))%Q
    /\ (forall c, c ∈ channels comp ->
                  (strong (_thresholds self)
                   <= trace_amplitude data_t component c)%Q)
    /\ masks self data_t wave comp = OK [0%Q]
    /\ ~ Forall (fun v => v == 1) [0%Q].
Proof.
  eexists _, _. split; [vm_compute; reflexivity|].
  split; [vm_compute; reflexivity|].
  split; [unfold inside; repeat constructor; cbn; lia|].
  split; [reflexivity|]. split; [|split].
  - intros c Hc. cbn in Hc. apply list_elem_of_singleton in Hc. subst c.
    vm_compute. discriminate.
  - vm_compute. reflexivity.
  - intros H. inversion H as [|? ? H1 _]. vm_compute in H1. discriminate.
Qed.

(** *** Loading one waveform *)

Lemma slice_bound_le (n : nat) (i : Z) : (slice_bound n i <= n)%nat.
Proof. unfold slice_bound. destruct (Z.ltb_spec i 0); lia. Qed.

Lemma length_py_slice {A : Type} (l : list A) (a b : Z) :
  length (py_slice l (Some a) (Some b))
  = (slice_bound (length l) b - slice_bound (length l) a)%nat.
Proof.
  unfold py_slice. cbn [from_option]. rewrite length_take, length_drop.
  pose proof (slice_bound_le (length l) b). lia.
Qed.

(** A loader built on a buffer, without a filter and without a channel
    subset, whose filter margin has a part after the window or no part
    before it (every margin given as one count is of this kind), loads
    every time inside the buffer. *)
Lemma load_at_returns (self : WaveformLoader) (traces : ndarray2)
    (nb na mb ma : Z) (time : Z) :
  _traces self = Some traces ->
  n_samples_trace self = Z.of_nat (shape0 traces) ->
  n_channels_traces self = Some (shape1 traces) ->
  _filter self = None ->
  _channels self = None ->
  n_samples_before_after self = (nb, na) ->
  _filter_margin self = (mb, ma) ->
  n_samples_waveforms self = nb + na ->
  _n_samples_extract self = nb + na + (mb + ma) ->
  0 <= nb -> 0 <= na -> 0 <= mb -> 0 <= ma ->
  (0 < ma \/ mb = 0) ->
  in_range self time = true ->
  exists wv, _load_at self time = OK wv.
Proof.
  intros Htr Hns Hnc Hf Hch Hba Hfm Hnsw Hne Hnb Hna Hmb Hma Hmargin Hr.
  unfold in_range in Hr. apply andb_true_iff in Hr as [Hr0 Hr1].
  apply Z.leb_le in Hr0. apply Z.ltb_lt in Hr1.
  unfold _load_at. cbv zeta.
  replace (negb _) with false
    by (symmetry; apply negb_false_iff, andb_true_iff;
        split; [apply Z.leb_le | apply Z.ltb_lt]; assumption).
  rewrite Htr, Hba, Hfm, Hf, Hch.
  set (t := time - _offset self) in *.
  change (_slice t (nb, na) (Some (mb, ma)))
    with (Slice (Z.max 0 (t - (nb + mb))) (t + (na + ma))).
  cbn [start stop].
  set (a := Z.max 0 (t - (nb + mb))). set (b := t + (na + ma)).
  set (ex0 := slice_rows traces (Some a) (Some b)).
  assert (Hex0 : Z.of_nat (shape0 ex0)
                 = Z.min b (Z.of_nat (shape0 traces)) - a).
  { unfold ex0, slice_rows, shape0. cbn [rows].
    rewrite length_py_slice. unfold slice_bound, shape0 in *.
    destruct (Z.ltb_spec b 0); [lia|]. destruct (Z.ltb_spec a 0); lia. }
  set (ex1 := if a <=? 0 then _pad ex0 (_n_samples_extract self) left
              else if b >=? n_samples_trace self - 1
                   then _pad ex0 (_n_samples_extract self) right
                   else ex0).
  assert (Hex1 : Z.of_nat (shape0 ex1) = _n_samples_extract self
                 /\ shape1 ex1 = shape1 traces).
  { unfold ex1. destruct (Z.leb_spec a 0).
    - unfold _pad, shape0. cbn [rows shape1]. split; [|reflexivity].
      rewrite length_app, length_replicate. unfold shape0 in Hex0. lia.
    - destruct (Z.geb_spec b (n_samples_trace self - 1)).
      + unfold _pad, shape0. cbn [rows shape1]. split; [|reflexivity].
        rewrite length_app, length_replicate. unfold shape0 in Hex0. lia.
      + split; [lia | reflexivity]. }
  destruct Hex1 as [Hex1 Hex1w].
  fold ex1. rewrite (proj2 (Z.eqb_eq _ _) Hex1).
  cbn [assert mbind result_bind].
  unfold n_channels_waveforms. rewrite Hch, Hnc.
  destruct (Z.gtb_spec ma 0) as [Hpos|Hzero].
  - destruct (Z.geb_spec mb 0); [|lia]. cbn [assert mbind result_bind].
    unfold_ret. cbn [mbind result_bind].
    set (out := slice_rows ex1 (Some mb) (Some (- ma))).
    assert (Hout : Z.of_nat (shape0 out) = n_samples_waveforms self).
    { unfold out, slice_rows, shape0. cbn [rows].
      rewrite length_py_slice. unfold slice_bound, shape0 in *.
      destruct (Z.ltb_spec (- ma) 0); [|lia].
      destruct (Z.ltb_spec mb 0); lia. }
    rewrite (proj2 (Z.eqb_eq _ _) Hout).
    replace (shape1 out =? shape1 traces)%nat with true
      by (symmetry; apply Nat.eqb_eq; unfold out; cbn; exact Hex1w).
    cbn. eexists. reflexivity.
  - unfold_ret. cbn [mbind result_bind].
    assert (Hout : Z.of_nat (shape0 ex1) = n_samples_waveforms self)
      by (destruct Hmargin; lia).
    rewrite (proj2 (Z.eqb_eq _ _) Hout).
    replace (shape1 ex1 =? shape1 traces)%nat with true
      by (symmetry; apply Nat.eqb_eq; exact Hex1w).
    cbn. eexists. reflexivity.
Qed.

(** With a margin before the window and none after it, the margin is not
    removed and the final assertion of [_load_at] fails for a time inside
    the buffer; the batch call does not catch this exception. *)
Lemma load_at_margin_before_only :
  exists loader,
    WaveformLoader_init (Some (Array2 1 [[1]; [2]; [3]; [4]; [5]; [6]]%Q)) 0
                        None (BeforeAfter [1; 0]) (Some (BeforeAfter [1; 1]))
                        None None None
    = OK loader
    /\ _load_at loader 3 = Raise AssertionError
    /\ getitem loader (fun _ _ _ => 0%Q) (ItemList [3])
       = (Raise AssertionError, []).
Proof.
  eexists. split; [reflexivity|]. split; vm_compute; reflexivity.
Qed.

(** On an empty buffer every time is outside [[0, buffer_length)], and the
    batch call returns zeros before it looks at any time: no warning is
    logged for the invalid entry. *)
Lemma getitem_empty_buffer_logs_nothing :
  exists loader,
    WaveformLoader_init (Some (Array2 1 [])) 0 None (Count 0) (Some (Count 4))
                        None None None
    = OK loader
    /\ in_range loader 5 = false
    /\ getitem loader (fun _ _ _ => 7%Q) (ItemList [5])
       = (OK (np_zeros3 1 4 1), []).
Proof.
  eexists. split; [reflexivity|]. split; reflexivity.
Qed.

(** ** Further properties of the code *)

(** *** The padding utility, inside and outside its contract *)

Lemma padded_row_length (data : ndarray2) (i : Z) :
  rect data -> length (padded_row data i) = shape1 data.
Proof.
  intros Hr. unfold padded_row.
  destruct ((0 <=? i) && (i <? Z.of_nat (shape0 data))).
  - destruct (rows data !! Z.to_nat i) as [row|] eqn:E.
    + exact (rect_lookup data _ _ Hr E).
    + apply length_replicate.
  - apply length_replicate.
Qed.

(** X1.  Where the guard lets the call through, with ordered bounds, an end
    that is not negative and a start that is not past the array,
    [_get_padded] returns the range of the docstring: [end - start] rows of
    the width of [data], the rows of [data] at the indices inside the array
    and rows of zeros at the others. *)
Theorem get_padded_zero_padded (data : ndarray2) (start end_ : Z) :
  rect data ->
  ~ (start < 0 /\ Z.of_nat (shape0 data) <= end_) ->
  start <= end_ -> 0 <= end_ -> start <= Z.of_nat (shape0 data) ->
  exists out,
    _get_padded data start end_ = OK out
    /\ Z.of_nat (shape0 out) = end_ - start
    /\ shape1 out = shape1 data
    /\ rect out
    /\ forall k, (Z.of_nat k < end_ - start) ->
         rows out !! k = Some (padded_row data (start + Z.of_nat k)).
Proof.
  intros Hr Hg Hse He Hs. exists (padded_contract data start end_).
  split; [apply get_padded_contract; assumption|].
  unfold padded_contract, shape0. cbn [rows shape1].
  split; [rewrite length_map, length_seq; lia|]. split; [reflexivity|]. split.
  - unfold rect. cbn [rows shape1]. rewrite Forall_fmap, Forall_forall.
    intros k _. apply padded_row_length, Hr.
  - intros k Hk. apply (lookup_map_seq_Z (padded_row data)). lia.
Qed.

Lemma get_padded_zero_padded_witness :
  exists out,
    _get_padded (Array2 1 [[1]; [2]; [3]]%Q) (-2) 2 = OK out
    /\ Z.of_nat (shape0 out) = 2 - (-2)
    /\ shape1 out = 1%nat
    /\ rect out
    /\ forall k, (Z.of_nat k < 2 - (-2)) ->
         rows out !! k
         = Some (padded_row (Array2 1 [[1]; [2]; [3]]%Q) (-2 + Z.of_nat k)).
Proof.
  apply (get_padded_zero_padded (Array2 1 [[1]; [2]; [3]]%Q) (-2) 2).
  - unfold rect. repeat constructor.
  - cbn. lia.
  - lia.
  - lia.
  - cbn. lia.
Defined.

(** X2.  With a negative start and a negative end, the end is taken as a
    Python slice bound and counts from the end of the array: the result is
    [-start] rows of zeros followed by the first [length + end] rows of
    [data], which is [length] rows more than [end - start] whenever [-end]
    is at most the length. *)
Theorem get_padded_negative_end (data : ndarray2) (start end_ : Z) :
  start < 0 -> end_ < 0 ->
  exists out,
    _get_padded data start end_ = OK out
    /\ rows out
       = replicate (Z.to_nat (- start)) (replicate (shape1 data) 0%Q)
         ++ take (Z.to_nat (Z.of_nat (shape0 data) + end_)) (rows data)
    /\ (- Z.of_nat (shape0 data) <= end_ ->
        Z.of_nat (shape0 out) = end_ - start + Z.of_nat (shape0 data)).
Proof.
  intros Hs He. unfold _get_padded.
  destruct (Z.ltb_spec start 0); [|lia].
  destruct (Z.geb_spec end_ (Z.of_nat (shape0 data))); [lia|].
  cbn [andb]. unfold np_zeros2. destruct (Z.ltb_spec (- start) 0); [lia|].
  cbn [mbind result_bind]. eexists. split; [reflexivity|].
  unfold np_vstack, slice_rows, py_slice, slice_bound, shape0.
  cbn [rows shape1 from_option].
  destruct (Z.ltb_spec end_ 0); [|lia].
  rewrite drop_0, Nat.sub_0_r.
  replace (Z.to_nat (Z.max (end_ + Z.of_nat (length (rows data))) 0))
    with (Z.to_nat (Z.of_nat (length (rows data)) + end_)) by lia.
  split; [reflexivity|]. intros Hn.
  rewrite length_app, length_replicate, length_take. lia.
Qed.

Lemma get_padded_negative_end_witness :
  exists out,
    _get_padded (Array2 1 [[1]; [2]; [3]]%Q) (-5) (-2) = OK out
    /\ rows out
       = replicate (Z.to_nat (- -5)) (replicate 1 0%Q)
         ++ take (Z.to_nat (3 + -2)) [[1]; [2]; [3]]%Q
    /\ (- 3 <= -2 -> Z.of_nat (shape0 out) = -2 - -5 + 3).
Proof.
  apply (get_padded_negative_end (Array2 1 [[1]; [2]; [3]]%Q) (-5) (-2)); lia.
Defined.

(** *** Resolving a component: the group, and when it is refused *)

Lemma derived_dicts_consistent (L cpg : list (Z * list Z))
    (d1 : gmap Z (list Z)) (d2 : gmap Z Z) :
  (forall gc, gc ∈ cpg -> gc ∈ L) ->
  (forall ch, match d1 !! ch, d2 !! ch with
              | Some chs, Some g => (g, chs) ∈ L /\ ch ∈ chs
              | None, None => True
              | _, _ => False
              end) ->
  forall ch,
    match foldl (fun d gc => foldl (fun d' i => <[i := gc.2]> d') d gc.2)
                d1 cpg !! ch,
          foldl (fun d gc => foldl (fun d' i => <[i := gc.1]> d') d gc.2)
                d2 cpg !! ch with
    | Some chs, Some g => (g, chs) ∈ L /\ ch ∈ chs
    | None, None => True
    | _, _ => False
    end.
Proof.
  revert d1 d2. induction cpg as [|gc cpg IH]; intros d1 d2 HL Hd ch.
  - exact (Hd ch).
  - cbn [foldl]. apply IH.
    + intros gc' Hin. apply HL. right. exact Hin.
    + intros ch'. rewrite !insert_all_lookup.
      destruct (decide (ch' ∈ gc.2)) as [Hin|Hin]; [|exact (Hd ch')].
      split; [|exact Hin]. destruct gc as [g chs]. apply HL. left.
Qed.

(** X3.  The group and the member channels of a resolved component belong
    together: the pair is an entry of [channels_per_group], and the first
    channel of the component is one of the member channels. *)
Theorem component_group_consistent (eb ea : Z) (wp : option nat)
    (th : thresholds) (cpg : list (Z * list Z)) (component : list (Z * Z))
    (n_samples : Z) (comp : Bunch) :
  _component (WaveformExtractor_init eb ea wp th cpg) component n_samples
  = OK comp ->
  (group comp, channels comp) ∈ cpg
  /\ exists s0 ch0 rest,
       component = (s0, ch0) :: rest /\ ch0 ∈ channels comp.
Proof.
  destruct component as [|[s0 ch0] rest]; [discriminate|].
  unfold _component. cbv zeta. rewrite !fmap_cons. cbn [fst snd].
  rewrite np_getitem_head.
  cbn [mbind result_bind _dep_channels _channel_groups WaveformExtractor_init].
  pose proof (derived_dicts_consistent cpg cpg ∅ ∅ (fun _ H => H)) as Hc.
  specialize (Hc (fun ch => ltac:(rewrite !lookup_empty; exact I)) ch0).
  fold (dep_channels_of cpg) in Hc. fold (channel_groups_of cpg) in Hc.
  destruct (dep_channels_of cpg !! ch0) as [chs|]; [|discriminate].
  destruct (channel_groups_of cpg !! ch0) as [g|]; [|contradiction].
  cbn [np_min np_max mbind result_bind].
  destruct (Z.ltb _ _); [|discriminate].
  cbn [assert mbind result_bind]. unfold_ret. intros [= <-].
  cbn [group channels]. destruct Hc as [H1 H2]. split; [exact H1|].
  exists s0, ch0, rest. split; [reflexivity | exact H2].
Qed.

Lemma component_group_consistent_witness :
  (group ex_comp, channels ex_comp) ∈ [(0, [0; 1])]
  /\ exists s0 ch0 rest,
       ex_component = (s0, ch0) :: rest /\ ch0 ∈ channels ex_comp.
Proof.
  exact (component_group_consistent 2 3 None (Thresholds 2 10) [(0, [0; 1])]
           ex_component 8 ex_comp ex_resolved).
Defined.

(** X4.  A component that is not empty, whose first channel belongs to a
    group and whose samples leave room for the two offsets in their 64-bit
    integer type, is refused, with the failed assertion on the window,
    exactly when all of its samples are at most -4, or its least sample is
    at least [n_samples + 3], or the trace is empty; in every other case it
    is resolved, also when some of its samples lie outside the trace. *)
Theorem component_refused_iff (eb ea : Z) (wp : option nat) (th : thresholds)
    (cpg : list (Z * list Z)) (s0 ch0 : Z) (rest : list (Z * Z))
    (n_samples lo hi : Z) :
  (exists gc, gc ∈ cpg /\ ch0 ∈ gc.2) ->
  (lo ∈ s0 :: rest.*1 /\ forall s, s ∈ s0 :: rest.*1 -> lo <= s) ->
  (hi ∈ s0 :: rest.*1 /\ forall s, s ∈ s0 :: rest.*1 -> s <= hi) ->
  fits_int64 (lo - 3) -> fits_int64 (hi + 4) ->
  let r := _component (WaveformExtractor_init eb ea wp th cpg)
                      ((s0, ch0) :: rest) n_samples in
  (r = Raise AssertionError
   <-> hi <= -4 \/ n_samples + 3 <= lo \/ n_samples <= 0)
  /\ (~ (hi <= -4 \/ n_samples + 3 <= lo \/ n_samples <= 0) ->
      exists comp, r = OK comp
                   /\ s_min comp = Z.max (lo - 3) 0
                   /\ s_max comp = Z.min (hi + 4) n_samples).
Proof.
  intros [gc [Hgc Hch]] [Hlo1 Hlo2] [Hhi1 Hhi2] _ _ r.
  destruct (foldl_min_spec s0 rest.*1) as [Hm1 Hm2].
  destruct (foldl_max_spec s0 rest.*1) as [HM1 HM2].
  assert (Elo : foldl Z.min s0 rest.*1 = lo).
  { pose proof (Hlo2 _ Hm1). pose proof (Hm2 _ Hlo1). lia. }
  assert (Ehi : foldl Z.max s0 rest.*1 = hi).
  { pose proof (Hhi2 _ HM1). pose proof (HM2 _ Hhi1). lia. }
  assert (Hlh : lo <= hi) by (apply Hlo2, Hhi1).
  destruct (dep_channels_of cpg !! ch0) as [chs|] eqn:Edep.
  2:{ exfalso. exact (proj1 (dead_channel_iff cpg ch0) Edep gc Hgc Hch). }
  destruct (channel_groups_of cpg !! ch0) as [g|] eqn:Egrp.
  2:{ exfalso. exact (proj1 (no_group_iff cpg ch0) Egrp gc Hgc Hch). }
  assert (Er : r = if Z.max (lo - 3) 0 <? Z.min (hi + 4) n_samples
                   then OK {| comp_s := s0 :: rest.*1;
                              comp_ch := ch0 :: rest.*2;
                              s_min := Z.max (lo - 3) 0;
                              s_max := Z.min (hi + 4) n_samples;
                              channels := chs; group := g |}
                   else Raise AssertionError).
  { unfold r, _component. cbv zeta. rewrite !fmap_cons. cbn [fst snd].
    rewrite np_getitem_head.
    cbn [mbind result_bind _dep_channels _channel_groups
         WaveformExtractor_init].
    rewrite Edep, Egrp. cbn [np_min np_max mbind result_bind].
    rewrite Elo, Ehi. destruct (Z.ltb _ _); reflexivity. }
  rewrite Er.
  destruct (Z.ltb_spec (Z.max (lo - 3) 0) (Z.min (hi + 4) n_samples)).
  - split; [split; [discriminate | lia]|].
    intros _. eexists. split; [reflexivity|]. split; reflexivity.
  - split; [split; [lia | reflexivity]|]. intros Hn. lia.
Qed.

Lemma component_refused_iff_witness :
  let r := _component (WaveformExtractor_init 2 3 None (Thresholds 2 10)
                                              [(0, [0; 1])])
                      [(11, 0); (10, 1)] 10 in
  (r = Raise AssertionError <-> 11 <= -4 \/ 10 + 3 <= 10 \/ 10 <= 0)
  /\ (~ (11 <= -4 \/ 10 + 3 <= 10 \/ 10 <= 0) ->
      exists comp, r = OK comp
                   /\ s_min comp = Z.max (10 - 3) 0
                   /\ s_max comp = Z.min (11 + 4) 10).
Proof.
  apply (component_refused_iff 2 3 None (Thresholds 2 10) [(0, [0; 1])]
           11 0 [(10, 1)] 10 10 11).
  - exists (0, [0; 1]). split; [left | left].
  - split; [right; left|]. intros s Hs. cbn in Hs.
    repeat (apply elem_of_cons in Hs as [->|Hs]; [lia|]). inversion Hs.
  - split; [left|]. intros s Hs. cbn in Hs.
    repeat (apply elem_of_cons in Hs as [->|Hs]; [lia|]). inversion Hs.
  - unfold fits_int64, int64_min, int64_max. lia.
  - unfold fits_int64, int64_min, int64_max. lia.
Defined.

(** *** The sparse waveform *)

Lemma np_index_raises (n : nat) (i : Z) (e : exn) :
  np_index n i = Raise e -> e = IndexError.
Proof.
  unfold np_index. destruct (_ && _); [discriminate|].
  destruct (_ && _); [discriminate|]. intros [= <-]. reflexivity.
Qed.

Lemma np_get2_raises (a : ndarray2) (i j : Z) (e : exn) :
  np_get2 a i j = Raise e -> e = IndexError.
Proof.
  unfold np_get2. intros H.
  destruct (np_index (shape0 a) i) as [r|e1] eqn:E1; cbn [mbind result_bind] in H.
  - destruct (np_index (shape1 a) j) as [c|e2] eqn:E2;
      cbn [mbind result_bind] in H.
    + destruct (rows a !! r ≫= _); [discriminate|]. congruence.
    + injection H as <-. exact (np_index_raises _ _ _ E2).
  - injection H as <-. exact (np_index_raises _ _ _ E1).
Qed.

Lemma np_get2_past_end (a : ndarray2) (i j : Z) :
  Z.of_nat (shape0 a) <= i -> np_get2 a i j = Raise IndexError.
Proof.
  intros Hi. unfold np_get2, np_index.
  destruct (Z.leb_spec 0 i); [|lia].
  destruct (Z.ltb_spec i (Z.of_nat (shape0 a))); [lia|]. cbn [andb].
  destruct (Z.ltb_spec i 0); [lia|]. rewrite andb_false_r. reflexivity.
Qed.

Lemma np_gather2_past_end (a : ndarray2) (ij : list (Z * Z)) (i j : Z) :
  (i, j) ∈ ij -> Z.of_nat (shape0 a) <= i ->
  np_gather2 a ij = Raise IndexError.
Proof.
  intros Hin Hi. induction ij as [|[i0 j0] ij IH]; [inversion Hin|].
  cbn [np_gather2]. destruct (np_get2 a i0 j0) as [v|e] eqn:E.
  - cbn [mbind result_bind].
    apply elem_of_cons in Hin as [Heq|Hin].
    + injection Heq as <- <-. rewrite np_get2_past_end in E by exact Hi.
      discriminate.
    + rewrite (IH Hin). reflexivity.
  - cbn [mbind result_bind]. f_equal. exact (np_get2_raises _ _ _ _ E).
Qed.

(** X5.  A component with a sample at or past the end of the filtered trace
    can be resolved (the window is clipped to the trace), and building its
    sparse waveform then raises [IndexError]: the sample is read from the
    trace before anything is written. *)
Theorem comp_wave_sample_past_end (self : WaveformExtractor)
    (component : list (Z * Z)) (data_t : ndarray2) (comp : Bunch) (s c : Z) :
  _component self component (Z.of_nat (shape0 data_t)) = OK comp ->
  (s, c) ∈ component ->
  Z.of_nat (shape0 data_t) <= s ->
  _comp_wave data_t comp = Raise IndexError.
Proof.
  intros Hc Hsc Hs.
  pose proof (component_inv _ _ _ _ Hc) as (Hcs & Hch & H0 & Hlt & _).
  unfold _comp_wave, np_zeros2.
  destruct (Z.ltb_spec (s_max comp - s_min comp) 0); [lia|].
  cbn [mbind result_bind]. rewrite Hcs, Hch, zip_fst_snd.
  rewrite (np_gather2_past_end data_t component s c Hsc Hs). reflexivity.
Qed.

Lemma comp_wave_sample_past_end_witness :
  exists comp,
    _component ex_extractor [(7, 0); (8, 0)] (Z.of_nat (shape0 ex_data_t))
    = OK comp
    /\ _comp_wave ex_data_t comp = Raise IndexError.
Proof.
  eexists. split; [vm_compute; reflexivity|].
  apply (comp_wave_sample_past_end ex_extractor [(7, 0); (8, 0)] ex_data_t _
           8 0).
  - vm_compute. reflexivity.
  - right. left.
  - cbn. lia.
Defined.

(** X6.  The sparse waveform of a resolved component inside the trace has
    one row for each sample of the window and one column for each channel
    of the trace; its entry at relative sample [r] and channel [c] is the
    filtered value at that sample and channel when the pair is a crossing
    of the component, and zero otherwise. *)
Theorem comp_wave_sparse (self : WaveformExtractor)
    (component : list (Z * Z)) (data_t : ndarray2) (comp : Bunch) :
  rect data_t ->
  _component self component (Z.of_nat (shape0 data_t)) = OK comp ->
  inside data_t component ->
  exists wave,
    _comp_wave data_t comp = OK wave
    /\ Z.of_nat (shape0 wave) = s_max comp - s_min comp
    /\ shape1 wave = shape1 data_t
    /\ rect wave
    /\ forall r c : nat,
         entry wave r c
         = if decide ((s_min comp + Z.of_nat r, Z.of_nat c) ∈ component)
           then entry data_t (Z.to_nat (s_min comp + Z.of_nat r)) c
           else 0%Q.
Proof.
  intros Hr Hc Hin.
  destruct (comp_wave_returns _ _ _ _ Hr Hc Hin) as (wave & Hw & Hw1 & Hw0 & Hwr).
  pose proof (component_inv _ _ _ _ Hc) as (_ & _ & H0 & Hlt & _).
  pose proof (inside_window _ _ _ _ Hc Hin) as Hwin.
  exists wave. split; [exact Hw|]. split; [lia|]. split; [exact Hw1|].
  split; [exact Hwr|]. intros r c.
  destruct (comp_wave_entries self component data_t wave comp r c Hr Hc Hin Hw)
    as [Ht Hn].
  assert (Hiff : Exists (fun sc : Z * Z =>
                           Z.to_nat (sc.1 - s_min comp) = r
                           /\ Z.to_nat sc.2 = c) component
                 <-> (s_min comp + Z.of_nat r, Z.of_nat c) ∈ component).
  { rewrite Exists_exists. rewrite Forall_forall in Hwin. split.
    - intros ([s ch] & Hsc & H1 & H2). cbn [fst snd] in *.
      destruct (Hwin _ Hsc) as [Hs1 Hs2]. cbn [fst snd] in *.
      replace (s_min comp + Z.of_nat r) with s by lia.
      replace (Z.of_nat c) with ch by lia. exact Hsc.
    - intros Hsc. eexists. split; [exact Hsc|]. cbn [fst snd]. lia. }
  destruct (decide ((s_min comp + Z.of_nat r, Z.of_nat c) ∈ component))
    as [Hd|Hd].
  - rewrite Ht by (apply Hiff; exact Hd). f_equal. lia.
  - apply Hn. rewrite Hiff. exact Hd.
Qed.

Lemma comp_wave_sparse_witness :
  exists wave,
    _comp_wave ex_data_t ex_comp = OK wave
    /\ Z.of_nat (shape0 wave) = s_max ex_comp - s_min ex_comp
    /\ shape1 wave = shape1 ex_data_t
    /\ rect wave
    /\ forall r c : nat,
         entry wave r c
         = if decide ((s_min ex_comp + Z.of_nat r, Z.of_nat c) ∈ ex_component)
           then entry ex_data_t (Z.to_nat (s_min ex_comp + Z.of_nat r)) c
           else 0%Q.
Proof.
  exact (comp_wave_sparse ex_extractor ex_component ex_data_t ex_comp
           ex_rect ex_resolved ex_inside).
Defined.

(** *** Normalization: shape of the map, units, and a reversed pair *)

Lemma np_clip_compat (x y : Q) : x == y -> np_clip x 0 1 == np_clip y 0 1.
Proof.
  intros H. unfold np_clip. apply Q.min_compat; [|reflexivity].
  apply Q.max_compat; [exact H | reflexivity].
Qed.

Lemma np_clip_mono (x y : Q) : (x <= y)%Q -> (np_clip x 0 1 <= np_clip y 0 1)%Q.
Proof.
  intros H. unfold np_clip. apply Q.min_le_compat_r, Q.max_le_compat_r, H.
Qed.

Lemma np_clip_inside (x : Q) : (0 <= x)%Q -> (x <= 1)%Q -> np_clip x 0 1 == x.
Proof.
  intros H0 H1. unfold np_clip. rewrite (Q.max_l x 0) by exact H0.
  apply Q.min_l. exact H1.
Qed.

(** X7.  With [weak < strong], normalization is the clipped line through
    [(weak, 0)] and [(strong, 1)]: zero up to the weak threshold, one from
    the strong threshold on, [(x - weak) / (strong - weak)] in between, and
    nowhere decreasing. *)
Theorem normalize_piecewise (th : thresholds) (x : Q) :
  (weak th < strong th)%Q ->
  ((x <= weak th)%Q -> normalize_entry th x == 0)
  /\ ((strong th <= x)%Q -> normalize_entry th x == 1)
  /\ ((weak th <= x)%Q -> (x <= strong th)%Q ->
      normalize_entry th x == (x - weak th) / (strong th - weak th))
  /\ (forall y, (x <= y)%Q -> (normalize_entry th x <= normalize_entry th y)%Q).
Proof.
  intros Hth. split; [apply normalize_entry_weak, Hth|].
  split; [apply normalize_entry_strong, Hth|]. split.
  - intros H0 H1. unfold normalize_entry. apply np_clip_inside.
    + apply Qle_shift_div_l; lra.
    + apply Qle_shift_div_r; lra.
  - intros y Hxy. unfold normalize_entry. apply np_clip_mono.
    unfold Qdiv. apply Qmult_le_compat_r; [lra|].
    apply Qinv_le_0_compat. lra.
Qed.

Lemma normalize_piecewise_witness :
  ((5 <= 2)%Q -> normalize_entry (Thresholds 2 10) 5 == 0)
  /\ ((10 <= 5)%Q -> normalize_entry (Thresholds 2 10) 5 == 1)
  /\ ((2 <= 5)%Q -> (5 <= 10)%Q ->
      normalize_entry (Thresholds 2 10) 5 == (5 - 2) / (10 - 2))
  /\ (forall y, (5 <= y)%Q ->
        (normalize_entry (Thresholds 2 10) 5
         <= normalize_entry (Thresholds 2 10) y)%Q).
Proof.
  apply (normalize_piecewise (Thresholds 2 10) 5). reflexivity.
Defined.

(** X8.  Normalization does not depend on the unit or the origin of the
    amplitudes: scaling the value and both thresholds by the same non-zero
    factor and shifting them by the same offset leaves the result
    unchanged. *)
Theorem normalize_affine_invariant (th : thresholds) (k d x : Q) :
  ~ weak th == strong th -> ~ k == 0 ->
  normalize_entry (Thresholds (k * weak th + d) (k * strong th + d))
                  (k * x + d)
  == normalize_entry th x.
Proof.
  intros Hth Hk. unfold normalize_entry. cbn [weak strong].
  apply np_clip_compat. field. split.
  - intros H. apply Hth. lra.
  - intros H.
    assert (H0 : k * (strong th - weak th) == 0) by lra.
    apply Qmult_integral in H0 as [H0|H0]; [exact (Hk H0) | apply Hth; lra].
Qed.

Lemma normalize_affine_invariant_witness :
  normalize_entry (Thresholds (1000 * 2 + 7) (1000 * 10 + 7)) (1000 * 5 + 7)
  == normalize_entry (Thresholds 2 10) 5.
Proof.
  apply (normalize_affine_invariant (Thresholds 2 10) 1000 7 5);
    cbn; intros H; discriminate H.
Defined.

(** X9.  Nothing checks the order of the thresholds.  With [strong < weak] the
    map is reversed: a value at or above the weak threshold is normalized
    to zero and a value at or below the strong threshold to one. *)
Theorem normalize_reversed_pair (th : thresholds) (x : Q) :
  (strong th < weak th)%Q ->
  ((weak th <= x)%Q -> normalize_entry th x == 0)
  /\ ((x <= strong th)%Q -> normalize_entry th x == 1).
Proof.
  intros Hth.
  assert (E : normalize_entry th x
              == normalize_entry (Thresholds (- weak th) (- strong th)) (- x)).
  { unfold normalize_entry. cbn [weak strong]. apply np_clip_compat.
    field. lra. }
  rewrite E. split; intros Hx.
  - apply normalize_entry_weak; cbn [weak strong]; lra.
  - apply normalize_entry_strong; cbn [weak strong]; lra.
Qed.

Lemma normalize_reversed_pair_witness :
  ((10 <= 20)%Q -> normalize_entry (Thresholds 10 2) 20 == 0)
  /\ ((20 <= 2)%Q -> normalize_entry (Thresholds 10 2) 20 == 1).
Proof.
  apply (normalize_reversed_pair (Thresholds 10 2) 20). reflexivity.
Defined.

(** *** Masks of quiet and of untouched channels *)

Lemma peak_amplitude_untouched (data_t wave : ndarray2) (comp : Bunch) (c : Z) :
  rect data_t ->
  (0 < shape0 wave)%nat ->
  shape1 wave = shape1 data_t ->
  0 <= s_min comp ->
  s_min comp + Z.of_nat (shape0 wave) <= Z.of_nat (shape0 data_t) ->
  Forall (fun c => 0 <= c < Z.of_nat (shape1 data_t)) (comp_ch comp) ->
  0 <= c < Z.of_nat (shape1 data_t) ->
  c ∉ comp_ch comp ->
  peak_amplitude data_t wave comp c == 0.
Proof.
  intros Hr Hpos Hw Hs0 Hs1 Hch Hc Hnot.
  destruct (peaks_values_returns data_t wave comp Hr Hpos Hw Hs0 Hs1 Hch)
    as (pv & bin & ps & Hpv & Hpvl & Hbin & Hbinl & Hps & Hpsl & Hpall & Hent).
  set (k := Z.to_nat c).
  assert (Hk : (k < shape1 data_t)%nat) by (unfold k; lia).
  destruct (ps !! k) as [p|] eqn:Ep.
  2:{ apply lookup_ge_None in Ep. lia. }
  destruct (bin !! k) as [b|] eqn:Eb.
  2:{ apply lookup_ge_None in Eb. lia. }
  assert (Hb : b = false).
  { destruct b; [|reflexivity]. exfalso.
    destruct (np_set_true_spec (np_unique (comp_ch comp))
                (replicate (shape1 data_t) false)) as (bin' & Hbin' & _ & Hspec).
    { rewrite length_replicate, Forall_forall. intros c' Hc'.
      rewrite Forall_forall in Hch. apply Hch, elem_of_np_unique, Hc'. }
    rewrite Hbin in Hbin'. injection Hbin' as <-.
    destruct (proj1 (Hspec k) Eb) as [Eb'|[_ Eb']].
    - rewrite lookup_replicate_2 in Eb' by exact Hk. discriminate.
    - unfold k in Eb'. rewrite Z2Nat.id in Eb' by lia.
      apply Hnot. exact (proj1 (elem_of_np_unique _ _) Eb'). }
  subst b. unfold peak_amplitude. rewrite Hpv. fold k.
  rewrite (Hent k p false Ep Eb). cbn [default bool_to_Q]. unfold id. lra.
Qed.

(** X10.  With [weak < strong], the mask is zero on every member channel
    whose peak amplitude is at or below the weak threshold; with a weak
    threshold that is not negative this is the case of every member
    channel that the component does not touch. *)
Theorem masks_zero_channels (self : WaveformExtractor)
    (component : list (Z * Z)) (data_t wave : ndarray2) (comp : Bunch) :
  rect data_t ->
  _component self component (Z.of_nat (shape0 data_t)) = OK comp ->
  inside data_t component ->
  _comp_wave data_t comp = OK wave ->
  Forall (fun c => 0 <= c < Z.of_nat (shape1 data_t)) (channels comp) ->
  (weak (_thresholds self) < strong (_thresholds self))%Q ->
  exists m,
    masks self data_t wave comp = OK m
    /\ forall j c, channels comp !! j = Some c ->
         ((peak_amplitude data_t wave comp c <= weak (_thresholds self))%Q ->
          exists v, m !! j = Some v /\ v == 0)
         /\ (c ∉ comp_ch comp -> (0 <= weak (_thresholds self))%Q ->
             exists v, m !! j = Some v /\ v == 0).
Proof.
  intros Hr Hc Hin Hw Hchs Hth.
  destruct (masks_pipeline self component data_t wave comp Hr Hc Hin Hw Hchs)
    as (m & Hm & Heq).
  exists m. split; [exact Hm|]. intros j c Hj.
  assert (Hmj : m !! j = Some (normalize_entry (_thresholds self)
                                 (peak_amplitude data_t wave comp c))).
  { rewrite Heq, list_lookup_fmap, Hj. reflexivity. }
  assert (Hquiet : (peak_amplitude data_t wave comp c
                    <= weak (_thresholds self))%Q ->
                   exists v, m !! j = Some v /\ v == 0).
  { intros Hp. eexists. split; [exact Hmj|].
    apply normalize_entry_weak; assumption. }
  split; [exact Hquiet|]. intros Hnot Hweak. apply Hquiet.
  destruct (comp_wave_returns _ _ _ _ Hr Hc Hin) as (wave' & Hw' & Hw1 & Hw0 & _).
  rewrite Hw in Hw'. injection Hw' as <-.
  pose proof (component_inv _ _ _ _ Hc) as (_ & Hch & H0 & Hlt & Hmax & _).
  rewrite (peak_amplitude_untouched data_t wave comp c); try assumption; try lia.
  - rewrite Hch, Forall_forall. pose proof Hin as Hin'. unfold inside in Hin'.
    rewrite Forall_forall in Hin'. intros c' Hc'.
    apply list_elem_of_fmap in Hc' as [[s' c''] [-> Hsc']].
    apply (Hin' _ Hsc').
  - rewrite Forall_forall in Hchs. apply Hchs.
    eapply list_elem_of_lookup_2. exact Hj.
Qed.

Lemma masks_zero_channels_witness :
  exists m,
    masks ex_extractor ex_data_t ex_wave_single ex_comp_single = OK m
    /\ forall j c, channels ex_comp_single !! j = Some c ->
         ((peak_amplitude ex_data_t ex_wave_single ex_comp_single c
           <= weak (_thresholds ex_extractor))%Q ->
          exists v, m !! j = Some v /\ v == 0)
         /\ (c ∉ comp_ch ex_comp_single ->
             (0 <= weak (_thresholds ex_extractor))%Q ->
             exists v, m !! j = Some v /\ v == 0).
Proof.
  apply (masks_zero_channels ex_extractor [(3, 0)] ex_data_t).
  - exact ex_rect.
  - vm_compute. reflexivity.
  - unfold inside. repeat constructor; cbn; lia.
  - vm_compute. reflexivity.
  - repeat constructor; cbn; lia.
  - reflexivity.
Defined.

Lemma masks_all_ones_of_crossings_witness :
  exists m,
    masks ex_extractor ex_data_t ex_wave ex_comp = OK m
    /\ length m = length (channels ex_comp)
    /\ Forall (fun v => v == 1) m.
Proof.
  apply (masks_all_ones_of_crossings ex_extractor ex_component ex_data_t
           ex_wave ex_comp ex_rect ex_resolved ex_inside ex_comp_wave
           ex_channels ex_thresholds).
  - reflexivity.
  - intros c Hc. cbn in Hc.
    apply elem_of_cons in Hc as [->|Hc];
      [exists 4; split; [right; left | vm_compute; discriminate]|].
    apply elem_of_cons in Hc as [->|Hc];
      [exists 4; split; [right; right; left | vm_compute; discriminate]|].
    inversion Hc.
Defined.

(** *** The aligned time *)






(** *** The window around the aligned time *)

Lemma np_indices_inside (n : nat) (idx : list Z) :
  Forall (fun c => 0 <= c < Z.of_nat n) idx ->
  np_indices n idx = OK (map Z.to_nat idx).
Proof.
  induction 1 as [|c idx Hc _ IH]; [reflexivity|].
  cbn [np_indices map]. rewrite np_index_inside by exact Hc.
  cbn [mbind result_bind]. rewrite IH. reflexivity.
Qed.


(** X13.  For an aligned time whose integer part [s] is a sample of the
    trace and whose window does not leave the trace on both sides,
    [extract] returns [extract_before + extract_after + 3] samples on the
    requested channels: sample [k] of the window is the raw sample
    [s - extract_before - 1 + k], and a sample outside the trace is zero. *)
Theorem extract_window (self : WaveformExtractor) (data : ndarray2)
    (chans : list Z) (q : Q) :
  let s := Qtruncate q in
  let sb := _extract_before self in
  let sa := _extract_after self in
  0 <= sb -> 0 <= sa ->
  0 <= s <= Z.of_nat (shape0 data) ->
  (s - sb - 1 < 0 -> s + sa + 2 < Z.of_nat (shape0 data)) ->
  Forall (fun c => 0 <= c < Z.of_nat (shape1 data)) chans ->
  exists waveform,
    extract self data (Finite q) chans = OK waveform
    /\ Z.of_nat (shape0 waveform) = sb + sa + 3
    /\ shape1 waveform = length chans
    /\ forall k, Z.of_nat k < sb + sa + 3 ->
         rows waveform !! k
         = Some (map (fun c =>
                        default 0%Q (padded_row data (s - sb - 1 + Z.of_nat k)
                                       !! Z.to_nat c))
                     chans).
Proof.
  intros s sb sa Hb Ha Hs Hg Hch. unfold extract.
  cbn [py_int mbind result_bind]. fold s sb sa.
  rewrite get_padded_contract by lia. cbn [mbind result_bind].
  unfold np_take_columns, padded_contract. cbn [shape1 rows].
  rewrite np_indices_inside by exact Hch. cbn [mbind result_bind].
  unfold_ret. eexists. split; [reflexivity|].
  unfold shape0. cbn [rows shape1]. rewrite !length_map, length_seq.
  split; [lia|]. split; [reflexivity|].
  intros k Hk. rewrite !list_lookup_fmap, lookup_seq_lt by lia.
  cbn [fmap option_fmap option_map Nat.add]. rewrite map_map. reflexivity.
Qed.

Lemma extract_window_witness :
  exists waveform,
    extract ex_aligner ex_data (Finite (9 # 2)) [0] = OK waveform
    /\ Z.of_nat (shape0 waveform) = 2 + 3 + 3
    /\ shape1 waveform = 1%nat
    /\ forall k, Z.of_nat k < 2 + 3 + 3 ->
         rows waveform !! k
         = Some (map (fun c =>
                        default 0%Q (padded_row ex_data (4 - 2 - 1 + Z.of_nat k)
                                       !! Z.to_nat c))
                     [0]).
Proof.
  apply (extract_window ex_aligner ex_data [0] (9 # 2)).
  - cbn. lia.
  - cbn. lia.
  - vm_compute. split; discriminate.
  - vm_compute. discriminate.
  - constructor; [|constructor]. cbn. lia.
Defined.

(** *** The whole extraction *)

Lemma call_unfold `{Interp1d} (self : WaveformExtractor)
    (component : list (Z * Z)) (data data_t wave : ndarray2) (comp : Bunch)
    (m : list Q) :
  shape0 data = shape0 data_t -> shape1 data = shape1 data_t ->
  _component self component (Z.of_nat (shape0 data_t)) = OK comp ->
  _comp_wave data_t comp = OK wave ->
  masks self data_t wave comp = OK m ->
  call self component data data_t
  = (s_aligned ← spike_sample_aligned self wave comp;
     waveform_unaligned ← extract self data s_aligned (channels comp);
     al ← align self waveform_unaligned s_aligned;
     _ ← assert (shape1 al.1 =? length m)%nat;
     mret ((group comp, s_aligned, al.1, m), al.2)).
Proof.
  intros H0 H1 Hc Hw Hm. unfold call.
  rewrite bool_decide_eq_true_2 by (split; assumption).
  cbn [assert mbind result_bind]. rewrite Hc. cbn [mbind result_bind].
  rewrite Hw. cbn [mbind result_bind]. rewrite Hm. reflexivity.
Qed.






Lemma aligned_time_nan (self : WaveformExtractor)
    (component : list (Z * Z)) (data_t wave : ndarray2) (comp : Bunch) :
  rect data_t ->
  _component self component (Z.of_nat (shape0 data_t)) = OK comp ->
  inside data_t component ->
  _comp_wave data_t comp = OK wave ->
  (weak (_thresholds self) < strong (_thresholds self))%Q ->
  (0 < _weight_power self)%nat ->
  (forall i c, (entry wave i c <= weak (_thresholds self))%Q) ->
  spike_sample_aligned self wave comp = OK NaN.
Proof.
  intros Hr Hc Hin Hw Hth Hp Hall.
  rewrite (spike_sample_aligned_eq self component data_t wave comp Hr Hc Hin Hw).
  pose proof (weighted_index_sum_nonneg self wave (shape0 wave)) as HN0.
  pose proof (weighted_index_sum_le self wave (shape0 wave)) as HN1.
  assert (HW : weight_sum self wave (shape0 wave) == 0).
  { unfold weight_sum. apply sum_upto_zero. intros i _.
    apply sum_upto_zero. intros c _.
    apply weight_zero; [exact Hth | exact Hp | apply Hall]. }
  assert (HN : weighted_index_sum self wave (shape0 wave) == 0).
  { rewrite HW in HN1. lra. }
  unfold np_div. rewrite (Qeq_eq_bool _ _ HW), (Qeq_eq_bool _ _ HN).
  reflexivity.
Qed.

(** X15.  With [0 <= weak < strong] and a positive power, a component none
    of whose crossings is above the weak threshold has weights that are all
    zero: the aligned time is not a number, and [__call__] raises the
    [ValueError] of [int(nan)] in [extract], after the mask was computed. *)
Theorem call_no_crossing_above_weak `{Interp1d} (self : WaveformExtractor)
    (component : list (Z * Z)) (data data_t : ndarray2) (comp : Bunch) :
  rect data_t ->
  shape0 data = shape0 data_t -> shape1 data = shape1 data_t ->
  _component self component (Z.of_nat (shape0 data_t)) = OK comp ->
  inside data_t component ->
  Forall (fun c => 0 <= c < Z.of_nat (shape1 data_t)) (channels comp) ->
  (0 <= weak (_thresholds self))%Q ->
  (weak (_thresholds self) < strong (_thresholds self))%Q ->
  (0 < _weight_power self)%nat ->
  (forall s c, (s, c) ∈ component ->
               (entry data_t (Z.to_nat s) (Z.to_nat c)
                <= weak (_thresholds self))%Q) ->
  call self component data data_t = Raise ValueError.
Proof.
  intros Hr Hs0 Hs1 Hc Hin Hch Hweak Hth Hp Hlow.
  destruct (comp_wave_returns _ _ _ _ Hr Hc Hin) as (wave & Hw & _).
  destruct (masks_pipeline self component data_t wave comp Hr Hc Hin Hw Hch)
    as (m & Hm & _).
  rewrite (call_unfold self component data data_t wave comp m Hs0 Hs1 Hc Hw Hm).
  rewrite (aligned_time_nan self component data_t wave comp Hr Hc Hin Hw Hth Hp);
    [reflexivity|].
  intros i c.
  pose proof (inside_window _ _ _ _ Hc Hin) as Hwin.
  rewrite Forall_forall in Hwin.
  destruct (comp_wave_entries self component data_t wave comp i c Hr Hc Hin Hw)
    as [Ht Hn].
  destruct (decide (Exists (fun sc : Z * Z =>
                              Z.to_nat (sc.1 - s_min comp) = i
                              /\ Z.to_nat sc.2 = c) component)) as [He|Hne].
  - rewrite (Ht He). apply Exists_exists in He as ([s' c'] & Hsc & H1 & H2).
    cbn [fst snd] in *. destruct (Hwin _ Hsc) as [Hs' _]. cbn [fst] in Hs'.
    pose proof (component_inv _ _ _ _ Hc) as (_ & _ & H0 & _).
    replace (i + Z.to_nat (s_min comp))%nat with (Z.to_nat s') by lia.
    rewrite <- H2. apply Hlow, Hsc.
  - rewrite (Hn Hne). exact Hweak.
Qed.

Lemma call_no_crossing_above_weak_witness :
  call (H := knot_interp) ex_extractor [(2, 0)] ex_data_t ex_data_t
  = Raise ValueError.
Proof.
  apply (call_no_crossing_above_weak (H := knot_interp) ex_extractor [(2, 0)]
           ex_data_t ex_data_t ex_comp_weak ex_rect eq_refl eq_refl).
  - vm_compute. reflexivity.
  - unfold inside. repeat constructor; cbn; lia.
  - exact ex_channels.
  - vm_compute. discriminate.
  - exact ex_thresholds.
  - cbn. lia.
  - intros s c Hsc. apply list_elem_of_singleton in Hsc. injection Hsc as -> ->.
    vm_compute. discriminate.
Defined.



(** *** Channels listed in several groups *)

(** A group that does not list a channel leaves the entry of the channel
    in a dictionary as it is. *)
Lemma insert_groups_untouched {V : Type} (v : Z * list Z -> V)
    (cpg : list (Z * list Z)) (d : gmap Z V) (ch : Z) :
  (forall gc, gc ∈ cpg -> ch ∉ gc.2) ->
  foldl (fun d gc => foldl (fun d' i => <[i := v gc]> d') d gc.2) d cpg !! ch
  = d !! ch.
Proof.
  revert d. induction cpg as [|gc cpg IH]; intros d Hn; [reflexivity|].
  cbn [foldl]. rewrite IH by (intros gc' Hin; apply Hn; right; exact Hin).
  rewrite insert_all_lookup. apply decide_False. apply Hn. left.
Qed.

(** X17.  The two dictionaries of the constructor are filled group by
    group, in the order of [channels_per_group], so that a channel listed
    in several groups belongs to the last group that lists it: whatever
    groups come before that group, and whatever groups that do not list
    the channel come after it, the member channels and the group of the
    channel are those of that group. *)
Theorem last_group_wins (extract_before extract_after : Z)
    (weight_power : option nat) (th : thresholds)
    (before after : list (Z * list Z)) (g : Z) (chs : list Z) (ch : Z) :
  ch ∈ chs ->
  (forall gc, gc ∈ after -> ch ∉ gc.2) ->
  let self := WaveformExtractor_init extract_before extract_after weight_power
                th (before ++ (g, chs) :: after) in
  _dep_channels self !! ch = Some chs /\ _channel_groups self !! ch = Some g.
Proof.
  intros Hch Hafter self. unfold self, WaveformExtractor_init.
  cbn [_dep_channels _channel_groups].
  unfold dep_channels_of, channel_groups_of. rewrite !foldl_app.
  cbn [foldl].
  rewrite (insert_groups_untouched snd), (insert_groups_untouched fst)
    by exact Hafter.
  cbn [fst snd]. rewrite !insert_all_lookup, !decide_True by exact Hch.
  split; reflexivity.
Qed.

Lemma last_group_wins_witness :
  let self := WaveformExtractor_init 2 3 None (Thresholds 2 10)
                ([(0, [0; 1])] ++ (1, [1; 2]) :: [(2, [3])]) in
  _dep_channels self !! 1 = Some [1; 2] /\ _channel_groups self !! 1 = Some 1.
Proof.
  apply (last_group_wins 2 3 None (Thresholds 2 10) [(0, [0; 1])] [(2, [3])]
           1 [1; 2] 1).
  - left.
  - intros gc Hgc. apply list_elem_of_singleton in Hgc. subst gc. cbn [snd].
    intros H. apply list_elem_of_singleton in H. discriminate.
Defined.

(** *** The numbers of samples before and after *)

(** X18.  A count is split into its half, rounded down, before and the
    rest after, so that the two parts differ by at most one sample and the
    longer one comes after; a negative count fails the first assertion.  A
    pair is returned as it is when neither part is negative, and anything
    else fails an assertion. *)
Theorem before_after_split (n : Z) (l : list Z) :
  _before_after (Count n)
  = (if 0 <=? n then OK (n `div` 2, n - n `div` 2) else Raise AssertionError)
  /\ n `div` 2 <= n - n `div` 2 <= n `div` 2 + 1
  /\ _before_after (BeforeAfter l)
     = match l with
       | [before; after] =>
           if (0 <=? before) && (0 <=? after) then OK (before, after)
           else Raise AssertionError
       | _ => Raise AssertionError
       end.
Proof.
  split; [|split].
  - unfold _before_after. cbv zeta.
    pose proof (Z.div_mod n 2 ltac:(lia)) as Hd.
    pose proof (Z.mod_pos_bound n 2 ltac:(lia)) as Hm.
    destruct (Z.leb_spec 0 n).
    + destruct (Z.geb_spec (n `div` 2) 0); [|lia].
      destruct (Z.geb_spec (n - n `div` 2) 0); [|lia].
      cbn [assert mbind result_bind].
      rewrite (proj2 (Z.eqb_eq _ _)) by lia. reflexivity.
    + destruct (Z.geb_spec (n `div` 2) 0); [lia|]. reflexivity.
  - pose proof (Z.div_mod n 2 ltac:(lia)) as Hd.
    pose proof (Z.mod_pos_bound n 2 ltac:(lia)) as Hm. lia.
  - unfold _before_after.
    destruct l as [|b [|a [|c l]]]; try reflexivity.
    cbn [length Nat.eqb assert mbind result_bind].
    destruct (Z.leb_spec 0 b), (Z.geb_spec b 0); try lia;
      cbn [andb assert mbind result_bind]; [|reflexivity].
    destruct (Z.leb_spec 0 a), (Z.geb_spec a 0); try lia;
      cbn [assert mbind result_bind]; [|reflexivity].
    rewrite Z.eqb_refl. reflexivity.
Qed.

(** *** Loading one waveform away from the ends of the buffer *)

Lemma before_after_nonneg (arg : n_samples_arg) (b a : Z) :
  _before_after arg = OK (b, a) -> 0 <= b /\ 0 <= a.
Proof.
  unfold _before_after. destruct arg as [n|l].
  - cbv zeta. intros H. apply bind_OK in H as [u1 [H1 H]].
    apply bind_OK in H as [u2 [H2 H]]. apply bind_OK in H as [u3 [_ H]].
    apply assert_OK in H1, H2. injection H as <- <-. lia.
  - intros H. apply bind_OK in H as [u0 [_ H]].
    destruct l as [|b' [|a' [|c l]]]; try discriminate.
    cbv zeta in H. apply bind_OK in H as [u1 [H1 H]].
    apply bind_OK in H as [u2 [H2 H]]. apply bind_OK in H as [u3 [_ H]].
    apply assert_OK in H1, H2. injection H as <- <-. lia.
Qed.

(** What the constructor stores for a loader built on a buffer. *)
Lemma loader_init_inv (traces : ndarray2) (offset : Z)
    (filter : option (ndarray2 -> result ndarray2))
    (filter_margin n_samples : n_samples_arg) (channels : option (list Z))
    (scale_factor dc_offset : option Q) (self : WaveformLoader) :
  WaveformLoader_init (Some traces) offset filter filter_margin
                      (Some n_samples) channels scale_factor dc_offset
  = OK self ->
  exists nb na mb ma,
    _before_after n_samples = OK (nb, na)
    /\ _before_after filter_margin = OK (mb, ma)
    /\ self = {| n_samples_trace := Z.of_nat (shape0 traces);
                 n_channels_traces := Some (shape1 traces);
                 _traces := Some traces;
                 _scale_factor := scale_factor;
                 _dc_offset := dc_offset;
                 _offset := offset;
                 _channels := channels;
                 _filter := filter;
                 n_samples_before_after := (nb, na);
                 n_samples_waveforms := nb + na;
                 _filter_margin := (mb, ma);
                 _n_samples_extract := nb + na + (mb + ma) |}.
Proof.
  unfold WaveformLoader_init. intros H.
  apply bind_OK in H as [[nb na] [Hba H]].
  apply bind_OK in H as [[mb ma] [Hfm H]].
  injection H as <-. exists nb, na, mb, ma. auto.
Qed.

Lemma take_drop_take_drop {A : Type} (l : list A) (a n m k : nat) :
  (m + k <= n)%nat ->
  take k (drop m (take n (drop a l))) = take k (drop (a + m) l).
Proof.
  intros H. apply list_eq. intros i.
  destruct (decide (i < k)%nat) as [Hi|Hi].
  - rewrite !lookup_take_lt by lia. rewrite !lookup_drop.
    rewrite lookup_take_lt by lia. rewrite lookup_drop. f_equal. lia.
  - rewrite !lookup_take_ge by lia. reflexivity.
Qed.

(** X19.  On a loader built on a buffer, without a filter and without a
    channel subset, whose filter margin has a part after the window or no
    part before it: for a time whose window and margins lie strictly
    inside the buffer, away from its first and its last two samples,
    [_load_at] returns the samples [time - offset - before] up to
    [time - offset + after] of the buffer, whatever the margin is. *)
Theorem load_at_interior (traces : ndarray2) (offset : Z)
    (filter_margin n_samples : n_samples_arg)
    (scale_factor dc_offset : option Q) (self : WaveformLoader)
    (nb na mb ma time : Z) :
  WaveformLoader_init (Some traces) offset None filter_margin
                      (Some n_samples) None scale_factor dc_offset
  = OK self ->
  n_samples_before_after self = (nb, na) ->
  _filter_margin self = (mb, ma) ->
  (0 < ma \/ mb = 0) ->
  nb + mb < time - offset ->
  time - offset + na + ma < Z.of_nat (shape0 traces) - 1 ->
  _load_at self time
  = OK (slice_rows traces (Some (time - offset - nb))
                   (Some (time - offset + na))).
Proof.
  intros Hinit Hba Hfm Hmargin Hlo Hhi.
  destruct (loader_init_inv _ _ _ _ _ _ _ _ _ Hinit)
    as (nb' & na' & mb' & ma' & Hba' & Hfm' & ->).
  cbn [n_samples_before_after _filter_margin] in Hba, Hfm.
  injection Hba as -> ->. injection Hfm as -> ->.
  destruct (before_after_nonneg _ _ _ Hba') as [Hnb Hna].
  destruct (before_after_nonneg _ _ _ Hfm') as [Hmb Hma].
  unfold _load_at. cbv zeta.
  cbn [_offset n_samples_trace _traces n_samples_before_after _filter_margin
       _filter _channels _n_samples_extract n_samples_waveforms].
  set (t := time - offset) in *.
  destruct (Z.leb_spec 0 t); [|lia].
  destruct (Z.ltb_spec t (Z.of_nat (shape0 traces))); [|lia].
  cbn [andb negb].
  change (_slice t (nb, na) (Some (mb, ma)))
    with (Slice (Z.max 0 (t - (nb + mb))) (t + (na + ma))).
  cbn [start stop].
  replace (Z.max 0 (t - (nb + mb))) with (t - (nb + mb)) by lia.
  destruct (Z.leb_spec (t - (nb + mb)) 0); [lia|].
  destruct (Z.geb_spec (t + (na + ma)) (Z.of_nat (shape0 traces) - 1)); [lia|].
  unfold slice_rows. unfold shape0 in *. cbn [rows shape1].
  rewrite py_slice_inside by lia. rewrite length_take, length_drop.
  rewrite (proj2 (Z.eqb_eq _ _)) by lia.
  cbn [assert mbind result_bind].
  unfold n_channels_waveforms. cbn [_channels n_channels_traces].
  assert (Hrows : forall l,
            l = take (Z.to_nat (nb + na)) (drop (Z.to_nat (t - nb)) (rows traces)) ->
            Array2 (shape1 traces) l
            = slice_rows traces (Some (t - nb)) (Some (t + na))).
  { intros l ->. unfold slice_rows. rewrite py_slice_inside by lia.
    do 3 f_equal. lia. }
  destruct (Z.gtb_spec ma 0) as [Hpos|Hzero].
  - destruct (Z.geb_spec mb 0); [|lia]. cbn [assert mbind result_bind].
    unfold_ret. cbn [mbind result_bind].
    unfold slice_rows, py_slice. cbn [rows shape1 from_option].
    rewrite length_take, length_drop. unfold slice_bound.
    destruct (Z.ltb_spec mb 0); [lia|].
    destruct (Z.ltb_spec (- ma) 0); [|lia].
    match goal with |- context [take ?k (drop ?m (take ?n (drop ?a _)))] =>
      rewrite (take_drop_take_drop (rows traces) a n m k) by lia;
      replace k with (Z.to_nat (nb + na)) by lia;
      replace (a + m)%nat with (Z.to_nat (t - nb)) by lia
    end.
    unfold shape0. cbn [rows shape1]. rewrite length_take, length_drop.
    rewrite (proj2 (Z.eqb_eq _ _)) by lia. rewrite Nat.eqb_refl.
    cbn [andb assert mbind result_bind]. f_equal. apply Hrows. reflexivity.
  - unfold_ret. cbn [mbind result_bind].
    unfold shape0. cbn [rows shape1]. rewrite length_take, length_drop.
    rewrite (proj2 (Z.eqb_eq _ _)) by lia. rewrite Nat.eqb_refl.
    cbn [andb assert mbind result_bind]. f_equal. apply Hrows.
    f_equal; [|f_equal]; lia.
Qed.

Lemma ex_margin_loader_init :
  WaveformLoader_init (Some ex_data) 0 None (Count 2)
                      (Some (BeforeAfter [1; 1])) None None None
  = OK ex_margin_loader.
Proof. reflexivity. Qed.

Lemma load_at_interior_witness :
  _load_at ex_margin_loader 4
  = OK (slice_rows ex_data (Some (4 - 0 - 1)) (Some (4 - 0 + 1))).
Proof.
  apply (load_at_interior ex_data 0 (Count 2) (BeforeAfter [1; 1]) None None
           ex_margin_loader 1 1 1 1 4 ex_margin_loader_init eq_refl eq_refl).
  - left. lia.
  - lia.
  - vm_compute. reflexivity.
Defined.

(** X20.  A filter margin with a part before the window and none after it
    is never removed: on a loader built on a buffer with the margin
    [(margin_before, 0)], without a filter and without a channel subset,
    [_load_at] raises [AssertionError] for every time inside the buffer. *)
Theorem load_at_margin_before_fails (traces : ndarray2) (offset : Z)
    (n_samples : n_samples_arg) (scale_factor dc_offset : option Q)
    (self : WaveformLoader) (margin_before time : Z) :
  WaveformLoader_init (Some traces) offset None
                      (BeforeAfter [margin_before; 0])
                      (Some n_samples) None scale_factor dc_offset
  = OK self ->
  0 < margin_before ->
  in_range self time = true ->
  _load_at self time = Raise AssertionError.
Proof.
  intros Hinit Hmb Hr.
  destruct (loader_init_inv _ _ _ _ _ _ _ _ _ Hinit)
    as (nb & na & mb & ma & Hba & Hfm & ->).
  assert (mb = margin_before /\ ma = 0) as [-> ->].
  { unfold _before_after in Hfm. cbn [length Nat.eqb assert mbind result_bind] in Hfm.
    cbv zeta in Hfm. apply bind_OK in Hfm as [u1 [_ H]].
    apply bind_OK in H as [u2 [_ H]]. apply bind_OK in H as [u3 [_ H]].
    injection H as <- <-. split; reflexivity. }
  unfold in_range in Hr. unfold _load_at. cbv zeta. rewrite Hr.
  cbn [negb _traces n_samples_before_after _filter_margin _filter _channels
       _n_samples_extract n_samples_waveforms].
  match goal with |- context [assert (Z.of_nat (shape0 ?ex) =? ?n)] =>
    set (extract := ex); destruct (Z.eqb_spec (Z.of_nat (shape0 extract)) n)
      as [He|He]
  end; clearbody extract; clear Hr Hinit; [|reflexivity].
  cbn [assert mbind result_bind]. unfold_ret. cbn [mbind result_bind].
  unfold n_channels_waveforms. cbn [_channels n_channels_traces].
  change (0 >? 0) with false. cbn [mbind result_bind].
  destruct (Z.eqb_spec (Z.of_nat (shape0 extract)) (nb + na)); [lia|].
  reflexivity.
Qed.

Lemma load_at_margin_before_fails_witness :
  _load_at
    {| n_samples_trace := 10;
       n_channels_traces := Some 1%nat;
       _traces := Some ex_data;
       _scale_factor := None;
       _dc_offset := None;
       _offset := 0;
       _channels := None;
       _filter := None;
       n_samples_before_after := (1, 1);
       n_samples_waveforms := 2;
       _filter_margin := (1, 0);
       _n_samples_extract := 3 |} 4
  = Raise AssertionError.
Proof.
  apply (load_at_margin_before_fails ex_data 0 (BeforeAfter [1; 1]) None None
           _ 1 4).
  - reflexivity.
  - lia.
  - reflexivity.
Defined.

(** *** The batch call: caught and uncaught exceptions *)

(** The loop over times whose errors are all caught reaches the rest of
    the batch with one warning for each of them. *)
Lemma load_all_caught (self : WaveformLoader) (pre rest : list Z) :
  Forall (fun t => forall e, _load_at self t = Raise e ->
                             is_ValueError e = true) pre ->
  forall (i : nat) (w : list (list (list Q))) (log : list log_record),
    exists w',
      load_all self i (pre ++ rest) w log
      = load_all self (i + length pre) rest w' (log ++ load_errors self pre)
      /\ length w' = length w.
Proof.
  induction 1 as [|t pre Ht _ IH]; intros i w log.
  - exists w. cbn. rewrite Nat.add_0_r, app_nil_r. split; reflexivity.
  - cbn [app load_all length]. unfold load_errors. cbn [omap list_omap].
    fold (load_errors self pre).
    destruct (_load_at self t) as [wv|e] eqn:E.
    + destruct (IH (S i) (<[i := rows wv]> w) log) as (w' & Hw' & Hl).
      exists w'. rewrite Hw'. rewrite length_insert in Hl.
      split; [f_equal; lia | exact Hl].
    + rewrite (Ht e eq_refl).
      destruct (IH (S i) w (log ++ [LoadError e])) as (w' & Hw' & Hl).
      exists w'. rewrite Hw', <- app_assoc.
      split; [f_equal; lia | exact Hl].
Qed.

(** X21.  [__getitem__] catches [ValueError] only.  When the load of a
    requested time raises another exception ([AssertionError] or
    [IndexError], say) and the loads before it raised nothing but
    [ValueError]s, the batch call raises that exception after one warning
    for each failed load before it; the times after it are not loaded. *)
Theorem getitem_uncaught_exception (self : WaveformLoader)
    (garbage : nat -> nat -> nat -> Q) (pre post : list Z) (t : Z) (e : exn)
    (ncw : nat) :
  n_samples_trace self <> 0 ->
  0 <= n_samples_waveforms self ->
  n_channels_waveforms self = OK ncw ->
  Forall (fun t' => forall e', _load_at self t' = Raise e' ->
                               is_ValueError e' = true) pre ->
  _load_at self t = Raise e ->
  is_ValueError e = false ->
  getitem self garbage (ItemList (pre ++ t :: post))
  = (Raise e, load_errors self pre).
Proof.
  intros Hns Hnsw Hncw Hpre Ht He. unfold getitem. rewrite Hncw.
  destruct (Z.ltb_spec (n_samples_waveforms self) 0); [lia|].
  destruct (Z.eqb_spec (n_samples_trace self) 0); [contradiction|].
  cbv zeta.
  match goal with |- context [load_all self 0 _ ?w0 []] =>
    destruct (load_all_caught self pre (t :: post) Hpre 0 w0 [])
      as (w' & Hw' & _)
  end.
  rewrite Hw'. cbn [load_all app]. rewrite Ht, He. reflexivity.
Qed.

Lemma getitem_uncaught_exception_witness :
  getitem ex_subset_loader (fun _ _ _ => 7%Q) (ItemList ([-5] ++ 4 :: [6]))
  = (Raise IndexError, load_errors ex_subset_loader [-5]).
Proof.
  apply (getitem_uncaught_exception ex_subset_loader (fun _ _ _ => 7%Q)
           [-5] [6] 4 IndexError 1).
  - cbn. lia.
  - cbn. lia.
  - reflexivity.
  - constructor; [|constructor]. intros e' He'. vm_compute in He'.
    injection He' as <-. reflexivity.
  - vm_compute. reflexivity.
  - reflexivity.
Defined.

(** *** The batch call: the shape of what it returns *)

Lemma load_all_length (self : WaveformLoader) (n : nat) (spikes : list Z) :
  (forall t wv, _load_at self t = OK wv -> length (rows wv) = n) ->
  forall (i : nat) (w w' : list (list (list Q))) (log log' : list log_record),
    load_all self i spikes w log = (OK w', log') ->
    length w' = length w
    /\ (Forall (fun slot => length slot = n) w ->
        Forall (fun slot => length slot = n) w').
Proof.
  intros Hshape. induction spikes as [|t spikes IH]; intros i w w' log log' H.
  - cbn in H. injection H as <- <-. auto.
  - cbn [load_all] in H. destruct (_load_at self t) as [wv|e] eqn:E.
    + apply IH in H as [Hl Hf]. rewrite length_insert in Hl.
      split; [exact Hl|]. intros Hw. apply Hf.
      destruct (decide (i < length w)%nat) as [Hi|Hi].
      * apply Forall_insert; [exact Hw | exact (Hshape _ _ E)].
      * rewrite list_insert_ge by lia. exact Hw.
    + destruct (is_ValueError e); [|discriminate].
      apply IH in H. exact H.
Qed.

(** X22.  Whatever the filter, the channel subset and the requested times
    are, an array that [__getitem__] returns has one slot for each
    requested time, each slot has [n_samples_waveforms] samples, and its
    two other dimensions are [n_samples_waveforms] and
    [n_channels_waveforms]. *)
Theorem getitem_shape (self : WaveformLoader)
    (garbage : nat -> nat -> nat -> Q) (times : list Z) (arr : ndarray3)
    (log : list log_record) :
  getitem self garbage (ItemList times) = (OK arr, log) ->
  length (slots arr) = length times
  /\ Z.of_nat (dim1 arr) = n_samples_waveforms self
  /\ n_channels_waveforms self = OK (dim2 arr)
  /\ Forall (fun slot => length slot = dim1 arr) (slots arr).
Proof.
  unfold getitem. destruct (n_channels_waveforms self) as [ncw|e];
    [|discriminate].
  destruct (Z.ltb_spec (n_samples_waveforms self) 0); [discriminate|].
  set (nsw := Z.to_nat (n_samples_waveforms self)).
  destruct (Z.eqb_spec (n_samples_trace self) 0).
  - intros [= <- <-]. cbn [np_zeros3 slots dim1 dim2].
    rewrite length_replicate. repeat split; [lia|].
    apply Forall_replicate. apply length_replicate.
  - cbv zeta.
    destruct (load_all self 0 times _ []) as [[w|e] log'] eqn:El;
      [|discriminate].
    rewrite post_passes. intros [= <- <-]. cbn [slots dim1 dim2].
    apply (load_all_length self nsw) in El as [Hl Hf].
    2:{ intros t wv Hwv. destruct (load_at_shape _ _ _ Hwv) as [Hs _].
        unfold shape0 in Hs. unfold nsw. lia. }
    cbn [np_empty3 slots] in Hl, Hf. rewrite length_map, length_seq in Hl.
    unfold map3. rewrite length_map. repeat split; [exact Hl | lia |].
    rewrite Forall_fmap. eapply Forall_impl.
    + apply Hf. rewrite Forall_fmap. apply Forall_forall. intros j _. cbn.
      rewrite length_map, length_seq. reflexivity.
    + intros slot Hs. cbn. rewrite length_map. exact Hs.
Qed.

Lemma getitem_shape_witness :
  length (slots (Array3 2 1 [[[7]; [7]]; [[1]; [2]]]%Q)) = length [-5; 1]
  /\ Z.of_nat (dim1 (Array3 2 1 [[[7]; [7]]; [[1]; [2]]]%Q))
     = n_samples_waveforms ex_loader
  /\ n_channels_waveforms ex_loader
     = OK (dim2 (Array3 2 1 [[[7]; [7]]; [[1]; [2]]]%Q))
  /\ Forall (fun slot => length slot
                         = dim1 (Array3 2 1 [[[7]; [7]]; [[1]; [2]]]%Q))
            (slots (Array3 2 1 [[[7]; [7]]; [[1]; [2]]]%Q)).
Proof.
  apply (getitem_shape ex_loader (fun _ _ _ => 7%Q) [-5; 1] _
           [LoadError (InvalidTime (-5) 3)]).
  vm_compute. reflexivity.
Defined.



(** *** Selection with spike ids *)

Lemma getitem_dims (self : WaveformLoader) (garbage : nat -> nat -> nat -> Q)
    (it : item) (arr : ndarray3) (log : list log_record) :
  getitem self garbage it = (OK arr, log) ->
  Z.of_nat (dim1 arr) = n_samples_waveforms self
  /\ n_channels_waveforms self = OK (dim2 arr)
  /\ length (slots arr) = match it with
                          | ItemList times => length times
                          | _ => 1%nat
                          end.
Proof.
  unfold getitem. destruct it as [|t|times]; [discriminate| |];
    (destruct (n_channels_waveforms self) as [ncw|e]; [|discriminate]);
    (destruct (Z.ltb_spec (n_samples_waveforms self) 0); [discriminate|]);
    (destruct (Z.eqb_spec (n_samples_trace self) 0);
     [intros [= <- <-]; cbn [np_zeros3 slots dim1 dim2];
      rewrite length_replicate; repeat split; lia|]);
    cbv zeta;
    (destruct (load_all self 0 _ _ []) as [[w|e] log'] eqn:El;
     [|discriminate]);
    rewrite post_passes; intros [= <- <-]; cbn [slots dim1 dim2];
    (apply (load_all_length self (Z.to_nat (n_samples_waveforms self)))
       in El as [Hl _];
     [|intros t' wv Hwv; destruct (load_at_shape _ _ _ Hwv) as [Hs _];
       unfold shape0 in Hs; lia]);
    cbn [np_empty3 slots] in Hl; rewrite length_map, length_seq in Hl;
    unfold map3; rewrite length_map; repeat split; try lia; exact Hl.
Qed.

Lemma np_take_length {A : Type} (l : list A) (idx : list Z) (xs : list A) :
  np_take l idx = OK xs -> length xs = length idx.
Proof.
  revert xs. induction idx as [|i idx IH]; intros xs H.
  - injection H as <-. reflexivity.
  - cbn [np_take] in H. apply bind_OK in H as [x [_ H]].
    apply bind_OK in H as [xs' [Hxs H]]. injection H as <-.
    cbn [length]. rewrite (IH _ Hxs). reflexivity.
Qed.

(** X24.  The [shape] that a [SpikeLoader] announces is the shape of what
    it returns: an array returned for a selection of spikes has the second
    and third dimension of [shape], one slot for each selected id, and for
    the selection of all spikes as many slots as [len] and the first
    entry of [shape] say. *)
Theorem spike_loader_shape (waveforms : WaveformLoader)
    (spike_samples : list Z) (self : SpikeLoader)
    (garbage : nat -> nat -> nat -> Q) (it : spike_item) (arr : ndarray3)
    (log : list log_record) :
  SpikeLoader_init waveforms spike_samples = OK self ->
  SpikeLoader_getitem self garbage it = (OK arr, log) ->
  shape self = (SpikeLoader_len self, Z.of_nat (dim1 arr), dim2 arr)
  /\ length (slots arr)
     = match it with
       | SpikeIndex _ => 1%nat
       | SpikeIds ids => length ids
       | SpikeSlice None None => SpikeLoader_len self
       | SpikeSlice start stop => length (py_slice spike_samples start stop)
       end.
Proof.
  intros Hinit Hget. unfold SpikeLoader_init in Hinit.
  apply bind_OK in Hinit as [ncw [Hncw Hinit]]. injection Hinit as <-.
  unfold SpikeLoader_getitem, SpikeLoader_len in *.
  cbn [_spike_samples _waveforms shape] in *.
  assert (Hdims : forall wit, getitem waveforms garbage wit = (OK arr, log) ->
            (length spike_samples, n_samples_waveforms waveforms, ncw)
            = (length spike_samples, Z.of_nat (dim1 arr), dim2 arr)).
  { intros wit Hw. destruct (getitem_dims _ _ _ _ _ Hw) as (H1 & H2 & _).
    rewrite Hncw in H2. injection H2 as ->. rewrite H1. reflexivity. }
  destruct it as [i|ids|a b].
  - destruct (np_getitem spike_samples i) as [time|e]; [|discriminate].
    split; [exact (Hdims _ Hget)|].
    exact (proj2 (proj2 (getitem_dims _ _ _ _ _ Hget))).
  - destruct (np_take spike_samples ids) as [times|e] eqn:Et; [|discriminate].
    split; [exact (Hdims _ Hget)|].
    rewrite (proj2 (proj2 (getitem_dims _ _ _ _ _ Hget))).
    exact (np_take_length _ _ _ Et).
  - split; [exact (Hdims _ Hget)|].
    rewrite (proj2 (proj2 (getitem_dims _ _ _ _ _ Hget))).
    destruct a, b; try reflexivity.
    unfold py_slice. cbn [from_option]. rewrite length_take, length_drop. lia.
Qed.

Lemma spike_loader_shape_witness :
  let arr := Array3 2 1 [[[1]; [2]]; [[7]; [7]]]%Q in
  shape ex_spike_loader
  = (SpikeLoader_len ex_spike_loader, Z.of_nat (dim1 arr), dim2 arr)
  /\ length (slots arr) = SpikeLoader_len ex_spike_loader.
Proof.
  exact (spike_loader_shape ex_loader [1; -5] ex_spike_loader
           (fun _ _ _ => 7%Q) (SpikeSlice None None)
           (Array3 2 1 [[[1]; [2]]; [[7]; [7]]]%Q)
           [LoadError (InvalidTime (-5) 3)] eq_refl eq_refl).
Defined.

(** *** The thresholds dictionary *)

Lemma deref_insert_eq (h : store) (r : ref) (d : py_dict) :
  deref (<[r := d]> h) r = d.
Proof. unfold deref. rewrite lookup_insert_eq. reflexivity. Qed.

Lemma deref_insert_ne (h : store) (r r' : ref) (d : py_dict) :
  r <> r' -> deref (<[r := d]> h) r' = deref h r'.
Proof.
  intros Hne. unfold deref.
  rewrite lookup_insert_ne by exact Hne. reflexivity.
Qed.

Lemma init_thresholds_kept (h : store) (r : ref) :
  deref h r <> ∅ -> init_thresholds h (Some r) = (h, r).
Proof.
  intros Hd. unfold init_thresholds.
  rewrite bool_decide_eq_false_2 by exact Hd. reflexivity.
Qed.

Lemma init_thresholds_new (h : store) (thresholds : option ref) :
  (forall r, thresholds = Some r -> h !! r = Some ∅) ->
  init_thresholds h thresholds = new_dict h.
Proof.
  intros Hd. unfold init_thresholds. destruct thresholds as [r|]; [|reflexivity].
  unfold deref. rewrite (Hd r eq_refl). cbn [default].
  rewrite bool_decide_eq_true_2 by reflexivity. reflexivity.
Qed.

(** X25.  A dictionary of thresholds that is not empty is kept by the
    constructor as the object it is: two extractors built with it share
    it, and [set_thresholds] on one of them changes what [_normalize] of
    the other reads, and the dictionary of the caller. *)
Theorem thresholds_dict_shared (h h1 h2 : store) (r r1 r2 : ref)
    (kwargs : list (string * Q)) :
  deref h r <> ∅ ->
  init_thresholds h (Some r) = (h1, r1) ->
  init_thresholds h1 (Some r) = (h2, r2) ->
  let h3 := set_thresholds h2 r1 kwargs in
  deref h3 r2 = dict_update (deref h r) kwargs
  /\ deref h3 r = dict_update (deref h r) kwargs
  /\ read_thresholds h3 r2 = read_thresholds h3 r1.
Proof.
  intros Hd H1 H2 h3. rewrite init_thresholds_kept in H1 by exact Hd.
  injection H1 as <- <-. rewrite init_thresholds_kept in H2 by exact Hd.
  injection H2 as <- <-. unfold h3, set_thresholds.
  rewrite deref_insert_eq. repeat split; reflexivity.
Qed.

Lemma thresholds_dict_shared_witness :
  let h3 := set_thresholds ex_store 0%nat [("strong"%string, 10%Q)] in
  deref h3 0%nat = dict_update (deref ex_store 0%nat) [("strong"%string, 10%Q)]
  /\ deref h3 0%nat
     = dict_update (deref ex_store 0%nat) [("strong"%string, 10%Q)]
  /\ read_thresholds h3 0%nat = read_thresholds h3 0%nat.
Proof.
  apply (thresholds_dict_shared ex_store ex_store ex_store 0%nat 0%nat 0%nat
           [("strong"%string, 10%Q)]).
  - intros H. apply (f_equal (fun d => d !! "weak"%string)) in H.
    vm_compute in H. discriminate.
  - vm_compute. reflexivity.
  - vm_compute. reflexivity.
Defined.

(** X26.  Without a dictionary, or with an empty one, the constructor makes
    a new dictionary for each extractor.  [_normalize] raises [KeyError]
    until [set_thresholds] has set both keys; setting them on one
    extractor leaves the other extractor without thresholds, and the empty
    dictionary of the caller empty. *)
Theorem thresholds_default_not_shared (h h1 h2 : store)
    (thresholds : option ref) (r1 r2 : ref) (tw ts : Q) :
  (forall r, thresholds = Some r -> h !! r = Some ∅) ->
  init_thresholds h thresholds = (h1, r1) ->
  init_thresholds h1 thresholds = (h2, r2) ->
  let h3 := set_thresholds h2 r1
              [("weak"%string, tw); ("strong"%string, ts)] in
  r1 <> r2
  /\ read_thresholds h2 r1 = Raise KeyError
  /\ read_thresholds h3 r1 = OK (Thresholds tw ts)
  /\ read_thresholds h3 r2 = Raise KeyError
  /\ (forall r, thresholds = Some r -> deref h3 r = ∅).
Proof.
  intros Hd H1 H2 h3. rewrite init_thresholds_new in H1 by exact Hd.
  unfold new_dict in H1. injection H1 as <- <-.
  set (r1 := fresh (dom h)) in *.
  assert (Hr1 : h !! r1 = None) by (apply not_elem_of_dom, is_fresh).
  assert (Hcaller : forall r, thresholds = Some r -> r1 <> r).
  { intros r Hr E. rewrite E in Hr1. rewrite (Hd _ Hr) in Hr1. discriminate. }
  rewrite init_thresholds_new in H2.
  2:{ intros r Hr.
      rewrite lookup_insert_ne by exact (Hcaller r Hr). exact (Hd r Hr). }
  unfold new_dict in H2. injection H2 as <- <-.
  set (h1 := <[r1 := ∅]> h) in *. set (r2 := fresh (dom h1)) in *.
  assert (Hr2 : h1 !! r2 = None) by (apply not_elem_of_dom, is_fresh).
  assert (Hne : r1 <> r2).
  { intros E. rewrite <- E in Hr2. unfold h1 in Hr2.
    rewrite lookup_insert_eq in Hr2. discriminate. }
  assert (Hcaller2 : forall r, thresholds = Some r -> r2 <> r).
  { intros r Hr E. rewrite E in Hr2. unfold h1 in Hr2.
    rewrite lookup_insert_ne in Hr2 by exact (Hcaller r Hr).
    rewrite (Hd _ Hr) in Hr2. discriminate. }
  assert (Hd1 : deref (<[r2 := ∅]> h1) r1 = ∅).
  { rewrite deref_insert_ne by (intros E; apply Hne; symmetry; exact E).
    apply deref_insert_eq. }
  split; [exact Hne|]. split.
  { unfold read_thresholds. rewrite Hd1. reflexivity. }
  unfold h3, set_thresholds. rewrite Hd1. split.
  { unfold read_thresholds. rewrite deref_insert_eq.
    cbn [dict_update foldl fst snd].
    rewrite lookup_insert_ne by discriminate.
    rewrite lookup_insert_eq, lookup_insert_eq. reflexivity. }
  split.
  { unfold read_thresholds. rewrite deref_insert_ne by exact Hne.
    rewrite deref_insert_eq. reflexivity. }
  intros r Hr. rewrite deref_insert_ne by exact (Hcaller r Hr).
  rewrite deref_insert_ne by exact (Hcaller2 r Hr).
  unfold h1. rewrite deref_insert_ne by exact (Hcaller r Hr).
  unfold deref. rewrite (Hd r Hr). reflexivity.
Qed.

Lemma thresholds_default_not_shared_witness :
  let h2 := <[2%nat := ∅]> (<[1%nat := ∅]> ex_empty_store) in
  let h3 := set_thresholds h2 1%nat
              [("weak"%string, 2%Q); ("strong"%string, 10%Q)] in
  1%nat <> 2%nat
  /\ read_thresholds h2 1%nat = Raise KeyError
  /\ read_thresholds h3 1%nat = OK (Thresholds 2 10)
  /\ read_thresholds h3 2%nat = Raise KeyError
  /\ (forall r, Some 0%nat = Some r -> deref h3 r = ∅).
Proof.
  apply (thresholds_default_not_shared ex_empty_store
           (<[1%nat := ∅]> ex_empty_store)
           (<[2%nat := ∅]> (<[1%nat := ∅]> ex_empty_store))
           (Some 0%nat) 1%nat 2%nat 2 10).
  - intros r [= <-]. reflexivity.
  - vm_compute. reflexivity.
  - vm_compute. reflexivity.
Defined.
